(** * Screencast Keys: the modal operator of [screencastkeys/ops.py]

    A shallow embedding of the event-aggregation and redraw-targeting
    logic of [ScreencastKeysStatus]: the geometry helpers, the event
    classifier, the two histories, the origin resolver, the draw-area
    calculator, the redraw-region finder and the modal loop with its
    timer / draw-handler life cycle.

    Conventions of the embedding.
    - Python [int] is [Z]; Python [float] (time stamps, text metrics) is
      idealised as [Q], with comparisons through [Qle_bool]/[Qeq_bool].
      The one place where the rounding of a float product decides the
      result, [circle_verts_num], is computed in binary64 ([PrimFloat]).
    - A Python exception is a value [Raise e] of [result]; code that both
      mutates class-level state and may raise lives in the monad [M],
      in which the mutations made before a raise stay visible afterwards,
      as they do for class attributes mutated in place.
    - Host objects (windows, areas, regions, spaces, operators) are records
      carrying the pointer returned by [as_pointer()].
    - What the add-on obtains from the host at import time and that is not
      part of [ops.py] (the event-type catalogue, text metrics, the
      translation function, the space-type table) is gathered in [Host]. *)

From Stdlib Require Import String Ascii List ZArith QArith Lia Bool.
From Stdlib Require Import DecimalString.
From Stdlib Require Import Floats.PrimFloat.
Import ListNotations.

Local Open Scope string_scope.
Local Open Scope list_scope.
Local Open Scope Z_scope.

Infix "+++" := String.append (right associativity, at level 60).

(** ** Exceptions and fallible results *)

Inductive exn : Type :=
| AttributeError
| KeyError
| AssertionError
| ValueError
| IndexError.

Inductive result (A : Type) : Type :=
| Ok (a : A)
| Raise (e : exn).

Arguments Ok {A} a.
Arguments Raise {A} e.

Definition rbind {A B} (r : result A) (k : A -> result B) : result B :=
  match r with
  | Ok a => k a
  | Raise e => Raise e
  end.

Notation "'let?' x ':=' r 'in' k" := (rbind r (fun x => k))
  (at level 10, x pattern, r at level 100, k at level 200).

(** ** Python built-ins used by the module *)

Definition getitem {A} (l : list A) (i : nat) : result A :=
  match nth_error l i with
  | Some a => Ok a
  | None => Raise IndexError
  end.

Definition str_in (s : string) (l : list string) : bool :=
  existsb (String.eqb s) l.

Fixpoint str_list_eqb (a b : list string) : bool :=
  match a, b with
  | [], [] => true
  | x :: a', y :: b' => String.eqb x y && str_list_eqb a' b'
  | _, _ => false
  end.

(** [l.index(x)] for a list known to contain [x]; [None] stands for the
    [ValueError] of a missing element. *)
Fixpoint list_index (x : string) (l : list string) : option nat :=
  match l with
  | [] => None
  | y :: l' =>
      if String.eqb x y then Some O
      else option_map S (list_index x l')
  end.

(** [l.remove(x)]: drops the first occurrence. *)
Fixpoint list_remove (x : string) (l : list string) : list string :=
  match l with
  | [] => []
  | y :: l' => if String.eqb x y then l' else y :: list_remove x l'
  end.

(** [sep.join(l)]. *)
Fixpoint str_join (sep : string) (l : list string) : string :=
  match l with
  | [] => ""
  | [s] => s
  | s :: l' => s +++ sep +++ str_join sep l'
  end.

(** [str(n)] for an integer. *)
Definition str_of_int (n : Z) : string :=
  NilZero.string_of_int (Z.to_int n).

(** [sorted(l, key=key)]: a stable sort, here by insertion from the right.
    An element is placed before the first element whose key is not
    smaller, so equal keys keep their input order. *)
Fixpoint insert_by_key {A} (key : A -> nat) (x : A) (l : list A) : list A :=
  match l with
  | [] => [x]
  | y :: l' =>
      if (key x <=? key y)%nat then x :: y :: l'
      else y :: insert_by_key key x l'
  end.

Fixpoint sorted {A} (key : A -> nat) (l : list A) : list A :=
  match l with
  | [] => []
  | x :: l' => insert_by_key key x (sorted key l')
  end.

(** [re.sub('(Left |Right )', '', name)]: every leftmost, non-overlapping
    match of one of the two words is deleted.  [skip] counts the
    characters of the current match still to be dropped. *)
Fixpoint re_sub_left_right_from (skip : nat) (s : string) : string :=
  match s with
  | EmptyString => EmptyString
  | String c s' =>
      match skip with
      | S k => re_sub_left_right_from k s'
      | O =>
          if String.prefix "Left " s then re_sub_left_right_from 4 s'
          else if String.prefix "Right " s then re_sub_left_right_from 5 s'
          else String c (re_sub_left_right_from 0 s')
      end
  end.

Definition re_sub_left_right (name : string) : string :=
  re_sub_left_right_from 0 name.

(** [s.split(sep)] for a non-empty separator: [cur] is the piece being
    read, in reverse. *)
Fixpoint rev_string_acc (s acc : string) : string :=
  match s with
  | EmptyString => acc
  | String c s' => rev_string_acc s' (String c acc)
  end.

Fixpoint str_split_from (sep : string) (skip : nat) (cur : string)
         (s : string) : list string :=
  match s with
  | EmptyString => [rev_string_acc cur ""]
  | String c s' =>
      match skip with
      | S k => str_split_from sep k cur s'
      | O =>
          if String.prefix sep s
          then rev_string_acc cur ""
               :: str_split_from sep (String.length sep - 1) "" s'
          else str_split_from sep 0 (String c cur) s'
      end
  end.

Definition str_split (sep s : string) : list string :=
  str_split_from sep 0 "" s.

(** [s.lower()] on ASCII letters. *)
Definition ascii_lower (c : ascii) : ascii :=
  let n := nat_of_ascii c in
  if ((65 <=? n) && (n <=? 90))%nat then ascii_of_nat (n + 32) else c.

Fixpoint str_lower (s : string) : string :=
  match s with
  | EmptyString => EmptyString
  | String c s' => String (ascii_lower c) (str_lower s')
  end.

(** [string.printable]: digits, letters, punctuation and whitespace. *)
Definition string_printable : string :=
  "0123456789abcdefghijklmnopqrstuvwxyzABCDEFGHIJKLMNOPQRSTUVWXYZ!"
  +++ String (ascii_of_nat 34) "#$%&'()*+,-./:;<=>?@[\]^_`{|}~ "
  +++ String (ascii_of_nat 9) (String (ascii_of_nat 10)
       (String (ascii_of_nat 13) (String (ascii_of_nat 11)
         (String (ascii_of_nat 12) EmptyString)))).

(** Float comparisons. *)
Definition Qltb (a b : Q) : bool := negb (Qle_bool b a).
Definition py_max (a b : Q) : Q := if Qltb a b then b else a.
Definition py_min (a b : Q) : Q := if Qltb b a then b else a.

(** ** Host objects *)

Record Region : Type := mkRegion {
  region_ptr : Z;
  region_type : string;
  region_x : Z;
  region_y : Z;
  region_width : Z;
  region_height : Z
}.

Record Space : Type := mkSpace {
  space_ptr : Z
}.

Record Area : Type := mkArea {
  area_ptr : Z;
  area_type : string;
  area_x : Z;
  area_y : Z;
  area_width : Z;
  area_height : Z;
  area_regions : list Region;
  area_spaces_list : list Space;      (* area.spaces *)
  area_spaces_active : Space          (* area.spaces.active *)
}.

Record Window : Type := mkWindow {
  window_ptr : Z;
  window_screen_areas : list Area     (* window.screen.areas *)
}.

(** An entry of [context.window_manager.operators]. *)
Record HostOperator : Type := mkHostOperator {
  op_ptr : Z;
  op_bl_idname : string;
  op_bl_label : string
}.

(** The add-on preferences read by the operator. *)
Record Prefs : Type := mkPrefs {
  display_time : Q;
  prefs_origin : string;              (* 'WINDOW' | 'AREA' | 'REGION' *)
  prefs_offset : Z * Z;
  show_mouse_events : bool;
  show_last_operator : bool
}.

Record Context : Type := mkContext {
  ctx_windows : list Window;          (* context.window_manager.windows *)
  ctx_operators : list HostOperator;  (* context.window_manager.operators *)
  ctx_window : Window;
  ctx_screen_areas : list Area;       (* context.screen.areas *)
  ctx_area : Area;
  ctx_region : Region;
  ctx_space_data : Space;
  ctx_use_region_overlap : bool;      (* preferences.system.use_region_overlap *)
  ctx_prefs : Prefs
}.

Record Event : Type := mkEvent {
  event_type : string;
  event_value : string;
  event_shift : bool;
  event_ctrl : bool;
  event_alt : bool;
  event_oskey : bool
}.

(** What the module takes from the host when it is loaded. *)
Record Host : Type := mkHost {
  (** [bpy.types.Event.bl_rna.properties['type'].enum_items] as
      (identifier, name) pairs. *)
  event_type_enum_items : list (string * string);
  (** [blf.dimensions(font_id, text)] at the configured size and dpi. *)
  blf_dimensions : string -> Q * Q;
  (** [bpy.app.translations.pgettext(name, 'Operator')]. *)
  pgettext : string -> string;
  (** [compat.get_all_space_types()]: area type to space type. *)
  SPACE_TYPES : list (string * string)
}.

(** ** Event types

    A member of the [EventType] enumeration is represented by its
    identifier; the host's identifiers are pairwise distinct, so equality
    of members is equality of identifiers. *)

Definition EventType : Type := string.

Definition LEFT_SHIFT : EventType := "LEFT_SHIFT".
Definition RIGHT_SHIFT : EventType := "RIGHT_SHIFT".
Definition LEFT_CTRL : EventType := "LEFT_CTRL".
Definition RIGHT_CTRL : EventType := "RIGHT_CTRL".
Definition LEFT_ALT : EventType := "LEFT_ALT".
Definition RIGHT_ALT : EventType := "RIGHT_ALT".
Definition OSKEY : EventType := "OSKEY".
Definition WINDOW_DEACTIVATE : EventType := "WINDOW_DEACTIVATE".

(** [EventType[s]]. *)
Definition EventType_getitem (H : Host) (s : string) : result EventType :=
  if existsb (fun it => String.eqb s (fst it)) (event_type_enum_items H)
  then Ok s
  else Raise KeyError.

(** [event_type.names[event_type.name]].  [EventType.names] is built from
    the same enumeration items as [EventType], so the lookup succeeds for
    every member; the empty default is never reached for one. *)
Fixpoint assoc_string {B} (k : string) (l : list (string * B)) : option B :=
  match l with
  | [] => None
  | (k', v) :: l' => if String.eqb k k' then Some v else assoc_string k l'
  end.

Definition EventType_names (H : Host) (t : EventType) : string :=
  match assoc_string t (event_type_enum_items H) with
  | Some n => n
  | None => ""
  end.

(** ** Geometry *)

Fixpoint intersect_aabb_range (idx : list nat) (min1 max1 min2 max2 : list Q)
  : result bool :=
  match idx with
  | [] => Ok true
  | i :: idx' =>
      let? a := getitem max1 i in
      let? b := getitem min2 i in
      if Qltb a b then Ok false
      else
        let? c := getitem max2 i in
        let? d := getitem min1 i in
        if Qltb c d then Ok false
        else intersect_aabb_range idx' min1 max1 min2 max2
  end.

Definition intersect_aabb (min1 max1 min2 max2 : list Q) : result bool :=
  intersect_aabb_range (seq 0 (List.length min1)) min1 max1 min2 max2.

Definition Rect : Type := (Z * Z * Z * Z)%type.

Fixpoint get_window_region_rect_loop (regions : list Region) (rect : Rect)
  : Rect :=
  match regions with
  | [] => rect
  | region :: regions' =>
      let '(r0, r1, r2, r3) := rect in
      if String.eqb (region_type region) "WINDOW"
      then get_window_region_rect_loop regions'
             (Z.min r0 (region_x region),
              Z.min r1 (region_y region),
              Z.max (region_x region + region_width region - 1) r2,
              Z.max (region_y region + region_height region - 1) r3)
      else get_window_region_rect_loop regions' rect
  end.

Definition get_window_region_rect (area : Area) : Rect :=
  get_window_region_rect_loop (area_regions area) (99999, 99999, 0, 0).

(** The scan of [get_region_rect_on_v3d] for the 'TOOLS' and 'UI' regions
    wider than one pixel; the last one of each kind wins. *)
Fixpoint v3d_tools_ui (regions : list Region) (tools ui : option Region)
  : option Region * option Region :=
  match regions with
  | [] => (tools, ui)
  | ar :: regions' =>
      if region_width ar >? 1 then
        if String.eqb (region_type ar) "WINDOW" then v3d_tools_ui regions' tools ui
        else if String.eqb (region_type ar) "TOOLS" then v3d_tools_ui regions' (Some ar) ui
        else if String.eqb (region_type ar) "UI" then v3d_tools_ui regions' tools (Some ar)
        else v3d_tools_ui regions' tools ui
      else v3d_tools_ui regions' tools ui
  end.

Definition get_region_rect_on_v3d (context : Context) (area : Area)
           (region : Region) : Rect :=
  if negb (String.eqb (region_type region) "WINDOW") then
    (region_x region, region_y region,
     region_x region + region_width region,
     region_y region + region_height region)
  else
    let window := region in
    let '(tools, ui) := v3d_tools_ui (area_regions area) None None in
    let '(xmin, _, xmax, _) := get_window_region_rect area in
    let '(xmin, xmax) :=
      if ctx_use_region_overlap context then
        let '(left_width, right_width) :=
          match tools, ui with
          | Some tools, Some ui =>
              let '(r1, r2) :=
                if region_x tools <=? region_x ui then (tools, ui) else (ui, tools) in
              if region_x r1 =? area_x area then
                if region_x r2 =? region_x r1 + region_width r1
                then (region_width r1 + region_width r2, 0)
                else (region_width r1, region_width r2)
              else (0, region_width r1 + region_width r2)
          | Some tools, None =>
              if region_x tools =? area_x area
              then (region_width tools, 0)
              else (0, region_width tools)
          | None, Some ui =>
              if region_x ui =? area_x area
              then (region_width ui, 0)
              else (0, region_width ui)
          | None, None => (0, 0)
          end in
        (Z.max xmin (area_x area + left_width),
         Z.min xmax (area_x area + area_width area - right_width - 1))
      else (xmin, xmax) in
    let ymin := region_y window in
    let ymax := region_y window + region_height window - 1 in
    (xmin, ymin, xmax, ymax).

(** ** Class-level state of [ScreencastKeysStatus] and the host's side *)

(** [[time, event_type, modifier, repeat]]. *)
Record EventEntry : Type := mkEventEntry {
  entry_time : Q;
  entry_type : EventType;
  entry_mods : list EventType;
  entry_count : Z
}.

(** [[time, bl_label, idname_py, addr]]. *)
Record OperatorEntry : Type := mkOperatorEntry {
  oentry_time : Q;
  oentry_label : string;
  oentry_idname_py : string;
  oentry_addr : Z
}.

(** [origin]; a field still holding its initial [""] is [None]. *)
Record Origin : Type := mkOrigin {
  origin_window : option Z;
  origin_area : option Z;
  origin_space : option Z;
  origin_region_type : string
}.

(** Calls made on the host, oldest first. *)
Inductive HostCall : Type :=
| region_tag_redraw (region : Z)
| area_tag_redraw (area : Z)
| space_draw_handler_add (space_type region_type : string) (handle : Z)
| space_draw_handler_remove (space_type : string) (handle : Z)
                            (region_type : string)
| wm_event_timer_add (window : Z) (timer : Z)
| wm_event_timer_remove (timer : Z)
| wm_modal_handler_add.

Record State : Type := mkState {
  hold_modifier_keys : list EventType;
  event_history : list EventEntry;
  operator_history : list OperatorEntry;
  prev_time : Q;
  timers : list (Z * Z);                       (* dict, insertion order *)
  handlers : list ((string * string) * Z);     (* dict, insertion order *)
  draw_regions_prev : list Z;                  (* set *)
  origin : Origin;
  area_spaces : list (Z * list Z);             (* defaultdict(set) *)
  running : bool;
  host_calls : list HostCall;
  host_next_token : Z
}.

Definition init_state : State :=
  {| hold_modifier_keys := [];
     event_history := [];
     operator_history := [];
     prev_time := 0%Q;
     timers := [];
     handlers := [];
     draw_regions_prev := [];
     origin := mkOrigin None None None "";
     area_spaces := [];
     running := false;
     host_calls := [];
     host_next_token := 1 |}.

Definition set_hold_modifier_keys (v : list EventType) (s : State) : State :=
  mkState v (event_history s) (operator_history s) (prev_time s) (timers s)
          (handlers s) (draw_regions_prev s) (origin s) (area_spaces s)
          (running s) (host_calls s) (host_next_token s).

Definition set_event_history (v : list EventEntry) (s : State) : State :=
  mkState (hold_modifier_keys s) v (operator_history s) (prev_time s)
          (timers s) (handlers s) (draw_regions_prev s) (origin s)
          (area_spaces s) (running s) (host_calls s) (host_next_token s).

Definition set_operator_history (v : list OperatorEntry) (s : State) : State :=
  mkState (hold_modifier_keys s) (event_history s) v (prev_time s) (timers s)
          (handlers s) (draw_regions_prev s) (origin s) (area_spaces s)
          (running s) (host_calls s) (host_next_token s).

Definition set_prev_time (v : Q) (s : State) : State :=
  mkState (hold_modifier_keys s) (event_history s) (operator_history s) v
          (timers s) (handlers s) (draw_regions_prev s) (origin s)
          (area_spaces s) (running s) (host_calls s) (host_next_token s).

Definition set_timers (v : list (Z * Z)) (s : State) : State :=
  mkState (hold_modifier_keys s) (event_history s) (operator_history s)
          (prev_time s) v (handlers s) (draw_regions_prev s) (origin s)
          (area_spaces s) (running s) (host_calls s) (host_next_token s).

Definition set_handlers (v : list ((string * string) * Z)) (s : State) : State :=
  mkState (hold_modifier_keys s) (event_history s) (operator_history s)
          (prev_time s) (timers s) v (draw_regions_prev s) (origin s)
          (area_spaces s) (running s) (host_calls s) (host_next_token s).

Definition set_draw_regions_prev (v : list Z) (s : State) : State :=
  mkState (hold_modifier_keys s) (event_history s) (operator_history s)
          (prev_time s) (timers s) (handlers s) v (origin s) (area_spaces s)
          (running s) (host_calls s) (host_next_token s).

Definition set_origin (v : Origin) (s : State) : State :=
  mkState (hold_modifier_keys s) (event_history s) (operator_history s)
          (prev_time s) (timers s) (handlers s) (draw_regions_prev s) v
          (area_spaces s) (running s) (host_calls s) (host_next_token s).

Definition set_area_spaces (v : list (Z * list Z)) (s : State) : State :=
  mkState (hold_modifier_keys s) (event_history s) (operator_history s)
          (prev_time s) (timers s) (handlers s) (draw_regions_prev s)
          (origin s) v (running s) (host_calls s) (host_next_token s).

Definition set_running (v : bool) (s : State) : State :=
  mkState (hold_modifier_keys s) (event_history s) (operator_history s)
          (prev_time s) (timers s) (handlers s) (draw_regions_prev s)
          (origin s) (area_spaces s) v (host_calls s) (host_next_token s).

(** A host call that returns nothing: it is appended to the log. *)
Definition host_call (c : HostCall) (s : State) : State :=
  mkState (hold_modifier_keys s) (event_history s) (operator_history s)
          (prev_time s) (timers s) (handlers s) (draw_regions_prev s)
          (origin s) (area_spaces s) (running s) (host_calls s ++ [c])
          (host_next_token s).

(** A host call that returns a new handle ([draw_handler_add],
    [event_timer_add]): the host hands out its next token. *)
Definition host_call_token (c : Z -> HostCall) (s : State) : Z * State :=
  (host_next_token s,
   mkState (hold_modifier_keys s) (event_history s) (operator_history s)
           (prev_time s) (timers s) (handlers s) (draw_regions_prev s)
           (origin s) (area_spaces s) (running s)
           (host_calls s ++ [c (host_next_token s)])
           (host_next_token s + 1)).

(** ** The monad of code that mutates the state and may raise *)

Definition M (A : Type) : Type := State -> result A * State.

Definition ret {A} (a : A) : M A := fun s => (Ok a, s).

Definition bind {A B} (m : M A) (k : A -> M B) : M B :=
  fun s =>
    match m s with
    | (Ok a, s') => k a s'
    | (Raise e, s') => (Raise e, s')
    end.

Definition get : M State := fun s => (Ok s, s).
Definition modify (f : State -> State) : M unit := fun s => (Ok tt, f s).
Definition lift {A} (r : result A) : M A := fun s => (r, s).

Notation "x <- m ;; k" := (bind m (fun x => k))
  (at level 61, m at next level, right associativity).
Notation "m ;;; k" := (bind m (fun _ => k))
  (at level 61, right associativity).

Fixpoint for_each {A} (l : list A) (body : A -> M unit) : M unit :=
  match l with
  | [] => ret tt
  | x :: l' => body x ;;; for_each l' body
  end.

(** Sets and dicts keyed by pointers. *)
Definition ptr_in (p : Z) (l : list Z) : bool := existsb (Z.eqb p) l.

Definition set_add (p : Z) (l : list Z) : list Z :=
  if ptr_in p l then l else l ++ [p].

Definition set_remove (p : Z) (l : list Z) : list Z :=
  filter (fun q => negb (Z.eqb p q)) l.

Fixpoint assoc_ptr {B} (k : Z) (l : list (Z * B)) : option B :=
  match l with
  | [] => None
  | (k', v) :: l' => if Z.eqb k k' then Some v else assoc_ptr k l'
  end.

Definition key_in {B} (k : Z) (l : list (Z * B)) : bool :=
  match assoc_ptr k l with Some _ => true | None => false end.

(** [d[k].add(v)] on a [defaultdict(set)]. *)
Fixpoint defaultdict_add (k v : Z) (d : list (Z * list Z)) : list (Z * list Z) :=
  match d with
  | [] => [(k, [v])]
  | (k', vs) :: d' =>
      if Z.eqb k k' then (k', set_add v vs) :: d'
      else (k', vs) :: defaultdict_add k v d'
  end.

(** [pointer == v] where [v] is a pointer, or a value that is none
    (the initial [""] of an [origin] field, [None]): an integer never
    equals the latter. *)
Definition ptr_eq_opt (p : Z) (o : option Z) : bool :=
  match o with
  | Some q => Z.eqb p q
  | None => false
  end.

Definition handler_key_eqb (a b : string * string) : bool :=
  String.eqb (fst a) (fst b) && String.eqb (snd a) (snd b).

Fixpoint handlers_get (k : string * string) (l : list ((string * string) * Z))
  : option Z :=
  match l with
  | [] => None
  | (k', v) :: l' => if handler_key_eqb k k' then Some v else handlers_get k l'
  end.

(** ** Class constants

    The float constants in the class namespace; [cls.NAME] looks them up
    and raises [AttributeError] for a name the class does not define. *)
Definition class_constants : list (string * Q) :=
  [ ("HEIGHT_RATIO_FOR_SEPARATOR", 0.6%Q);
    ("TIMER_STEP", 0.1%Q) ].

Definition cls_getattr (name : string) : result Q :=
  match assoc_string name class_constants with
  | Some v => Ok v
  | None => Raise AttributeError
  end.

Definition MODIFIER_EVENT_TYPES : list EventType :=
  [ LEFT_SHIFT; RIGHT_SHIFT; LEFT_CTRL; RIGHT_CTRL; LEFT_ALT; RIGHT_ALT; OSKEY ].

Definition MOUSE_EVENT_TYPES : list EventType :=
  [ "LEFTMOUSE"; "MIDDLEMOUSE"; "RIGHTMOUSE"; "BUTTON4MOUSE"; "BUTTON5MOUSE";
    "BUTTON6MOUSE"; "BUTTON7MOUSE"; "TRACKPADPAN"; "TRACKPADZOOM";
    "MOUSEROTATE"; "WHEELUPMOUSE"; "WHEELDOWNMOUSE"; "WHEELINMOUSE";
    "WHEELOUTMOUSE" ].

(** ** [sorted_modifier_keys] *)

Definition key_fn (event_type : EventType) : nat :=
  match list_index event_type MODIFIER_EVENT_TYPES with
  | Some i => i
  | None => 100%nat
  end.

Fixpoint sorted_modifier_keys_loop (H : Host) (modifiers : list EventType)
         (names : list string) : result (list string) :=
  match modifiers with
  | [] => Ok names
  | mod_ :: modifiers' =>
      let name := EventType_names H mod_ in
      if negb (str_in mod_ MODIFIER_EVENT_TYPES) then Raise AssertionError
      else
        let name := re_sub_left_right name in
        if negb (str_in name names)
        then sorted_modifier_keys_loop H modifiers' (names ++ [name])
        else sorted_modifier_keys_loop H modifiers' names
  end.

Definition sorted_modifier_keys (H : Host) (modifiers : list EventType)
  : result (list string) :=
  sorted_modifier_keys_loop H (sorted key_fn modifiers) [].

(** ** [removed_old_event_history] and [removed_old_operator_history]

    [current_time] is the value [time.time()] returns inside the call. *)

Fixpoint removed_old_event_history_loop (current_time display_time : Q)
         (items : list EventEntry) (event_history : list EventEntry)
  : list EventEntry :=
  match items with
  | [] => event_history
  | item :: items' =>
      let event_time := entry_time item in
      let t := (current_time - event_time)%Q in
      if Qle_bool t display_time
      then removed_old_event_history_loop current_time display_time items'
             (event_history ++ [item])
      else removed_old_event_history_loop current_time display_time items'
             event_history
  end.

Definition removed_old_event_history (prefs : Prefs) (current_time : Q)
           (s : State) : list EventEntry :=
  removed_old_event_history_loop current_time (display_time prefs)
    (event_history s) [].

(** [l[-n:]]. *)
Definition last_n {A} (n : nat) (l : list A) : list A :=
  skipn (List.length l - n) l.

Definition removed_old_operator_history (s : State) : list OperatorEntry :=
  last_n 32 (operator_history s).

(** ** [get_origin] *)

(** Attribute access on a Python [int]: [area_p.spaces] with
    [area_p = area.as_pointer()].  An integer has no such attribute. *)
Definition int_getattr_spaces (area_p : Z) : result (list Space) :=
  Raise AttributeError.

Definition is_window_match (s : State) (window : Window) : bool :=
  ptr_eq_opt (window_ptr window) (origin_window (origin s)).

Definition is_area_match (s : State) (area : Area) : result bool :=
  if ptr_eq_opt (area_ptr area) (origin_area (origin s)) then Ok true
  else if ptr_eq_opt (space_ptr (area_spaces_active area))
                        (origin_space (origin s)) then Ok true
  else
    let area_p := area_ptr area in
    if key_in area_p (area_spaces s) then
      let? spaces := int_getattr_spaces area_p in
      let spaces_p := map space_ptr spaces in
      if existsb (fun p => ptr_eq_opt p (origin_space (origin s))) spaces_p
      then Ok true
      else Ok false
    else Ok false.

Definition is_region_match (s : State) (region : Region) : bool :=
  String.eqb (region_type region) (origin_region_type (origin s)).

Definition OriginResult : Type :=
  (option Window * option Area * option Region * Z * Z)%type.

Definition no_origin : OriginResult := (None, None, None, 0, 0).

Fixpoint find_window (s : State) (windows : list Window) : option Window :=
  match windows with
  | [] => None
  | window :: windows' =>
      if is_window_match s window then Some window
      else find_window s windows'
  end.

(** The 'AREA' loop; [None] when the loop ends without returning. *)
Fixpoint get_origin_area (s : State) (window : Window) (x y : Z)
         (areas : list Area) : result (option OriginResult) :=
  match areas with
  | [] => Ok None
  | area :: areas' =>
      let? m := is_area_match s area in
      if m then Ok (Some (Some window, Some area, None,
                          x + area_x area, y + area_y area))
      else get_origin_area s window x y areas'
  end.

Fixpoint get_origin_region_in (s : State) (context : Context) (window : Window)
         (area : Area) (x y : Z) (regions : list Region)
  : option OriginResult :=
  match regions with
  | [] => None
  | region :: regions' =>
      if is_region_match s region then
        if String.eqb (area_type area) "VIEW_3D" then
          let '(r0, r1, _, _) := get_region_rect_on_v3d context area region in
          Some (Some window, Some area, Some region, x + r0, y + r1)
        else
          Some (Some window, Some area, Some region,
                x + region_x region, y + region_y region)
      else get_origin_region_in s context window area x y regions'
  end.

(** The 'REGION' loop. *)
Fixpoint get_origin_region (s : State) (context : Context) (window : Window)
         (x y : Z) (areas : list Area) : result (option OriginResult) :=
  match areas with
  | [] => Ok None
  | area :: areas' =>
      let? m := is_area_match s area in
      if negb m then get_origin_region s context window x y areas'
      else
        match get_origin_region_in s context window area x y
                (area_regions area) with
        | Some r => Ok (Some r)
        | None => get_origin_region s context window x y areas'
        end
  end.

Definition get_origin (s : State) (context : Context) : result OriginResult :=
  let prefs := ctx_prefs context in
  let '(x, y) := prefs_offset prefs in
  match find_window s (ctx_windows context) with
  | None => Ok no_origin
  | Some window =>
      if String.eqb (prefs_origin prefs) "WINDOW" then
        Ok (Some window, None, None, x, y)
      else if String.eqb (prefs_origin prefs) "AREA" then
        let? r := get_origin_area s window x y (window_screen_areas window) in
        match r with
        | Some r => Ok r
        | None => Ok no_origin
        end
      else if String.eqb (prefs_origin prefs) "REGION" then
        let? r := get_origin_region s context window x y
                    (window_screen_areas window) in
        match r with
        | Some r => Ok r
        | None => Ok no_origin
        end
      else Ok no_origin
  end.

(** ** [calc_draw_area_rect] *)

Definition DrawRect : Type := (Q * Q * Q * Q)%type.

(** The text of one event-history line. *)
Definition event_text (H : Host) (e : EventEntry) : result string :=
  let text := EventType_names H (entry_type e) in
  let? text :=
    match entry_mods e with
    | [] => Ok text
    | _ :: _ =>
        let? mod_names := sorted_modifier_keys H (entry_mods e) in
        Ok (str_join " + " mod_names +++ " + " +++ text)
    end in
  if entry_count e >? 1
  then Ok (text +++ " x" +++ str_of_int (entry_count e))
  else Ok text.

Fixpoint calc_event_lines (H : Host) (sh : Q) (entries : list EventEntry)
         (wh : Q * Q) : result (Q * Q) :=
  match entries with
  | [] => Ok wh
  | e :: entries' =>
      let '(draw_area_width, draw_area_height) := wh in
      let? text := event_text H e in
      let sw := fst (blf_dimensions H text) in
      calc_event_lines H sh entries'
        (py_max draw_area_width sw, (draw_area_height + sh)%Q)
  end.

Definition calc_draw_area_rect (H : Host) (s : State) (context : Context)
           (current_time : Q) : result (option DrawRect) :=
  let prefs := ctx_prefs context in
  let sh := snd (blf_dimensions H string_printable) in
  let? o := get_origin s context in
  let '(window, area, region, x, y) := o in
  match window with
  | None => Ok None
  | Some _ =>
      let draw_area_width := 0%Q in
      let draw_area_height := 0%Q in
      let? wh :=
        if show_last_operator prefs then
          let operator_history := removed_old_operator_history s in
          let draw_area_width :=
            match rev operator_history with
            | last :: _ =>
                let text := pgettext H (oentry_label last) in
                let text := text +++ " ('" +++ oentry_idname_py last +++ "')" in
                let sw := fst (blf_dimensions H text) in
                py_max draw_area_width sw
            | [] => draw_area_width
            end in
          let? separator_height := cls_getattr "SEPARATOR_HEIGHT" in
          Ok (draw_area_width,
              (draw_area_height + (sh + sh * separator_height))%Q)
        else Ok (draw_area_width, draw_area_height) in
      let '(draw_area_width, draw_area_height) := wh in
      let? wh :=
        match hold_modifier_keys s with
        | _ :: _ =>
            let? mod_names := sorted_modifier_keys H (hold_modifier_keys s) in
            let text := str_join " + " mod_names in
            let sw := fst (blf_dimensions H text) in
            Ok (py_max draw_area_width sw, (draw_area_height + sh)%Q)
        | [] => Ok (draw_area_width, draw_area_height)
        end in
      let '(draw_area_width, draw_area_height) := wh in
      let event_history := removed_old_event_history prefs current_time s in
      let? wh :=
        match hold_modifier_keys s, event_history with
        | [], [] => Ok (draw_area_width, draw_area_height)
        | _, _ =>
            let sw := fst (blf_dimensions H "Left Mouse") in
            let? separator_height := cls_getattr "SEPARATOR_HEIGHT" in
            Ok (py_max draw_area_width sw,
                (draw_area_height + sh * separator_height)%Q)
        end in
      let? wh := calc_event_lines H sh (rev event_history) wh in
      let '(draw_area_width, draw_area_height) := wh in
      let draw_area_height := (draw_area_height + sh)%Q in
      if String.eqb (prefs_origin prefs) "WINDOW" then
        Ok (Some (inject_Z x, inject_Z y,
                  (inject_Z x + draw_area_width)%Q,
                  (inject_Z y + draw_area_height)%Q))
      else if String.eqb (prefs_origin prefs) "AREA" then
        match area with
        | None => Raise AttributeError
        | Some area =>
            let xmin := area_x area in
            let ymin := area_y area in
            let xmax := area_x area + area_width area - 1 in
            let ymax := area_y area + area_height area - 1 in
            Ok (Some (inject_Z (Z.max x xmin),
                      inject_Z (Z.max y ymin),
                      py_min (inject_Z x + draw_area_width)%Q (inject_Z xmax),
                      py_min (inject_Z y + draw_area_height)%Q (inject_Z ymax)))
        end
      else if String.eqb (prefs_origin prefs) "REGION" then
        match region with
        | None => Raise AttributeError
        | Some region =>
            let xmin := region_x region in
            let ymin := region_y region in
            let xmax := region_x region + region_width region - 1 in
            let ymax := region_y region + region_height region - 1 in
            Ok (Some (inject_Z (Z.max x xmin),
                      inject_Z (Z.max y ymin),
                      py_min (inject_Z x + draw_area_width)%Q (inject_Z xmax),
                      py_min (inject_Z y + draw_area_height)%Q (inject_Z ymax)))
        end
      else Raise AssertionError
  end.

(** ** [find_redraw_regions] *)

Fixpoint find_redraw_regions_in_area (draw_area_min draw_area_max : list Q)
         (area : Area) (area_regions : list Region)
         (regions : list (Area * Region)) : result (list (Area * Region)) :=
  match area_regions with
  | [] => Ok regions
  | region :: area_regions' =>
      if String.eqb (region_type region) "" then
        find_redraw_regions_in_area draw_area_min draw_area_max area
          area_regions' regions
      else
        let region_min := [inject_Z (region_x region);
                           inject_Z (region_y region)] in
        let region_max :=
          [inject_Z (region_x region + region_width region - 1);
           inject_Z (region_y region + region_height region - 1)] in
        let? hit := intersect_aabb region_min region_max
                      draw_area_min draw_area_max in
        if hit
        then find_redraw_regions_in_area draw_area_min draw_area_max area
               area_regions' (regions ++ [(area, region)])
        else find_redraw_regions_in_area draw_area_min draw_area_max area
               area_regions' regions
  end.

Fixpoint find_redraw_regions_in (draw_area_min draw_area_max : list Q)
         (areas : list Area) (regions : list (Area * Region))
  : result (list (Area * Region)) :=
  match areas with
  | [] => Ok regions
  | area :: areas' =>
      let? regions := find_redraw_regions_in_area draw_area_min draw_area_max
                        area (area_regions area) regions in
      find_redraw_regions_in draw_area_min draw_area_max areas' regions
  end.

(** The body of [find_redraw_regions] once [rect] is known. *)
Definition find_redraw_regions_of (rect : option DrawRect)
           (areas : list Area) : result (list (Area * Region)) :=
  match rect with
  | None => Ok []
  | Some (draw_area_min_x, draw_area_min_y, draw_area_max_x, draw_area_max_y) =>
      let width := (draw_area_max_x - draw_area_min_x)%Q in
      let height := (draw_area_max_y - draw_area_min_y)%Q in
      if Qeq_bool width height && Qeq_bool height 0 then Ok []
      else
        let draw_area_min := [draw_area_min_x; draw_area_min_y] in
        let draw_area_max := [(draw_area_max_x - 1)%Q;
                              (draw_area_max_y - 1)%Q] in
        find_redraw_regions_in draw_area_min draw_area_max areas []
  end.

Definition find_redraw_regions (H : Host) (s : State) (context : Context)
           (current_time : Q) : result (list (Area * Region)) :=
  let? rect := calc_draw_area_rect H s context current_time in
  find_redraw_regions_of rect (ctx_screen_areas context).

(** ** Event classification *)

(** The [mod_keys] list built from the event's modifier flags. *)
Definition event_mod_keys (event : Event) : list EventType :=
  let mod_keys := [] in
  let mod_keys := if event_shift event then mod_keys ++ [LEFT_SHIFT] else mod_keys in
  let mod_keys := if event_oskey event then mod_keys ++ [OSKEY] else mod_keys in
  let mod_keys := if event_alt event then mod_keys ++ [LEFT_ALT] else mod_keys in
  let mod_keys := if event_ctrl event then mod_keys ++ [LEFT_CTRL] else mod_keys in
  mod_keys.

Definition update_hold_modifier_keys (H : Host) (event : Event) : M unit :=
  modify (set_hold_modifier_keys []) ;;;
  let mod_keys := event_mod_keys event in
  t <- lift (EventType_getitem H (event_type event)) ;;
  let mod_keys := if String.eqb t WINDOW_DEACTIVATE then [] else mod_keys in
  modify (fun s => set_hold_modifier_keys (hold_modifier_keys s ++ mod_keys) s).

(** Returns [True] or falls off the end ([None], which is false). *)
Definition is_ignore_event (H : Host) (event : Event) (prefs : option Prefs)
  : result bool :=
  let? t := EventType_getitem H (event_type event) in
  if str_in t ["NONE"; "MOUSEMOVE"; "INBETWEEN_MOUSEMOVE";
               WINDOW_DEACTIVATE; "TEXTINPUT"]
  then Ok true
  else if match prefs with
          | Some prefs => negb (show_mouse_events prefs)
                          && str_in t MOUSE_EVENT_TYPES
          | None => false
          end
  then Ok true
  else if String.prefix "EVT_TWEAK" t then Ok true
  else if String.prefix "TIMER" t then Ok true
  else Ok false.

Definition is_modifier_event (H : Host) (event : Event) : result bool :=
  let? t := EventType_getitem H (event_type event) in
  Ok (str_in t MODIFIER_EVENT_TYPES).

(** ** [modal] *)

Inductive OperatorReturn : Type :=
| FINISHED
| PASS_THROUGH
| CANCELLED
| RUNNING_MODAL.

(** The three readings of [time.time()] during one call of [modal]:
    the one bound to [current_time], the one inside the call of
    [removed_old_event_history] that rewrites the history, and the one
    inside [calc_draw_area_rect]. *)
Record Clock : Type := mkClock {
  now_modal : Q;
  now_prune : Q;
  now_draw : Q
}.

(** "update cls.area_spaces". *)
Definition update_area_spaces (context : Context) (s : State) : State :=
  fold_left
    (fun s area =>
       fold_left
         (fun s space =>
            set_area_spaces
              (defaultdict_add (area_ptr area) (space_ptr space)
                               (area_spaces s)) s)
         (area_spaces_list area) s)
    (ctx_screen_areas context) s.

(** [current_mod]: a copy of the held modifiers without the event's own
    type. *)
Definition current_mod_of (event_type : EventType)
           (hold_modifier_keys : list EventType) : list EventType :=
  let current_mod := hold_modifier_keys in
  if str_in event_type current_mod
  then list_remove event_type current_mod
  else current_mod.

(** "event_history": merge into the last entry or append. *)
Definition record_event (prefs : Prefs) (current_time : Q)
           (event_type : EventType) (current_mod : list EventType)
           (history : list EventEntry) : list EventEntry :=
  let current := mkEventEntry current_time event_type current_mod 1 in
  match rev history with
  | last :: before =>
      if String.eqb (entry_type last) event_type
         && str_list_eqb (entry_mods last) current_mod
         && Qltb (current_time - entry_time last)%Q (display_time prefs)
      then rev before
           ++ [mkEventEntry current_time (entry_type last) (entry_mods last)
                            (entry_count last + 1)]
      else history ++ [current]
  | [] => history ++ [current]
  end.

(** "operator_history": where to resume in [operators]. *)
Fixpoint resume_index (len i : nat) (reversed : list HostOperator)
         (addr : option Z) : nat :=
  match reversed with
  | [] => 0%nat
  | op :: reversed' =>
      if ptr_eq_opt (op_ptr op) addr then (len - i)%nat
      else resume_index len (S i) reversed' addr
  end.

Definition append_operator (current_time : Q) (op : HostOperator) : M unit :=
  match str_split "_OT_" (op_bl_idname op) with
  | [m; f] =>
      let idname_py := str_lower m +++ "." +++ f in
      modify (fun s =>
        set_operator_history
          (operator_history s
           ++ [mkOperatorEntry current_time (op_bl_label op) idname_py
                               (op_ptr op)]) s)
  | _ => lift (Raise ValueError)
  end.

Definition update_operator_history (context : Context) (current_time : Q)
  : M unit :=
  let operators := ctx_operators context in
  (match operators with
   | [] => ret tt
   | _ :: _ =>
       s <- get ;;
       let addr :=
         match rev (operator_history s) with
         | last :: _ => Some (oentry_addr last)
         | [] => None
         end in
       let j := resume_index (List.length operators) 0 (rev operators) addr in
       for_each (skipn j operators) (append_operator current_time)
   end) ;;;
  modify (fun s => set_operator_history (removed_old_operator_history s) s).

(** "redraw", first loop: regions drawn last time are tagged and dropped. *)
Definition redraw_previous_region (region : Region) : M unit :=
  s <- get ;;
  if ptr_in (region_ptr region) (draw_regions_prev s) then
    modify (host_call (region_tag_redraw (region_ptr region))) ;;;
    modify (fun s =>
      set_draw_regions_prev
        (set_remove (region_ptr region) (draw_regions_prev s)) s)
  else ret tt.

Definition redraw_previous (context : Context) : M unit :=
  for_each (ctx_screen_areas context) (fun area =>
    for_each (area_regions area) redraw_previous_region).

(** "redraw", second loop. *)
Definition redraw_current (H : Host) (regions : list (Area * Region)) : M unit :=
  for_each regions (fun '(area, region) =>
    space_type <- lift (match assoc_string (area_type area) (SPACE_TYPES H) with
                        | Some t => Ok t
                        | None => Raise KeyError
                        end) ;;
    let h_key := (space_type, region_type region) in
    s <- get ;;
    (match handlers_get h_key (handlers s) with
     | Some _ => ret tt
     | None =>
         fun s =>
           let '(handle, s) :=
             host_call_token
               (space_draw_handler_add space_type (region_type region)) s in
           (Ok tt, set_handlers (handlers s ++ [(h_key, handle)]) s)
     end) ;;;
    modify (host_call (region_tag_redraw (region_ptr region))) ;;;
    modify (fun s =>
      set_draw_regions_prev
        (set_add (region_ptr region) (draw_regions_prev s)) s)).

(** The body of the "redraw" block once [regions] is known. *)
Definition redraw_step (H : Host) (context : Context)
           (regions : list (Area * Region)) (current_time : Q) : M unit :=
  redraw_previous context ;;;
  redraw_current H regions ;;;
  modify (set_prev_time current_time).

Definition redraw (H : Host) (context : Context) (event : Event)
           (clock : Clock) : M unit :=
  let prefs := ctx_prefs context in
  let current_time := now_modal clock in
  s <- get ;;
  let prev_time := prev_time s in
  ignore <- lift (is_ignore_event H event (Some prefs)) ;;
  go <- (if negb ignore then ret true
         else if negb (Qeq_bool prev_time 0) then
           step <- lift (cls_getattr "TIMER_STEP") ;;
           ret (Qle_bool step (current_time - prev_time)%Q)
         else ret false) ;;
  if go : bool then
    regions <- (fun s => (find_redraw_regions H s context (now_draw clock), s)) ;;
    redraw_step H context regions current_time
  else ret tt.

Definition modal (H : Host) (context : Context) (event : Event)
           (clock : Clock) : M OperatorReturn :=
  let prefs := ctx_prefs context in
  s <- get ;;
  if negb (running s) then ret FINISHED
  else if String.eqb (event_type event) "" then ret PASS_THROUGH
  else
    event_type <- lift (EventType_getitem H (event_type event)) ;;
    let current_time := now_modal clock in
    modify (update_area_spaces context) ;;;
    update_hold_modifier_keys H event ;;;
    s <- get ;;
    let current_mod := current_mod_of event_type (hold_modifier_keys s) in
    ignore <- lift (is_ignore_event H event (Some prefs)) ;;
    is_mod <- (if negb ignore then lift (is_modifier_event H event)
               else ret true) ;;
    (if negb ignore && negb is_mod && String.eqb (event_value event) "PRESS"
     then modify (fun s =>
            set_event_history
              (record_event prefs current_time event_type current_mod
                            (event_history s)) s)
     else ret tt) ;;;
    modify (fun s =>
      set_event_history (removed_old_event_history prefs (now_prune clock) s) s) ;;;
    update_operator_history context current_time ;;;
    redraw H context event clock ;;;
    ret PASS_THROUGH.

(** ** Registration life cycle *)

Definition draw_handler_remove : M unit :=
  s <- get ;;
  for_each (handlers s) (fun '((space_type, region_type), handle) =>
    modify (host_call (space_draw_handler_remove space_type handle region_type))) ;;;
  modify (set_handlers []).

Definition event_timer_add (context : Context) : M unit :=
  for_each (ctx_windows context) (fun win =>
    let key := window_ptr win in
    s <- get ;;
    if negb (key_in key (timers s)) then
      fun s =>
        let '(timer, s) := host_call_token (wm_event_timer_add key) s in
        (Ok tt, set_timers (timers s ++ [(key, timer)]) s)
    else ret tt).

Definition event_timer_remove (context : Context) : M unit :=
  for_each (ctx_windows context) (fun win =>
    let key := window_ptr win in
    s <- get ;;
    match assoc_ptr key (timers s) with
    | Some timer => modify (host_call (wm_event_timer_remove timer))
    | None => ret tt
    end) ;;;
  modify (set_timers []).

Definition invoke (H : Host) (context : Context) (event : Event)
  : M OperatorReturn :=
  s <- get ;;
  if running s then
    event_timer_remove context ;;;
    draw_handler_remove ;;;
    modify (set_hold_modifier_keys []) ;;;
    modify (set_event_history []) ;;;
    modify (set_operator_history []) ;;;
    modify (set_draw_regions_prev []) ;;;
    modify (host_call (area_tag_redraw (area_ptr (ctx_area context)))) ;;;
    modify (set_running false) ;;;
    ret CANCELLED
  else
    update_hold_modifier_keys H event ;;;
    event_timer_add context ;;;
    modify (host_call wm_modal_handler_add) ;;;
    modify (set_origin
              (mkOrigin (Some (window_ptr (ctx_window context)))
                        (Some (area_ptr (ctx_area context)))
                        (Some (space_ptr (ctx_space_data context)))
                        (region_type (ctx_region context)))) ;;;
    modify (host_call (area_tag_redraw (area_ptr (ctx_area context)))) ;;;
    modify (set_running true) ;;;
    ret RUNNING_MODAL.

(** ** A small host, for concrete runs *)

Definition sample_enum_items : list (string * string) :=
  [ ("NONE", "");
    ("LEFTMOUSE", "Left Mouse");
    ("MOUSEMOVE", "Mouse Move");
    ("A", "A");
    ("LEFT_SHIFT", "Left Shift");
    ("RIGHT_SHIFT", "Right Shift");
    ("LEFT_CTRL", "Left Ctrl");
    ("RIGHT_CTRL", "Right Ctrl");
    ("LEFT_ALT", "Left Alt");
    ("RIGHT_ALT", "Right Alt");
    ("OSKEY", "OS Key");
    ("TIMER", "Timer");
    ("WINDOW_DEACTIVATE", "Window Deactivate") ].

(** Every glyph eight units wide, every line sixteen units high. *)
Definition sample_dimensions (text : string) : Q * Q :=
  (inject_Z (8 * Z.of_nat (String.length text)), 16%Q).

Definition sample_host : Host :=
  mkHost sample_enum_items sample_dimensions (fun name => name)
         [ ("VIEW_3D", "SpaceView3D"); ("OUTLINER", "SpaceOutliner") ].

Definition sample_region (ptr : Z) (type : string) (x y w h : Z) : Region :=
  mkRegion ptr type x y w h.

Definition sample_area (ptr : Z) (space : Z) (regions : list Region) : Area :=
  mkArea ptr "VIEW_3D" 0 0 100 100 regions [mkSpace space] (mkSpace space).

Definition sample_prefs (mode : string) (last_operator : bool) : Prefs :=
  mkPrefs 3%Q mode (10, 10) true last_operator.

(** One window (pointer 1) showing one area (pointer 11, space 21) with a
    single 'WINDOW' region (pointer 31). *)
Definition sample_window_region : Region := sample_region 31 "WINDOW" 0 0 100 100.
Definition sample_view : Area := sample_area 11 21 [sample_window_region].
Definition sample_window : Window := mkWindow 1 [sample_view].

Definition sample_context (mode : string) (last_operator : bool) : Context :=
  mkContext [sample_window] [] sample_window [sample_view] sample_view
            sample_window_region (mkSpace 21) false
            (sample_prefs mode last_operator).

Definition press (type : string) (shift ctrl : bool) : Event :=
  mkEvent type "PRESS" shift ctrl false false.

Definition at_time (t : Q) : Clock := mkClock t t t.

(** The final state of a call. *)
Definition exec {A} (m : M A) (s : State) : State := snd (m s).

(** The state after the operator has been switched on in the sample
    context. *)
Definition sample_running (mode : string) (last_operator : bool) : State :=
  exec (invoke sample_host (sample_context mode last_operator)
               (press "LEFTMOUSE" false false)) init_state.

Definition release (type : string) : Event :=
  mkEvent type "RELEASE" false false false false.

(** The same window after the user has closed the area: another area
    (pointer 12, space 22) with another region (pointer 32) fills it. *)
Definition sample_replaced_region : Region := sample_region 32 "WINDOW" 0 0 100 100.
Definition sample_replaced_view : Area := sample_area 12 22 [sample_replaced_region].
Definition sample_replaced_window : Window := mkWindow 1 [sample_replaced_view].

Definition sample_context_replaced (mode : string) (last_operator : bool)
  : Context :=
  mkContext [sample_replaced_window] [] sample_replaced_window
            [sample_replaced_view] sample_replaced_view
            sample_replaced_region (mkSpace 22) false
            (sample_prefs mode last_operator).

(** The state a call leaves behind, and what it returned. *)
Definition run_modal_once (H : Host) (d : Context * Event * Clock) (s : State)
  : State :=
  let '(context, event, clock) := d in exec (modal H context event clock) s.

(** Two ticks of the running operator on a key release (drawn, but not
    recorded): the first with the original area on screen, the second
    after that area and its region have been replaced. *)
Definition sample_tick1 : State :=
  exec (modal sample_host (sample_context "WINDOW" false) (release "A")
              (at_time 1))
       (sample_running "WINDOW" false).


(** ** Reference definitions, written from the specification *)

(** The events the host dispatches: [event.type] is an enum property over
    the very items [EventType] is built from, and an event the host
    cannot identify carries the empty string (the comment in [modal]). *)
Definition dispatched (H : Host) (event : Event) : Prop :=
  event_type event = ""
  \/ In (event_type event) (map fst (event_type_enum_items H)).

(** An entry is still shown at [current_time]. *)
Definition within_display_time (current_time display_time : Q)
           (item : EventEntry) : bool :=
  Qle_bool (current_time - entry_time item)%Q display_time.

(** Two closed boxes overlap when their extents meet on both axes. *)
Definition aabb_overlap (min1 max1 min2 max2 : Q * Q) : bool :=
  Qle_bool (fst min2) (fst max1) && Qle_bool (fst min1) (fst max2)
  && Qle_bool (snd min2) (snd max1) && Qle_bool (snd min1) (snd max2).

(** The region, with inclusive pixel bounds, meets the draw rectangle
    shrunk by one unit on its max corner. *)
Definition region_overlaps_draw_rect (rect : DrawRect) (region : Region)
  : bool :=
  let '(min_x, min_y, max_x, max_y) := rect in
  aabb_overlap
    (inject_Z (region_x region), inject_Z (region_y region))
    (inject_Z (region_x region + region_width region - 1),
     inject_Z (region_y region + region_height region - 1))
    (min_x, min_y)
    ((max_x - 1)%Q, (max_y - 1)%Q).

(** Every (area, region) pair of the screen whose region has a kind and
    overlaps the draw rectangle. *)
Definition redraw_regions_spec (rect : DrawRect) (areas : list Area)
  : list (Area * Region) :=
  flat_map
    (fun area =>
       map (fun region => (area, region))
           (filter (fun region =>
                      negb (String.eqb (region_type region) "")
                      && region_overlaps_draw_rect rect region)
                   (area_regions area)))
    areas.

Definition rect_width (rect : DrawRect) : Q :=
  let '(min_x, _, max_x, _) := rect in (max_x - min_x)%Q.

Definition rect_height (rect : DrawRect) : Q :=
  let '(_, min_y, _, max_y) := rect in (max_y - min_y)%Q.

(** ** Predicates on states, used to follow one handle through a step *)




(** ** Runs of the modal loop *)


(** One dispatch: the context and event the host passes to [modal], and
    the clock readings taken during the call. *)
Definition Dispatch : Type := (Context * Event * Clock)%type.



(** The state after a sequence of dispatches, whatever each call
    returned. *)
Definition run_modal (H : Host) (ds : list Dispatch) (s : State) : State :=
  fold_left (fun s x => run_modal_once H x s) ds s.



(** The state after a shift-A press in the sample context. *)
Definition sample_pressed : State :=
  exec (modal sample_host (sample_context "WINDOW" false)
              (press "A" true false) (at_time 1))
       (sample_running "WINDOW" false).

(** A shift-A press at time [t] in the sample context. *)
Definition sample_press_at (t : Q) : Dispatch :=
  (sample_context "WINDOW" false, press "A" true false, at_time t).

(** ** The registration life cycle, seen through the host log *)

Definition log_calls (calls : list HostCall) (s : State) : State :=
  fold_left (fun s c => host_call c s) calls s.

(** The [event_timer_remove] calls of [event_timer_remove]: one for each
    window of the context that has a timer. *)
Definition timer_removals (context : Context) (s : State) : list HostCall :=
  flat_map
    (fun win =>
       match assoc_ptr (window_ptr win) (timers s) with
       | Some timer => [wm_event_timer_remove timer]
       | None => []
       end)
    (ctx_windows context).

(** The [draw_handler_remove] calls of [draw_handler_remove]: one for
    each registered handler. *)
Definition handler_removals (s : State) : list HostCall :=
  map (fun '((space_type, region_type), handle) =>
         space_draw_handler_remove space_type handle region_type)
      (handlers s).

(** The state a running operator is left in by the toggle. *)
Definition stopped_state (context : Context) (s : State) : State :=
  mkState [] [] [] (prev_time s) [] [] [] (origin s) (area_spaces s) false
          (host_calls s ++ timer_removals context s ++ handler_removals s
           ++ [area_tag_redraw (area_ptr (ctx_area context))])
          (host_next_token s).

(** Since the log was [base], every timer added is in the timer registry,
    for a window among [ptrs], and every draw handler added is in the
    handler registry. *)
Definition registered (base : list HostCall) (ptrs : list Z) (s : State)
  : Prop :=
  exists extra,
    host_calls s = base ++ extra
    /\ (forall w tok, In (wm_event_timer_add w tok) extra ->
                      assoc_ptr w (timers s) = Some tok /\ In w ptrs)
    /\ (forall st rt h, In (space_draw_handler_add st rt h) extra ->
                        In ((st, rt), h) (handlers s)).

Definition running_registered (base : list HostCall) (ptrs : list Z)
           (s : State) : Prop :=
  running s = true /\ registered base ptrs s.

(** A session in the sample context: switched on from the initial
    state, one key release processed (which registers a draw handler),
    switched off. *)
Definition sample_session_run : State :=
  run_modal sample_host
    [(sample_context "WINDOW" false, release "A", at_time 1)]
    (exec (invoke sample_host (sample_context "WINDOW" false)
                  (press "LEFTMOUSE" false false)) init_state).

Definition sample_session_end : State :=
  exec (invoke sample_host (sample_context "WINDOW" false)
               (press "LEFTMOUSE" false false)) sample_session_run.

(** ** Reachable states and the shape of a stored modifier snapshot *)

(** The states the class can be in: the initial class state, any state
    left by a call of [invoke] or [modal], returned or raised, and the
    two other writes to the class state made in the module. *)
Inductive reachable (H : Host) : State -> Prop :=
| reachable_init : reachable H init_state
| reachable_invoke (context : Context) (event : Event) (s : State) :
    reachable H s -> reachable H (exec (invoke H context event) s)
| reachable_modal (context : Context) (event : Event) (clock : Clock)
                  (s : State) :
    reachable H s -> reachable H (exec (modal H context event clock) s)
| reachable_draw_callback (region : Z) (s : State) :
    (* draw_callback: cls.draw_regions_prev.add(region.as_pointer()) *)
    reachable H s ->
    reachable H (set_draw_regions_prev
                   (set_add region (draw_regions_prev s)) s)
| reachable_set_origin (o : Origin) (s : State) :
    (* ScreencastKeysStatusSetOrigin.modal: writes the four origin fields *)
    reachable H s -> reachable H (set_origin o s).

(** Only left-variant shift/ctrl/alt and the OS key, without duplicates
    and without the event's own type. *)
Definition snapshot_ok (event_type : EventType) (mods : list EventType) : Prop :=
  (forall m, In m mods -> In m [LEFT_SHIFT; LEFT_CTRL; LEFT_ALT; OSKEY])
  /\ NoDup mods
  /\ ~ In event_type mods.

Definition history_ok (s : State) : Prop :=
  forall e, In e (event_history s) ->
            snapshot_ok (entry_type e) (entry_mods e).

(** The held modifiers right after [update_hold_modifier_keys]. *)
Definition hold_ok (s : State) : Prop :=
  (forall m, In m (hold_modifier_keys s) ->
             In m [LEFT_SHIFT; LEFT_CTRL; LEFT_ALT; OSKEY])
  /\ NoDup (hold_modifier_keys s).

(** ** Assertions on monadic code

    [hoare P m Q R]: from a state satisfying [P], [m] either returns [a]
    in a state satisfying [Q a] or raises in a state satisfying [R]. *)

Definition hoare {A} (P : State -> Prop) (m : M A)
           (Q : A -> State -> Prop) (R : State -> Prop) : Prop :=
  forall s, P s ->
    match m s with
    | (Ok a, s') => Q a s'
    | (Raise _, s') => R s'
    end.

(** [m] keeps [P], whether it returns or raises. *)
Definition preserves {A} (P : State -> Prop) (m : M A) : Prop :=
  hoare P m (fun _ => P) P.

(** [m] never raises. *)
Definition total {A} (m : M A) : Prop :=
  forall s, exists a, fst (m s) = Ok a.

(** ** [draw_rounded_box]: the number of vertices of a corner circle *)

(** [math.pi], the double nearest to pi. *)
Definition math_pi : float := 0x1.921fb54442d18p+1%float.

(** [float(n)] for a Python [int]: exact below 2^53, which covers every
    value the loop below divides by. *)
Fixpoint float_of_positive (p : positive) : float :=
  match p with
  | xH => 1%float
  | xO p' => (2 * float_of_positive p')%float
  | xI p' => (2 * float_of_positive p' + 1)%float
  end.

Definition float_of_int (n : Z) : float :=
  match n with
  | Z0 => 0%float
  | Zpos p => float_of_positive p
  | Zneg p => (- float_of_positive p)%float
  end.

(** [circle_verts_num]: the [while True] loop, with [fuel] bounding the
    number of rounds; [None] stands for a loop that has not returned
    within [fuel] rounds.  [r * 2 * math.pi / num_verts] is evaluated
    left to right in binary64, the two integers converted to floats. *)
Fixpoint circle_verts_num_loop (fuel : nat) (r : float) (num_verts : Z)
  : option Z :=
  match fuel with
  | O => None
  | S fuel' =>
      let threshold := 2.0%float in
      if PrimFloat.ltb threshold
           (r * float_of_int 2 * math_pi / float_of_int num_verts)%float
      then Some num_verts
      else
        let num_verts := num_verts - 4 in
        if num_verts <? 1 then Some 1
        else circle_verts_num_loop fuel' r num_verts
  end.

Definition circle_verts_num (r : float) : option Z :=
  circle_verts_num_loop 8 r 32.

(** ** [ScreencastKeysStatusSetOrigin]: picking the anchor region *)

(** The operator's own state: the class-level [handles] dict and the
    instance attributes [area_prev] and [region]. *)
Record Picker : Type := mkPicker {
  picker_handles : list ((string * string) * Z);
  picker_area_prev : option Area;
  picker_region : option Region
}.

(** The picker runs beside [ScreencastKeysStatus], whose [origin] it
    writes; host calls go to the same log. *)
Record PickerState : Type := mkPickerState {
  ps_state : State;
  ps_picker : Picker
}.

(** The event of the picker, with the mouse position it reads. *)
Record MouseEvent : Type := mkMouseEvent {
  mouse_event : Event;
  mouse_x : Z;
  mouse_y : Z
}.

(** [current_region]: the first region under the mouse, with its area;
    [None] stands for the pair [(None, None)]. *)
Fixpoint current_region_in_area (x y : Z) (area : Area)
         (regions : list Region) : option (Area * Region) :=
  match regions with
  | [] => None
  | region :: regions' =>
      if (region_x region <=? x) && (x <? region_x region + region_width region)
      then
        if (region_y region <=? y)
           && (y <? region_y region + region_height region)
        then Some (area, region)
        else current_region_in_area x y area regions'
      else current_region_in_area x y area regions'
  end.

Fixpoint current_region_in (x y : Z) (areas : list Area)
  : option (Area * Region) :=
  match areas with
  | [] => None
  | area :: areas' =>
      match current_region_in_area x y area (area_regions area) with
      | Some found => Some found
      | None => current_region_in x y areas'
      end
  end.

Definition current_region (context : Context) (event : MouseEvent)
  : option (Area * Region) :=
  current_region_in (mouse_x event) (mouse_y event) (ctx_screen_areas context).

(** [draw_handler_add] of the picker: the loop over the regions of one
    area, whose space type has been looked up. *)
Fixpoint picker_add_regions (space_type : string) (regions : list Region)
         (ps : PickerState) : PickerState :=
  match regions with
  | [] => ps
  | region :: regions' =>
      if negb (String.eqb (region_type region) "") then
        let key := (space_type, region_type region) in
        match handlers_get key (picker_handles (ps_picker ps)) with
        | Some _ => picker_add_regions space_type regions' ps
        | None =>
            let '(handle, s) :=
              host_call_token
                (space_draw_handler_add space_type (region_type region))
                (ps_state ps) in
            picker_add_regions space_type regions'
              (mkPickerState s
                 (mkPicker (picker_handles (ps_picker ps) ++ [(key, handle)])
                           (picker_area_prev (ps_picker ps))
                           (picker_region (ps_picker ps))))
        end
      else picker_add_regions space_type regions' ps
  end.

Fixpoint picker_add_areas (H : Host) (areas : list Area) (ps : PickerState)
  : result unit * PickerState :=
  match areas with
  | [] => (Ok tt, ps)
  | area :: areas' =>
      match assoc_string (area_type area) (SPACE_TYPES H) with
      | None => (Raise KeyError, ps)
      | Some space_type =>
          picker_add_areas H areas'
            (picker_add_regions space_type (area_regions area) ps)
      end
  end.

Definition picker_draw_handler_add (H : Host) (context : Context)
           (ps : PickerState) : result unit * PickerState :=
  picker_add_areas H (ctx_screen_areas context) ps.

Definition picker_draw_handler_remove (ps : PickerState) : PickerState :=
  let s :=
    fold_left
      (fun s '((space_type, region_type), handle) =>
         host_call (space_draw_handler_remove space_type handle region_type) s)
      (picker_handles (ps_picker ps)) (ps_state ps) in
  mkPickerState s
    (mkPicker [] (picker_area_prev (ps_picker ps))
              (picker_region (ps_picker ps))).

Definition set_origin_window (v : option Z) (s : State) : State :=
  set_origin (mkOrigin v (origin_area (origin s)) (origin_space (origin s))
                       (origin_region_type (origin s))) s.

Definition picker_modal (context : Context) (event : MouseEvent)
           (ps : PickerState) : result OperatorReturn * PickerState :=
  let found := current_region context event in
  let s := ps_state ps in
  let s := match picker_area_prev (ps_picker ps) with
           | Some area_prev => host_call (area_tag_redraw (area_ptr area_prev)) s
           | None => s
           end in
  let s := match found with
           | Some (area, _) => host_call (area_tag_redraw (area_ptr area)) s
           | None => s
           end in
  let picker := mkPicker (picker_handles (ps_picker ps))
                         (picker_area_prev (ps_picker ps))
                         (option_map snd found) in
  let type := event_type (mouse_event event) in
  let continue :=
    (Ok RUNNING_MODAL,
     mkPickerState s (mkPicker (picker_handles picker)
                               (option_map fst found)
                               (picker_region picker))) in
  if str_in type ["LEFTMOUSE"; "SPACE"; "RET"; "NUMPAD_ENTER"] then
    if String.eqb (event_value (mouse_event event)) "PRESS" then
      let s := set_origin_window (Some (window_ptr (ctx_window context))) s in
      match found with
      | None => (Raise AttributeError, mkPickerState s picker)
      | Some (area, region) =>
          let s :=
            set_origin
              (mkOrigin (origin_window (origin s))
                        (Some (area_ptr area))
                        (Some (space_ptr (area_spaces_active area)))
                        (region_type region)) s in
          (Ok FINISHED, picker_draw_handler_remove (mkPickerState s picker))
      end
    else continue
  else if str_in type ["RIGHTMOUSE"; "ESC"] then
    (Ok CANCELLED, picker_draw_handler_remove (mkPickerState s picker))
  else continue.

Definition picker_invoke (H : Host) (context : Context) (ps : PickerState)
  : result OperatorReturn * PickerState :=
  let ps := mkPickerState (ps_state ps)
              (mkPicker (picker_handles (ps_picker ps)) None None) in
  match picker_draw_handler_add H context ps with
  | (Raise e, ps) => (Raise e, ps)
  | (Ok _, ps) =>
      (Ok RUNNING_MODAL,
       mkPickerState (host_call wm_modal_handler_add (ps_state ps))
                     (ps_picker ps))
  end.

(** ** Reference definitions for the further properties *)

(** The point lies in the region's half-open pixel box. *)
Definition region_contains (region : Region) (x y : Z) : Prop :=
  region_x region <= x < region_x region + region_width region
  /\ region_y region <= y < region_y region + region_height region.

(** The separating test of [intersect_aabb] on one axis, read with [0]
    beyond the end of a list. *)
Definition axis_overlap (min1 max1 min2 max2 : list Q) (i : nat) : bool :=
  negb (Qltb (nth i max1 0%Q) (nth i min2 0%Q))
  && negb (Qltb (nth i max2 0%Q) (nth i min1 0%Q)).

(** The [idname_py] recorded for an operator, when its [bl_idname] splits
    in two at '_OT_'. *)
Definition operator_idname_py (op : HostOperator) : option string :=
  match str_split "_OT_" (op_bl_idname op) with
  | [m; f] => Some (str_lower m +++ "." +++ f)
  | _ => None
  end.

(** The history entry recorded for an operator at [current_time]. *)
Definition operator_entry (current_time : Q) (op : HostOperator)
  : OperatorEntry :=
  mkOperatorEntry current_time (op_bl_label op)
                  (match operator_idname_py op with
                   | Some idname_py => idname_py
                   | None => ""
                   end)
                  (op_ptr op).

(** The handle of the last recorded operator, if any. *)
Definition last_operator_addr (s : State) : option Z :=
  match rev (operator_history s) with
  | last :: _ => Some (oentry_addr last)
  | [] => None
  end.

(** The sample context with a list of executed operators. *)
Definition sample_operators : list HostOperator :=
  [ mkHostOperator 41 "MESH_OT_primitive_cube_add" "Add Cube";
    mkHostOperator 42 "OBJECT_OT_delete" "Delete" ].

Definition sample_context_operators (operators : list HostOperator)
  : Context :=
  mkContext [sample_window] operators sample_window [sample_view] sample_view
            sample_window_region (mkSpace 21) false
            (sample_prefs "WINDOW" true).

(** The sample context after the window has been closed and another one
    (pointer 2) shows the same area. *)
Definition sample_other_window : Window := mkWindow 2 [sample_view].

Definition sample_context_other_window (mode : string) (last_operator : bool)
  : Context :=
  mkContext [sample_other_window] [] sample_other_window [sample_view]
            sample_view sample_window_region (mkSpace 21) false
            (sample_prefs mode last_operator).

(** The sample context when a second window (pointer 2) is open beside
    the first. *)
Definition sample_context_two_windows : Context :=
  mkContext [sample_window; sample_other_window] [] sample_window
            [sample_view] sample_view sample_window_region (mkSpace 21) false
            (sample_prefs "WINDOW" false).

(** The test of [circle_verts_num] for a candidate number of vertices:
    one segment of the circle is longer than the threshold. *)
Definition segment_exceeds_threshold (r : float) (num_verts : Z) : bool :=
  PrimFloat.ltb 2.0%float
    (r * float_of_int 2 * math_pi / float_of_int num_verts)%float.

(** The pointers of the spaces recorded for an area. *)
Definition recorded_spaces (area_p : Z) (s : State) : list Z :=
  match assoc_ptr area_p (area_spaces s) with
  | Some spaces => spaces
  | None => []
  end.

(** The sample picker: nothing registered yet, over the running sample
    operator. *)
Definition sample_picker_state : PickerState :=
  mkPickerState (sample_running "WINDOW" false) (mkPicker [] None None).

Definition click (type : string) (x y : Z) : MouseEvent :=
  mkMouseEvent (press type false false) x y.

(** * Properties *)

(** ** Lists, sorting and comparisons *)

Lemma str_in_In (x : string) (l : list string) :
  str_in x l = true <-> In x l.
Proof.
  unfold str_in. rewrite existsb_exists. split.
  - intros [y [Hy Heq]]. apply String.eqb_eq in Heq. now subst.
  - intros Hx. exists x. split; [assumption | apply String.eqb_refl].
Qed.

Lemma str_in_false (x : string) (l : list string) :
  str_in x l = false <-> ~ In x l.
Proof.
  rewrite <- str_in_In. destruct (str_in x l); split; congruence.
Qed.

Lemma ptr_in_In (p : Z) (l : list Z) : ptr_in p l = true <-> In p l.
Proof.
  unfold ptr_in. rewrite existsb_exists. split.
  - intros [q [Hq Heq]]. apply Z.eqb_eq in Heq. now subst.
  - intros Hp. exists p. split; [assumption | apply Z.eqb_refl].
Qed.

Lemma str_list_eqb_eq (a b : list string) :
  str_list_eqb a b = true <-> a = b.
Proof.
  revert b. induction a as [|x a IH]; intros [|y b]; simpl;
    try (split; [discriminate | congruence]); try tauto.
  rewrite andb_true_iff, String.eqb_eq, IH. split.
  - intros [-> ->]. reflexivity.
  - intros E. injection E as -> ->. auto.
Qed.


Lemma insert_by_key_In {A} (key : A -> nat) (x y : A) (l : list A) :
  In y (insert_by_key key x l) <-> y = x \/ In y l.
Proof.
  induction l as [|z l IH]; simpl.
  - intuition.
  - destruct (key x <=? key z)%nat; simpl; [intuition|].
    rewrite IH. intuition.
Qed.

Lemma sorted_In {A} (key : A -> nat) (y : A) (l : list A) :
  In y (sorted key l) <-> In y l.
Proof.
  induction l as [|x l IH]; simpl; [tauto|].
  rewrite insert_by_key_In, IH. intuition.
Qed.


(** ** Reasoning in the monad *)

Lemma hoare_get (P : State -> Prop) (R : State -> Prop) :
  hoare P get (fun a s => a = s /\ P s) R.
Proof. intros s Hs. simpl. auto. Qed.

Lemma hoare_bind {A B} (P : State -> Prop) (m : M A) (k : A -> M B)
      (Q : A -> State -> Prop) (Q' : B -> State -> Prop) (R : State -> Prop) :
  hoare P m Q R ->
  (forall a, hoare (Q a) (k a) Q' R) ->
  hoare P (bind m k) Q' R.
Proof.
  intros Hm Hk s Hs. unfold bind. specialize (Hm s Hs).
  destruct (m s) as [[a|e] s']; [exact (Hk a s' Hm) | exact Hm].
Qed.

Lemma hoare_weaken {A} (P P' : State -> Prop) (m : M A)
      (Q Q' : A -> State -> Prop) (R R' : State -> Prop) :
  hoare P m Q R ->
  (forall s, P' s -> P s) ->
  (forall a s, Q a s -> Q' a s) ->
  (forall s, R s -> R' s) ->
  hoare P' m Q' R'.
Proof.
  intros Hm HP HQ HR s Hs. specialize (Hm s (HP s Hs)).
  destruct (m s) as [[a|e] s']; auto.
Qed.

Lemma hoare_for_each {A} (I R : State -> Prop) (l : list A)
      (body : A -> M unit) :
  (forall x, In x l -> hoare I (body x) (fun _ => I) R) ->
  hoare I (for_each l body) (fun _ => I) R.
Proof.
  induction l as [|x l IH]; intros Hbody.
  - intros s Hs. simpl. exact Hs.
  - cbn [for_each]. eapply hoare_bind.
    + apply Hbody. now left.
    + intros u. apply IH. intros y Hy. apply Hbody. now right.
Qed.


Lemma preserves_exec {A} (P : State -> Prop) (m : M A) (s : State) :
  preserves P m -> P s -> P (exec m s).
Proof.
  intros Hm Hs. specialize (Hm s Hs). unfold exec.
  destruct (m s) as [[a|e] s']; exact Hm.
Qed.

Lemma preserves_ret {A} (P : State -> Prop) (a : A) : preserves P (ret a).
Proof. intros s Hs. exact Hs. Qed.

Lemma preserves_get (P : State -> Prop) : preserves P get.
Proof. intros s Hs. exact Hs. Qed.

Lemma preserves_lift {A} (P : State -> Prop) (r : result A) :
  preserves P (lift r).
Proof. intros s Hs. unfold lift. destruct r; exact Hs. Qed.

Lemma preserves_modify (P : State -> Prop) (f : State -> State) :
  (forall s, P s -> P (f s)) -> preserves P (modify f).
Proof. intros Hf s Hs. simpl. auto. Qed.

Lemma preserves_bind {A B} (P : State -> Prop) (m : M A) (k : A -> M B) :
  preserves P m -> (forall a, preserves P (k a)) -> preserves P (bind m k).
Proof. intros Hm Hk. eapply hoare_bind; [exact Hm | exact Hk]. Qed.

Lemma preserves_for_each {A} (P : State -> Prop) (l : list A)
      (body : A -> M unit) :
  (forall x, preserves P (body x)) -> preserves P (for_each l body).
Proof. intros Hb. apply hoare_for_each. intros x _. apply Hb. Qed.

Lemma preserves_read {A} (P : State -> Prop) (f : State -> result A) :
  preserves P (fun s => (f s, s)).
Proof. intros s Hs. destruct (f s); exact Hs. Qed.

Lemma total_ret {A} (a : A) : total (ret a).
Proof. intros s. now exists a. Qed.

Lemma total_get : total get.
Proof. intros s. now exists s. Qed.

Lemma total_bind {A B} (m : M A) (k : A -> M B) :
  total m -> (forall a, total (k a)) -> total (bind m k).
Proof.
  intros Hm Hk s. unfold bind. destruct (Hm s) as [a Ha].
  destruct (m s) as [[a'|e] s']; simpl in Ha; [|discriminate].
  apply Hk.
Qed.

Lemma total_for_each {A} (l : list A) (body : A -> M unit) :
  (forall x, total (body x)) -> total (for_each l body).
Proof.
  intros Hb. induction l as [|x l IH]; cbn [for_each].
  - apply total_ret.
  - apply total_bind; auto.
Qed.

(** ** Which fields a stage touches

    Each stage of [modal] and [invoke] keeps every predicate that is
    insensitive to the setters the stage uses. *)

Lemma bind_get {B} (k : State -> M B) (s : State) : bind get k s = k s s.
Proof. reflexivity. Qed.

Lemma bind_modify {B} (f : State -> State) (k : unit -> M B) (s : State) :
  bind (modify f) k s = k tt (f s).
Proof. reflexivity. Qed.

Lemma bind_lift_ok {A B} (a : A) (k : A -> M B) (s : State) :
  bind (lift (Ok a)) k s = k a s.
Proof. reflexivity. Qed.

Lemma bind_ok {A B} (m : M A) (k : A -> M B) (s s' : State) (a : A) :
  m s = (Ok a, s') -> bind m k s = k a s'.
Proof. intros Hm. unfold bind. now rewrite Hm. Qed.

Lemma update_area_spaces_keeps (P : State -> Prop) (context : Context) :
  (forall v s, P s -> P (set_area_spaces v s)) ->
  forall s, P s -> P (update_area_spaces context s).
Proof.
  intros Hset. unfold update_area_spaces.
  induction (ctx_screen_areas context) as [|area areas IH]; intros s Hs.
  - exact Hs.
  - cbn [fold_left]. apply IH.
    clear IH. revert s Hs.
    induction (area_spaces_list area) as [|space spaces IH']; intros s Hs.
    + exact Hs.
    + cbn [fold_left]. apply IH'. now apply Hset.
Qed.

Lemma update_hold_modifier_keys_keeps (P : State -> Prop) (H : Host)
      (event : Event) :
  (forall v s, P s -> P (set_hold_modifier_keys v s)) ->
  preserves P (update_hold_modifier_keys H event).
Proof.
  intros Hset. unfold update_hold_modifier_keys.
  apply preserves_bind; [apply preserves_modify; intros; now apply Hset|].
  intros _.
  apply preserves_bind; [apply preserves_lift|]. intros t.
  apply preserves_modify. intros s Hs. now apply Hset.
Qed.

Lemma update_operator_history_keeps (P : State -> Prop) (context : Context)
      (t : Q) :
  (forall v s, P s -> P (set_operator_history v s)) ->
  preserves P (update_operator_history context t).
Proof.
  intros Hset. unfold update_operator_history.
  apply preserves_bind.
  - destruct (ctx_operators context) as [|op ops]; [apply preserves_ret|].
    apply preserves_bind; [apply preserves_get|]. intros s0.
    apply preserves_for_each. intros op'. unfold append_operator.
    destruct (str_split "_OT_" (op_bl_idname op')) as [|m [|f [|g l]]];
      try apply preserves_lift.
    apply preserves_modify. intros s Hs. now apply Hset.
  - intros _. apply preserves_modify. intros s Hs. now apply Hset.
Qed.

Lemma redraw_previous_keeps (P : State -> Prop) (context : Context) :
  (forall p s, P s -> P (host_call (region_tag_redraw p) s)) ->
  (forall v s, P s -> P (set_draw_regions_prev v s)) ->
  preserves P (redraw_previous context).
Proof.
  intros Hcall Hset. unfold redraw_previous.
  apply preserves_for_each. intros area.
  apply preserves_for_each. intros region. unfold redraw_previous_region.
  apply preserves_bind; [apply preserves_get|]. intros s0.
  destruct (ptr_in _ _); [|apply preserves_ret].
  apply preserves_bind; [apply preserves_modify; intros; now apply Hcall|].
  intros _. apply preserves_modify. intros; now apply Hset.
Qed.

(** The state after [draw_handler_add] has been called for a new key and
    its handle stored. *)
Lemma redraw_current_keeps (P : State -> Prop) (H : Host)
      (regions : list (Area * Region)) :
  (forall p s, P s -> P (host_call (region_tag_redraw p) s)) ->
  (forall st rt s,
      P s -> handlers_get (st, rt) (handlers s) = None ->
      P (set_handlers (handlers s ++ [((st, rt), host_next_token s)])
           (snd (host_call_token (space_draw_handler_add st rt) s)))) ->
  (forall v s, P s -> P (set_draw_regions_prev v s)) ->
  preserves P (redraw_current H regions).
Proof.
  intros Hcall Hadd Hset. unfold redraw_current.
  apply preserves_for_each. intros [area region].
  apply preserves_bind; [apply preserves_lift|]. intros space_type.
  unfold preserves. eapply hoare_bind; [apply hoare_get|]. intros s0.
  apply hoare_bind with (Q := fun _ => P).
  - destruct (handlers_get _ _) eqn:Eh.
    + intros s [_ Hs]. exact Hs.
    + intros s [-> Hs]. cbn. exact (Hadd _ _ s Hs Eh).
  - intros _.
    apply preserves_bind; [apply preserves_modify; intros; now apply Hcall|].
    intros _. apply preserves_modify. intros; now apply Hset.
Qed.

Lemma redraw_keeps (P : State -> Prop) (H : Host) (context : Context)
      (event : Event) (clock : Clock) :
  (forall p s, P s -> P (host_call (region_tag_redraw p) s)) ->
  (forall st rt s,
      P s -> handlers_get (st, rt) (handlers s) = None ->
      P (set_handlers (handlers s ++ [((st, rt), host_next_token s)])
           (snd (host_call_token (space_draw_handler_add st rt) s)))) ->
  (forall v s, P s -> P (set_draw_regions_prev v s)) ->
  (forall v s, P s -> P (set_prev_time v s)) ->
  preserves P (redraw H context event clock).
Proof.
  intros Hcall Hadd Hset Hprev. unfold redraw.
  apply preserves_bind; [apply preserves_get|]. intros s0.
  apply preserves_bind; [apply preserves_lift|]. intros ignore.
  apply preserves_bind.
  - destruct (negb ignore); [apply preserves_ret|].
    destruct (negb (Qeq_bool (prev_time s0) 0)); [|apply preserves_ret].
    apply preserves_bind; [apply preserves_lift|]. intros step.
    apply preserves_ret.
  - intros [|]; [|apply preserves_ret].
    apply preserves_bind; [apply preserves_read|]. intros regions.
    unfold redraw_step.
    apply preserves_bind; [now apply redraw_previous_keeps|]. intros _.
    apply preserves_bind; [now apply redraw_current_keeps|]. intros _.
    apply preserves_modify. intros; now apply Hprev.
Qed.

(** A predicate that does not look at the host log, the handler
    registry, the tracked regions or the redraw time is kept by
    [redraw]. *)
Lemma redraw_keeps_others (P : State -> Prop) (H : Host) (context : Context)
      (event : Event) (clock : Clock) :
  (forall c s, P s -> P (host_call c s)) ->
  (forall c s, P s -> P (snd (host_call_token c s))) ->
  (forall v s, P s -> P (set_handlers v s)) ->
  (forall v s, P s -> P (set_draw_regions_prev v s)) ->
  (forall v s, P s -> P (set_prev_time v s)) ->
  preserves P (redraw H context event clock).
Proof.
  intros Hcall Htok Hh Hset Hprev. apply redraw_keeps; auto.
Qed.

Lemma event_timer_add_keeps (P : State -> Prop) (context : Context) :
  (forall c s, P s -> P (snd (host_call_token c s))) ->
  (forall v s, P s -> P (set_timers v s)) ->
  preserves P (event_timer_add context).
Proof.
  intros Htok Hset. unfold event_timer_add.
  apply preserves_for_each. intros win.
  apply preserves_bind; [apply preserves_get|]. intros s0.
  destruct (negb _); [|apply preserves_ret].
  intros s Hs. cbn. apply Hset. exact (Htok _ s Hs).
Qed.

Lemma event_timer_remove_keeps (P : State -> Prop) (context : Context) :
  (forall c s, P s -> P (host_call c s)) ->
  (forall v s, P s -> P (set_timers v s)) ->
  preserves P (event_timer_remove context).
Proof.
  intros Hcall Hset. unfold event_timer_remove.
  apply preserves_bind.
  - apply preserves_for_each. intros win.
    apply preserves_bind; [apply preserves_get|]. intros s0.
    destruct (assoc_ptr _ _); [|apply preserves_ret].
    apply preserves_modify. intros; now apply Hcall.
  - intros _. apply preserves_modify. intros; now apply Hset.
Qed.

Lemma draw_handler_remove_keeps (P : State -> Prop) :
  (forall c s, P s -> P (host_call c s)) ->
  (forall v s, P s -> P (set_handlers v s)) ->
  preserves P draw_handler_remove.
Proof.
  intros Hcall Hset. unfold draw_handler_remove.
  apply preserves_bind; [apply preserves_get|]. intros s0.
  apply preserves_bind.
  - apply preserves_for_each. intros [[space_type region_type] handle].
    apply preserves_modify. intros; now apply Hcall.
  - intros _. apply preserves_modify. intros; now apply Hset.
Qed.

(** ** Modifier names *)

Lemma sorted_modifier_keys_loop_assert (H : Host) (modifiers : list EventType) :
  (exists m, In m modifiers /\ ~ In m MODIFIER_EVENT_TYPES) ->
  forall names, sorted_modifier_keys_loop H modifiers names = Raise AssertionError.
Proof.
  induction modifiers as [|m0 modifiers IH]; intros [m [Hin Hnot]] names.
  - destruct Hin.
  - cbn [sorted_modifier_keys_loop].
    destruct (str_in m0 MODIFIER_EVENT_TYPES) eqn:E; cbn [negb].
    + assert (Hrest : exists m, In m modifiers /\ ~ In m MODIFIER_EVENT_TYPES).
      { destruct Hin as [-> | Hin].
        - apply str_in_In in E. contradiction.
        - exists m. auto. }
      destruct (str_in _ names); cbn [negb]; apply IH; exact Hrest.
    + reflexivity.
Qed.

Lemma sorted_modifier_keys_loop_ok (H : Host) (modifiers : list EventType) :
  (forall m, In m modifiers -> In m MODIFIER_EVENT_TYPES) ->
  forall names,
  exists names',
    sorted_modifier_keys_loop H modifiers names = Ok names'
    /\ (NoDup names -> NoDup names')
    /\ (forall n, In n names' <->
                  In n names
                  \/ exists m, In m modifiers
                               /\ n = re_sub_left_right (EventType_names H m)).
Proof.
  induction modifiers as [|m0 modifiers IH]; intros Hall names.
  - exists names. simpl. repeat split; auto.
    + intros [Hn | [m [[] _]]]. exact Hn.
  - cbn [sorted_modifier_keys_loop].
    assert (E : str_in m0 MODIFIER_EVENT_TYPES = true).
    { apply str_in_In. apply Hall. now left. }
    rewrite E. cbn [negb].
    assert (Hall' : forall m, In m modifiers -> In m MODIFIER_EVENT_TYPES).
    { intros m Hm. apply Hall. now right. }
    set (name := re_sub_left_right (EventType_names H m0)).
    destruct (str_in name names) eqn:Ein; cbn [negb].
    + destruct (IH Hall' names) as [names' [Heq [Hnd Hmem]]].
      exists names'. split; [exact Heq | split; [exact Hnd|]].
      intros n. rewrite Hmem. split.
      * intros [Hn | [m [Hm ->]]]; [now left | right; exists m; simpl; auto].
      * intros [Hn | [m [[<- | Hm] ->]]].
        -- now left.
        -- left. now apply str_in_In.
        -- right. exists m. simpl; auto.
    + destruct (IH Hall' (names ++ [name])) as [names' [Heq [Hnd Hmem]]].
      exists names'. split; [exact Heq | split].
      * intros Hn. apply Hnd. apply NoDup_app; auto.
        -- repeat constructor. intros [].
        -- intros x Hx [<- | []]. apply str_in_false in Ein. contradiction.
      * intros n. rewrite Hmem, in_app_iff. simpl. split.
        -- intros [[Hn | [<- | []]] | [m [Hm ->]]].
           ++ now left.
           ++ right. exists m0. simpl; auto.
           ++ right. exists m. simpl; auto.
        -- intros [Hn | [m [[<- | Hm] ->]]].
           ++ left. now left.
           ++ left. right. now left.
           ++ right. exists m. simpl; auto.
Qed.

(** The three modifiers of the specification's example, in any order,
    give "Shift" then "Ctrl". *)
Example sorted_modifier_keys_shift_ctrl :
  sorted_modifier_keys sample_host [RIGHT_CTRL; LEFT_SHIFT; RIGHT_SHIFT]
  = Ok ["Shift"; "Ctrl"].
Proof. reflexivity. Qed.

(** C9 (as the code has it).  When the input holds an event type outside
    [MODIFIER_EVENT_TYPES], [sorted_modifier_keys] fails its assertion;
    when every input is a modifier type it returns a duplicate-free list
    made of exactly the display names of the inputs with the left/right
    qualifier stripped. *)
Theorem sorted_modifier_keys_asserts (H : Host) (modifiers : list EventType) :
  ((exists m, In m modifiers /\ ~ In m MODIFIER_EVENT_TYPES) ->
   sorted_modifier_keys H modifiers = Raise AssertionError)
  /\ ((forall m, In m modifiers -> In m MODIFIER_EVENT_TYPES) ->
      exists names,
        sorted_modifier_keys H modifiers = Ok names
        /\ NoDup names
        /\ forall n, In n names <->
                     exists m, In m modifiers
                               /\ n = re_sub_left_right (EventType_names H m)).
Proof.
  unfold sorted_modifier_keys. split.
  - intros [m [Hin Hnot]]. apply sorted_modifier_keys_loop_assert.
    exists m. split; [now apply sorted_In | exact Hnot].
  - intros Hall.
    destruct (sorted_modifier_keys_loop_ok H (sorted key_fn modifiers))
      with (names := @nil string) as [names [Heq [Hnd Hmem]]].
    + intros m Hm. apply Hall. now apply sorted_In in Hm.
    + exists names. split; [exact Heq | split; [apply Hnd; constructor|]].
      intros n. rewrite Hmem. split.
      * intros [[] | [m [Hm ->]]]. exists m. split; [now apply sorted_In in Hm | auto].
      * intros [m [Hm ->]]. right. exists m. split; [now apply sorted_In | auto].
Qed.

(** C9, refuted as stated: with one non-modifier type in the input the
    call does not return, it raises [AssertionError]. *)
Lemma sorted_modifier_keys_unknown_raises :
  In "A" [LEFT_SHIFT; "A"; RIGHT_CTRL]
  /\ ~ In "A" MODIFIER_EVENT_TYPES
  /\ sorted_modifier_keys sample_host [LEFT_SHIFT; "A"; RIGHT_CTRL]
     = Raise AssertionError.
Proof.
  split; [simpl; auto | split; [|reflexivity]].
  intros Hin. apply str_in_In in Hin. discriminate.
Qed.

Lemma sorted_modifier_keys_asserts_witness :
  sorted_modifier_keys sample_host [LEFT_SHIFT; "A"; RIGHT_CTRL]
  = Raise AssertionError
  /\ exists names,
       sorted_modifier_keys sample_host [RIGHT_CTRL; LEFT_SHIFT; RIGHT_SHIFT]
       = Ok names
       /\ NoDup names
       /\ forall n, In n names <->
                    exists m, In m [RIGHT_CTRL; LEFT_SHIFT; RIGHT_SHIFT]
                              /\ n = re_sub_left_right
                                       (EventType_names sample_host m).
Proof.
  split.
  - apply (proj1 (sorted_modifier_keys_asserts sample_host
                    [LEFT_SHIFT; "A"; RIGHT_CTRL])).
    exists "A". split; [simpl; auto|].
    intros Hin. apply str_in_In in Hin. discriminate.
  - apply (proj2 (sorted_modifier_keys_asserts sample_host
                    [RIGHT_CTRL; LEFT_SHIFT; RIGHT_SHIFT])).
    intros m Hm. apply str_in_In.
    destruct Hm as [<- | [<- | [<- | []]]]; reflexivity.
Defined.

(** ** The event history window *)

Lemma removed_old_event_history_loop_filter
      (t d : Q) (items acc : list EventEntry) :
  removed_old_event_history_loop t d items acc
  = acc ++ filter (within_display_time t d) items.
Proof.
  revert acc. induction items as [|item items IH]; intros acc; simpl.
  - now rewrite app_nil_r.
  - unfold within_display_time at 1.
    destruct (Qle_bool (t - entry_time item) d).
    + rewrite IH, <- app_assoc. reflexivity.
    + apply IH.
Qed.

Lemma removed_old_event_history_filter (prefs : Prefs) (t : Q) (s : State) :
  removed_old_event_history prefs t s
  = filter (within_display_time t (display_time prefs)) (event_history s).
Proof.
  unfold removed_old_event_history.
  now rewrite removed_old_event_history_loop_filter.
Qed.

Lemma filter_idem {A} (f : A -> bool) (l : list A) :
  filter f (filter f l) = filter f l.
Proof.
  induction l as [|x l IH]; simpl; [reflexivity|].
  destruct (f x) eqn:E; simpl; [rewrite E, IH|]; auto.
Qed.

(** C5.  Pruning the event history at time [t] with display duration [d]
    keeps an entry exactly when [t - timestamp > d] does not hold, so it
    removes exactly the entries with [t - timestamp > d]; the survivors
    stay in their order (the result is the history filtered in place);
    and pruning the pruned history again at the same [t] changes nothing. *)
Theorem removed_old_event_history_exact (prefs : Prefs) (t : Q) (s : State) :
  let d := display_time prefs in
  let pruned := removed_old_event_history prefs t s in
  (forall item, In item pruned <->
                In item (event_history s) /\ ~ (d < t - entry_time item)%Q)
  /\ pruned = filter (fun item => negb (Qltb d (t - entry_time item)%Q))
                     (event_history s)
  /\ removed_old_event_history prefs t (set_event_history pruned s) = pruned.
Proof.
  intros d pruned. subst pruned d.
  rewrite !removed_old_event_history_filter. simpl.
  assert (Hext : forall l,
             filter (within_display_time t (display_time prefs)) l
             = filter (fun item =>
                         negb (Qltb (display_time prefs) (t - entry_time item)%Q)) l).
  { intros l. apply filter_ext. intros item.
    unfold within_display_time, Qltb. now rewrite negb_involutive. }
  split; [|split].
  - intros item. rewrite filter_In. unfold within_display_time.
    rewrite Qle_bool_iff. split; intros [Hin Hk]; split; auto.
    + intros Hlt. exact (Qlt_not_le _ _ Hlt Hk).
    + apply Qnot_lt_le. exact Hk.
  - apply Hext.
  - apply filter_idem.
Qed.

(** ** The origin resolver *)

Lemma is_area_match_falls_through (s : State) (area : Area) :
  ptr_eq_opt (area_ptr area) (origin_area (origin s)) = false ->
  ptr_eq_opt (space_ptr (area_spaces_active area)) (origin_space (origin s))
  = false ->
  key_in (area_ptr area) (area_spaces s) = true ->
  is_area_match s area = Raise AttributeError.
Proof.
  intros Ha Hs Hk. unfold is_area_match. rewrite Ha, Hs, Hk. reflexivity.
Qed.

(** C3 (what the code does).  In Area and Region modes, when the first
    area scanned matches neither the stored area handle nor the stored
    space handle and has been observed by the modal loop, the resolver
    does not return "no target": the fall-through reads [.spaces] off the
    integer [area_p] and raises [AttributeError]. *)
Theorem get_origin_stale_handle_raises
        (s : State) (context : Context) (window : Window)
        (area : Area) (areas : list Area) :
  find_window s (ctx_windows context) = Some window ->
  prefs_origin (ctx_prefs context) = "AREA"
  \/ prefs_origin (ctx_prefs context) = "REGION" ->
  window_screen_areas window = area :: areas ->
  ptr_eq_opt (area_ptr area) (origin_area (origin s)) = false ->
  ptr_eq_opt (space_ptr (area_spaces_active area)) (origin_space (origin s))
  = false ->
  key_in (area_ptr area) (area_spaces s) = true ->
  get_origin s context = Raise AttributeError.
Proof.
  intros Hw Hmode Hareas Ha Hs Hk. unfold get_origin.
  destruct (prefs_offset (ctx_prefs context)) as [x y]. rewrite Hw, Hareas.
  pose proof (is_area_match_falls_through s area Ha Hs Hk) as Hm.
  destruct Hmode as [-> | ->]; cbn [String.eqb Ascii.eqb Bool.eqb andb];
    cbn [get_origin_area get_origin_region]; rewrite Hm; reflexivity.
Qed.

Lemma get_origin_stale_handle_raises_witness :
  get_origin (exec (modify (update_area_spaces
                              (sample_context_replaced "AREA" false)))
                   (sample_running "AREA" false))
             (sample_context_replaced "AREA" false)
  = Raise AttributeError.
Proof.
  apply (get_origin_stale_handle_raises _ _ sample_replaced_window
           sample_replaced_view []).
  - reflexivity.
  - left. reflexivity.
  - reflexivity.
  - reflexivity.
  - reflexivity.
  - reflexivity.
Defined.

(** The same through the modal loop: the area the anchor was taken from
    has been closed, and the next key event makes [modal] raise. *)
Example modal_after_area_closed :
  fst (modal sample_host (sample_context_replaced "AREA" false)
             (release "A") (at_time 1) (sample_running "AREA" false))
  = Raise AttributeError.
Proof. vm_compute. reflexivity. Qed.

(** ** The draw-area calculator *)

Lemma separator_height_undefined :
  cls_getattr "SEPARATOR_HEIGHT" = Raise AttributeError.
Proof. reflexivity. Qed.

Lemma sorted_modifier_keys_loop_exn (H : Host) (modifiers : list EventType) :
  forall names e,
    sorted_modifier_keys_loop H modifiers names = Raise e -> e = AssertionError.
Proof.
  induction modifiers as [|m modifiers IH]; intros names e; cbn [sorted_modifier_keys_loop].
  - discriminate.
  - destruct (str_in m MODIFIER_EVENT_TYPES); cbn [negb].
    + destruct (str_in _ names); cbn [negb]; apply IH.
    + congruence.
Qed.

(** The text of a history line: repeat count, and modifiers before the
    key. *)
Example event_text_repeat :
  event_text sample_host (mkEventEntry 0 "LEFTMOUSE" [] 3)
  = Ok "Left Mouse x3".
Proof. reflexivity. Qed.

Example event_text_modifiers :
  event_text sample_host (mkEventEntry 0 "A" [LEFT_SHIFT; LEFT_CTRL] 1)
  = Ok "Shift + Ctrl + A".
Proof. reflexivity. Qed.

(** C1 (what the code does).  Once an origin window resolves,
    [calc_draw_area_rect] raises in each of the three situations the
    claim singles out: the separator height is read from the class
    attribute [SEPARATOR_HEIGHT], which the class does not define (it
    defines [HEIGHT_RATIO_FOR_SEPARATOR]). *)
Theorem calc_draw_area_rect_raises
        (H : Host) (s : State) (context : Context) (t : Q)
        (window : Window) (area : option Area) (region : option Region)
        (x y : Z) :
  get_origin s context = Ok (Some window, area, region, x, y) ->
  show_last_operator (ctx_prefs context) = true
  \/ hold_modifier_keys s <> []
  \/ removed_old_event_history (ctx_prefs context) t s <> [] ->
  calc_draw_area_rect H s context t = Raise AttributeError
  \/ calc_draw_area_rect H s context t = Raise AssertionError.
Proof.
  intros Ho Hcase. unfold calc_draw_area_rect. rewrite Ho. cbn [rbind].
  rewrite separator_height_undefined.
  destruct (show_last_operator (ctx_prefs context)); cbn [rbind].
  - now left.
  - destruct (hold_modifier_keys s) as [|k ks] eqn:Eh.
    + cbn [rbind].
      destruct (removed_old_event_history (ctx_prefs context) t s) eqn:Ee.
      * destruct Hcase as [Hc | [Hc | Hc]]; [discriminate | |]; now elim Hc.
      * now left.
    + destruct (sorted_modifier_keys H (k :: ks)) as [names|e] eqn:Es;
        cbn [rbind].
      * now left.
      * apply sorted_modifier_keys_loop_exn in Es. subst e. now right.
Qed.

Lemma calc_draw_area_rect_raises_witness :
  calc_draw_area_rect sample_host (sample_running "WINDOW" true)
                      (sample_context "WINDOW" true) 0
  = Raise AttributeError
  \/ calc_draw_area_rect sample_host (sample_running "WINDOW" true)
                         (sample_context "WINDOW" true) 0
     = Raise AssertionError.
Proof.
  apply (calc_draw_area_rect_raises sample_host (sample_running "WINDOW" true)
           (sample_context "WINDOW" true) 0 sample_window None None 10 10).
  - vm_compute. reflexivity.
  - left. reflexivity.
Defined.

(** The same at the failing input: show-last-command on, window anchor. *)
Example calc_draw_area_rect_show_last_operator :
  calc_draw_area_rect sample_host (sample_running "WINDOW" true)
                      (sample_context "WINDOW" true) 0
  = Raise AttributeError.
Proof. vm_compute. reflexivity. Qed.

(** ** Redraw regions *)

Lemma intersect_aabb_2d (a0 a1 b0 b1 c0 c1 d0 d1 : Q) :
  intersect_aabb [a0; a1] [b0; b1] [c0; c1] [d0; d1]
  = Ok (aabb_overlap (a0, a1) (b0, b1) (c0, c1) (d0, d1)).
Proof.
  unfold intersect_aabb, aabb_overlap. simpl. unfold Qltb.
  destruct (Qle_bool c0 b0); simpl; [|reflexivity].
  destruct (Qle_bool a0 d0); simpl; [|reflexivity].
  destruct (Qle_bool c1 b1); simpl; [|reflexivity].
  destruct (Qle_bool a1 d1); reflexivity.
Qed.

Lemma find_redraw_regions_in_area_spec
      (rect : DrawRect) (area : Area) (rs : list Region)
      (acc : list (Area * Region)) :
  let '(min_x, min_y, max_x, max_y) := rect in
  find_redraw_regions_in_area [min_x; min_y] [(max_x - 1)%Q; (max_y - 1)%Q]
                              area rs acc
  = Ok (acc ++ map (fun region => (area, region))
                   (filter (fun region =>
                              negb (String.eqb (region_type region) "")
                              && region_overlaps_draw_rect rect region) rs)).
Proof.
  destruct rect as [[[min_x min_y] max_x] max_y].
  revert acc. induction rs as [|region rs IH]; intros acc.
  - simpl. now rewrite app_nil_r.
  - cbn [find_redraw_regions_in_area filter].
    destruct (String.eqb (region_type region) "") eqn:Et; cbn [negb andb].
    + apply IH.
    + rewrite intersect_aabb_2d. cbn [rbind].
      unfold region_overlaps_draw_rect at 1.
      destruct (aabb_overlap _ _ _ _).
      * rewrite IH. cbn [map]. now rewrite <- app_assoc.
      * apply IH.
Qed.

Lemma find_redraw_regions_in_spec
      (rect : DrawRect) (areas : list Area) (acc : list (Area * Region)) :
  let '(min_x, min_y, max_x, max_y) := rect in
  find_redraw_regions_in [min_x; min_y] [(max_x - 1)%Q; (max_y - 1)%Q]
                         areas acc
  = Ok (acc ++ redraw_regions_spec rect areas).
Proof.
  destruct rect as [[[min_x min_y] max_x] max_y].
  revert acc. induction areas as [|area areas IH]; intros acc.
  - simpl. now rewrite app_nil_r.
  - cbn [find_redraw_regions_in].
    pose proof (find_redraw_regions_in_area_spec
                  (min_x, min_y, max_x, max_y) area (area_regions area) acc)
      as Harea.
    cbv beta iota in Harea. rewrite Harea. cbn [rbind].
    rewrite IH. cbn [redraw_regions_spec flat_map].
    now rewrite <- app_assoc.
Qed.

Lemma zero_size_test (w h : Q) :
  Qeq_bool w h && Qeq_bool h 0 = true <-> (w == 0 /\ h == 0)%Q.
Proof.
  rewrite andb_true_iff, !Qeq_bool_iff. split.
  - intros [Hwh Hh]. split; [now rewrite Hwh | exact Hh].
  - intros [Hw Hh]. split; [now rewrite Hw, Hh | exact Hh].
Qed.

Lemma find_redraw_regions_of_cases (rect : option DrawRect) (areas : list Area) :
  match rect with
  | None => find_redraw_regions_of rect areas = Ok []
  | Some r =>
      ((rect_width r == 0 /\ rect_height r == 0)%Q ->
       find_redraw_regions_of rect areas = Ok [])
      /\ (~ (rect_width r == 0 /\ rect_height r == 0)%Q ->
          find_redraw_regions_of rect areas = Ok (redraw_regions_spec r areas))
  end.
Proof.
  destruct rect as [[[[min_x min_y] max_x] max_y]|]; [|reflexivity].
  unfold find_redraw_regions_of, rect_width, rect_height.
  destruct (Qeq_bool (max_x - min_x) (max_y - min_y)
            && Qeq_bool (max_y - min_y) 0) eqn:E.
  - split; [reflexivity|]. intros Hn. apply zero_size_test in E. contradiction.
  - split.
    + intros Hz. apply zero_size_test in Hz. congruence.
    + intros _.
      exact (find_redraw_regions_in_spec (min_x, min_y, max_x, max_y) areas []).
Qed.

(** C6 (as the code has it).  With [rect] the value [calc_draw_area_rect]
    returns, [find_redraw_regions] returns the empty list when [rect] is
    none or has both zero width and zero height, and in every other case
    exactly the (area, region) pairs, over the regions with a non-empty
    kind, whose rectangle meets [rect] shrunk by one on its max corner. *)
Theorem find_redraw_regions_exact
        (H : Host) (s : State) (context : Context) (t : Q)
        (rect : option DrawRect) :
  calc_draw_area_rect H s context t = Ok rect ->
  match rect with
  | None => find_redraw_regions H s context t = Ok []
  | Some r =>
      ((rect_width r == 0 /\ rect_height r == 0)%Q ->
       find_redraw_regions H s context t = Ok [])
      /\ (~ (rect_width r == 0 /\ rect_height r == 0)%Q ->
          find_redraw_regions H s context t
          = Ok (redraw_regions_spec r (ctx_screen_areas context)))
  end.
Proof.
  intros Hrect. unfold find_redraw_regions. rewrite Hrect. cbn [rbind].
  apply find_redraw_regions_of_cases.
Qed.

Lemma find_redraw_regions_exact_witness :
  find_redraw_regions sample_host (sample_running "WINDOW" false)
                      (sample_context "WINDOW" false) 0
  = Ok (redraw_regions_spec (10%Q, 10%Q, 10%Q, 26%Q) [sample_view]).
Proof.
  refine (proj2 (find_redraw_regions_exact sample_host
                   (sample_running "WINDOW" false)
                   (sample_context "WINDOW" false) 0
                   (Some (10%Q, 10%Q, 10%Q, 26%Q)) _) _).
  - vm_compute. reflexivity.
  - intros [_ Hh]. vm_compute in Hh. discriminate.
Defined.

(** C6, refuted as stated: right after the operator is switched on, with
    nothing to show, the draw rectangle has zero width, hence zero area,
    and [find_redraw_regions] still returns a region. *)
Lemma find_redraw_regions_zero_area :
  calc_draw_area_rect sample_host (sample_running "WINDOW" false)
                      (sample_context "WINDOW" false) 0
  = Ok (Some (10%Q, 10%Q, 10%Q, 26%Q))
  /\ (rect_width (10%Q, 10%Q, 10%Q, 26%Q)
      * rect_height (10%Q, 10%Q, 10%Q, 26%Q) == 0)%Q
  /\ find_redraw_regions sample_host (sample_running "WINDOW" false)
                         (sample_context "WINDOW" false) 0
     = Ok [(sample_view, sample_window_region)].
Proof.
  split; [vm_compute; reflexivity | split; [|vm_compute; reflexivity]].
  vm_compute. reflexivity.
Qed.

(** ** Unrecognised event types *)

(** An event whose type string is empty is passed through by a running
    operator: the guard in front of the enumeration lookup. *)
Lemma modal_empty_type
      (H : Host) (context : Context) (event : Event) (clock : Clock)
      (s : State) :
  event_type event = "" ->
  modal H context event clock s
  = (Ok (if running s then PASS_THROUGH else FINISHED), s).
Proof.
  intros Ht. unfold modal, bind, get. rewrite Ht.
  destruct (running s); reflexivity.
Qed.

(** C2.  For every dispatched event whose type string is not a member of
    the host's event-type enumeration, [modal] raises nothing and treats
    the event as ignorable: a running operator returns [PASS_THROUGH]
    (a stopped one [FINISHED]) and the whole state is left as it was. *)
Theorem modal_unrecognised_passes_through
        (H : Host) (context : Context) (event : Event) (clock : Clock)
        (s : State) :
  dispatched H event ->
  ~ In (event_type event) (map fst (event_type_enum_items H)) ->
  modal H context event clock s
  = (Ok (if running s then PASS_THROUGH else FINISHED), s).
Proof.
  intros [Hempty | Hmember] Hunknown.
  - now apply modal_empty_type.
  - contradiction.
Qed.

Lemma modal_unrecognised_passes_through_witness :
  modal sample_host (sample_context "WINDOW" false) (press "" false false)
        (at_time 1) (sample_running "WINDOW" false)
  = (Ok PASS_THROUGH, sample_running "WINDOW" false).
Proof.
  apply (modal_unrecognised_passes_through
           sample_host (sample_context "WINDOW" false)
           (press "" false false) (at_time 1)
           (sample_running "WINDOW" false)).
  - left. reflexivity.
  - intros Hin. simpl in Hin.
    repeat (destruct Hin as [Hin | Hin]; [discriminate Hin|]).
    exact Hin.
Defined.

(** ** Modifier snapshots in the event history *)

Lemma hoare_pure {A} (phi : Prop) (P : State -> Prop) (m : M A)
      (Q : A -> State -> Prop) (R : State -> Prop) :
  (phi -> hoare P m Q R) ->
  hoare (fun s => phi /\ P s) m Q R.
Proof. intros Hm s [Hphi Hs]. exact (Hm Hphi s Hs). Qed.

Lemma list_remove_In (x m : string) (l : list string) :
  In m (list_remove x l) -> In m l.
Proof.
  induction l as [|y l IH]; simpl; [tauto|].
  destruct (String.eqb x y); simpl; intuition.
Qed.

Lemma list_remove_NoDup (x : string) (l : list string) :
  NoDup l -> NoDup (list_remove x l) /\ ~ In x (list_remove x l).
Proof.
  induction l as [|y l IH]; intros Hnd; simpl.
  - split; [constructor | tauto].
  - inversion Hnd as [|y' l' Hy Hl]; subst.
    destruct (String.eqb x y) eqn:E.
    + apply String.eqb_eq in E. subst y. split; assumption.
    + apply String.eqb_neq in E. destruct (IH Hl) as [Hnd' Hx]. split.
      * constructor; [|exact Hnd']. intros Hin. apply Hy.
        exact (list_remove_In _ _ _ Hin).
      * simpl. intros [Heq | Hin]; [congruence | contradiction].
Qed.

Lemma event_mod_keys_ok (event : Event) :
  (forall m, In m (event_mod_keys event) ->
             In m [LEFT_SHIFT; LEFT_CTRL; LEFT_ALT; OSKEY])
  /\ NoDup (event_mod_keys event).
Proof.
  unfold event_mod_keys.
  destruct (event_shift event), (event_oskey event), (event_alt event),
    (event_ctrl event); simpl; split;
    try (intros m Hm; intuition auto);
    repeat constructor; simpl; intuition discriminate.
Qed.

Lemma current_mod_of_ok (event_type : EventType) (hold : list EventType) :
  (forall m, In m hold -> In m [LEFT_SHIFT; LEFT_CTRL; LEFT_ALT; OSKEY]) ->
  NoDup hold ->
  snapshot_ok event_type (current_mod_of event_type hold).
Proof.
  intros Hsub Hnd. unfold current_mod_of, snapshot_ok.
  destruct (str_in event_type hold) eqn:E.
  - destruct (list_remove_NoDup event_type hold Hnd) as [Hnd' Hx].
    repeat split; [|exact Hnd' | exact Hx].
    intros m Hm. apply Hsub. exact (list_remove_In _ _ _ Hm).
  - apply str_in_false in E. repeat split; assumption.
Qed.

Lemma rev_cons_inv {A} (l : list A) (x : A) (before : list A) :
  rev l = x :: before -> l = rev before ++ [x].
Proof.
  intros Hr. rewrite <- (rev_involutive l), Hr. reflexivity.
Qed.

Lemma record_event_ok (prefs : Prefs) (t : Q) (event_type : EventType)
      (current_mod : list EventType) (history : list EventEntry)
      (ok : EventEntry -> Prop) :
  (forall e, In e history -> ok e) ->
  (forall time count, (forall e, In e history -> entry_type e = event_type
                                 -> entry_mods e = current_mod
                                 -> ok (mkEventEntry time event_type current_mod count))) ->
  ok (mkEventEntry t event_type current_mod 1) ->
  forall e, In e (record_event prefs t event_type current_mod history) -> ok e.
Proof.
  intros Hh Hmerge Hcur e. unfold record_event.
  destruct (rev history) as [|last before] eqn:Er.
  - rewrite in_app_iff. simpl. intros [Hin | [<- | []]]; auto.
  - apply rev_cons_inv in Er.
    destruct (String.eqb (entry_type last) event_type
              && str_list_eqb (entry_mods last) current_mod
              && Qltb (t - entry_time last) (display_time prefs)) eqn:Ec.
    + apply andb_true_iff in Ec. destruct Ec as [Ec _].
      apply andb_true_iff in Ec. destruct Ec as [Et Em].
      apply String.eqb_eq in Et. apply str_list_eqb_eq in Em.
      rewrite in_app_iff. simpl. intros [Hin | [<- | []]].
      * apply Hh. rewrite Er. apply in_or_app. now left.
      * rewrite Et, Em. apply (Hmerge _ _ last); auto.
        rewrite Er. apply in_or_app. right. now left.
    + rewrite in_app_iff. simpl. intros [Hin | [<- | []]]; auto.
Qed.

Lemma update_hold_modifier_keys_hold_ok (H : Host) (event : Event)
      (P : State -> Prop) :
  (forall v s, P s -> P (set_hold_modifier_keys v s)) ->
  hoare P (update_hold_modifier_keys H event)
        (fun _ s => hold_ok s /\ P s) P.
Proof.
  intros Hset s Hs.
  unfold update_hold_modifier_keys, bind, modify, lift.
  destruct (EventType_getitem H (event_type event)) as [t|e]; simpl.
  - split; [|now repeat apply Hset].
    unfold hold_ok. simpl.
    destruct (String.eqb t WINDOW_DEACTIVATE).
    + split; [intros m [] | constructor].
    + apply event_mod_keys_ok.
  - now apply Hset.
Qed.

Lemma history_ok_filter (f : EventEntry -> bool) (s : State) :
  history_ok s -> history_ok (set_event_history (filter f (event_history s)) s).
Proof.
  intros Hs e He. simpl in He. apply filter_In in He. apply Hs. tauto.
Qed.

Lemma modal_keeps_history_ok (H : Host) (context : Context) (event : Event)
      (clock : Clock) :
  preserves history_ok (modal H context event clock).
Proof.
  unfold modal.
  apply preserves_bind; [apply preserves_get|]. intros s0.
  destruct (negb (running s0)); [apply preserves_ret|].
  destruct (String.eqb (event_type event) ""); [apply preserves_ret|].
  apply preserves_bind; [apply preserves_lift|]. intros ty.
  apply preserves_bind.
  { apply preserves_modify. apply update_area_spaces_keeps.
    intros v s Hs. exact Hs. }
  intros _. unfold preserves. eapply hoare_bind.
  { apply (update_hold_modifier_keys_hold_ok H event history_ok).
    intros v s Hs. exact Hs. }
  intros u. eapply hoare_bind; [apply hoare_get|]. intros s1.
  eapply hoare_weaken with (P := fun s => hold_ok s1 /\ history_ok s)
                           (Q := fun _ => history_ok) (R := history_ok);
    [ | intros s [-> [Hh Hs]]; auto | auto | auto ].
  apply hoare_pure. intros [Hsub Hnd].
  apply preserves_bind; [apply preserves_lift|]. intros ignore.
  apply preserves_bind.
  { destruct (negb ignore); [apply preserves_lift | apply preserves_ret]. }
  intros is_mod.
  apply preserves_bind.
  { destruct (negb ignore && negb is_mod
              && String.eqb (event_value event) "PRESS");
      [|apply preserves_ret].
    apply preserves_modify. intros s Hs e He. simpl in He. revert e He.
    apply record_event_ok.
    - exact Hs.
    - intros time count e He Ht Hm. simpl. now apply current_mod_of_ok.
    - simpl. now apply current_mod_of_ok. }
  intros _.
  apply preserves_bind.
  { apply preserves_modify. intros s Hs.
    rewrite removed_old_event_history_filter. now apply history_ok_filter. }
  intros _.
  apply preserves_bind.
  { apply update_operator_history_keeps. intros v s Hs. exact Hs. }
  intros _.
  apply preserves_bind; [|intros _; apply preserves_ret].
  apply redraw_keeps_others; intros v s Hs; exact Hs.
Qed.

Lemma invoke_keeps_history_ok (H : Host) (context : Context) (event : Event) :
  preserves history_ok (invoke H context event).
Proof.
  unfold invoke.
  apply preserves_bind; [apply preserves_get|]. intros s0.
  destruct (running s0).
  - apply preserves_bind.
    { apply event_timer_remove_keeps; intros v s Hs; exact Hs. }
    intros _. apply preserves_bind.
    { apply draw_handler_remove_keeps; intros v s Hs; exact Hs. }
    intros _.
    apply preserves_bind; [apply preserves_modify; intros s Hs; exact Hs|].
    intros _.
    apply preserves_bind; [apply preserves_modify; intros s Hs e []|].
    intros _.
    repeat (apply preserves_bind;
            [apply preserves_modify; intros s Hs; exact Hs | intros _]).
    apply preserves_ret.
  - apply preserves_bind.
    { apply update_hold_modifier_keys_keeps. intros v s Hs. exact Hs. }
    intros _. apply preserves_bind.
    { apply event_timer_add_keeps; intros v s Hs; exact Hs. }
    intros _.
    repeat (apply preserves_bind;
            [apply preserves_modify; intros s Hs; exact Hs | intros _]).
    apply preserves_ret.
Qed.

Lemma reachable_history_ok (H : Host) (s : State) :
  reachable H s -> history_ok s.
Proof.
  induction 1 as [|context event s Hr IH|context event clock s Hr IH
                  |region s Hr IH|o s Hr IH].
  - intros e [].
  - exact (preserves_exec _ _ _ (invoke_keeps_history_ok H context event) IH).
  - exact (preserves_exec _ _ _
             (modal_keeps_history_ok H context event clock) IH).
  - exact IH.
  - exact IH.
Qed.

(** C10.  In every state the operator can reach, each entry of the event
    history holds a modifier snapshot made only of the left-variant
    shift/ctrl/alt types and the OS key, all of them modifier types,
    without duplicates and without the entry's own event type; hence
    [sorted_modifier_keys] returns on it without failing its assertion. *)
Theorem stored_snapshots_are_modifiers (H : Host) (s : State) :
  reachable H s ->
  forall e, In e (event_history s) ->
    (forall m, In m (entry_mods e) ->
               In m [LEFT_SHIFT; LEFT_CTRL; LEFT_ALT; OSKEY]
               /\ In m MODIFIER_EVENT_TYPES)
    /\ NoDup (entry_mods e)
    /\ ~ In (entry_type e) (entry_mods e)
    /\ exists names, sorted_modifier_keys H (entry_mods e) = Ok names.
Proof.
  intros Hr e He.
  destruct (reachable_history_ok H s Hr e He) as [Hsub [Hnd Hself]].
  assert (Hmods : forall m, In m (entry_mods e) -> In m MODIFIER_EVENT_TYPES).
  { intros m Hm. specialize (Hsub m Hm). unfold MODIFIER_EVENT_TYPES.
    simpl in *. intuition. }
  repeat split; auto.
  destruct (sorted_modifier_keys_loop_ok H (sorted key_fn (entry_mods e)))
    with (names := @nil string) as [names [Heq _]].
  - intros m Hm. apply Hmods. now apply sorted_In in Hm.
  - exists names. exact Heq.
Qed.

Lemma stored_snapshots_are_modifiers_witness :
  (forall m, In m [LEFT_SHIFT] ->
             In m [LEFT_SHIFT; LEFT_CTRL; LEFT_ALT; OSKEY]
             /\ In m MODIFIER_EVENT_TYPES)
  /\ NoDup [LEFT_SHIFT]
  /\ ~ In "A" [LEFT_SHIFT]
  /\ exists names, sorted_modifier_keys sample_host [LEFT_SHIFT] = Ok names.
Proof.
  apply (stored_snapshots_are_modifiers sample_host sample_pressed
           (reachable_modal _ _ _ _ _
              (reachable_invoke _ _ _ _ (reachable_init _)))
           (mkEventEntry 1 "A" [LEFT_SHIFT] 1)).
  vm_compute. auto.
Defined.

(** ** Coalescing of repeated presses *)

Lemma is_ignore_event_recognised (H : Host) (event : Event) (prefs : option Prefs)
      (b : bool) :
  is_ignore_event H event prefs = Ok b ->
  EventType_getitem H (event_type event) = Ok (event_type event).
Proof.
  unfold is_ignore_event, EventType_getitem.
  destruct (existsb _ _); [reflexivity | discriminate].
Qed.


Lemma update_hold_modifier_keys_run (H : Host) (event : Event) (s : State) :
  EventType_getitem H (event_type event) = Ok (event_type event) ->
  update_hold_modifier_keys H event s
  = (Ok tt,
     set_hold_modifier_keys
       (if String.eqb (event_type event) WINDOW_DEACTIVATE then []
        else event_mod_keys event)
       (set_hold_modifier_keys [] s)).
Proof.
  intros Hg. unfold update_hold_modifier_keys.
  rewrite bind_modify, Hg, bind_lift_ok. reflexivity.
Qed.










(** The run of the witness, evaluated: three presses, one entry with
    count 3 and the time of the last press, although each call ends by
    raising in the redraw. *)
Example three_presses_one_entry :
  event_history
    (run_modal sample_host
       [sample_press_at 1; sample_press_at 2; sample_press_at 3]
       (sample_running "WINDOW" false))
  = [mkEventEntry 3 "A" [LEFT_SHIFT] 3].
Proof. vm_compute. reflexivity. Qed.

(** ** The redraw step *)


Lemma set_add_In (p q : Z) (l : list Z) :
  In q (set_add p l) <-> q = p \/ In q l.
Proof.
  unfold set_add. destruct (ptr_in p l) eqn:E.
  - apply ptr_in_In in E. intuition congruence.
  - rewrite in_app_iff. simpl. intuition.
Qed.

Section RedrawOne.

(** The region handle under scrutiny and the host log before the step. *)
Variable p : Z.
Variable base : list HostCall.







End RedrawOne.




(** ** Toggling on and off *)

Lemma state_ext (a b : State) :
  hold_modifier_keys a = hold_modifier_keys b ->
  event_history a = event_history b ->
  operator_history a = operator_history b ->
  prev_time a = prev_time b ->
  timers a = timers b ->
  handlers a = handlers b ->
  draw_regions_prev a = draw_regions_prev b ->
  origin a = origin b ->
  area_spaces a = area_spaces b ->
  running a = running b ->
  host_calls a = host_calls b ->
  host_next_token a = host_next_token b ->
  a = b.
Proof.
  destruct a, b. simpl. intros. subst. reflexivity.
Qed.

Lemma log_calls_app (a b : list HostCall) (s : State) :
  log_calls (a ++ b) s = log_calls b (log_calls a s).
Proof. apply fold_left_app. Qed.

Lemma log_calls_eq (calls : list HostCall) (s : State) :
  log_calls calls s
  = mkState (hold_modifier_keys s) (event_history s) (operator_history s)
            (prev_time s) (timers s) (handlers s) (draw_regions_prev s)
            (origin s) (area_spaces s) (running s) (host_calls s ++ calls)
            (host_next_token s).
Proof.
  revert s. induction calls as [|c calls IH]; intros s.
  - destruct s. simpl. now rewrite app_nil_r.
  - change (log_calls (c :: calls) s) with (log_calls calls (host_call c s)).
    rewrite IH. simpl. now rewrite <- app_assoc.
Qed.

Lemma event_timer_remove_loop (windows : list Window) :
  forall s,
    for_each windows (fun win =>
      let key := window_ptr win in
      s <- get ;;
      match assoc_ptr key (timers s) with
      | Some timer => modify (host_call (wm_event_timer_remove timer))
      | None => ret tt
      end) s
    = (Ok tt,
       log_calls
         (flat_map (fun win =>
                      match assoc_ptr (window_ptr win) (timers s) with
                      | Some timer => [wm_event_timer_remove timer]
                      | None => []
                      end) windows) s).
Proof.
  induction windows as [|win windows IH]; intros s; [reflexivity|].
  cbn [for_each flat_map]. rewrite log_calls_app.
  destruct (assoc_ptr (window_ptr win) (timers s)) as [timer|] eqn:E.
  - rewrite (bind_ok _ _ s (host_call (wm_event_timer_remove timer) s) tt).
    + rewrite IH. reflexivity.
    + rewrite bind_get. cbv beta zeta. now rewrite E.
  - rewrite (bind_ok _ _ s s tt).
    + rewrite IH. reflexivity.
    + rewrite bind_get. cbv beta zeta. now rewrite E.
Qed.

Lemma draw_handler_remove_loop (entries : list ((string * string) * Z)) :
  forall s,
    for_each entries (fun '((space_type, region_type), handle) =>
      modify (host_call
                (space_draw_handler_remove space_type handle region_type))) s
    = (Ok tt,
       log_calls
         (map (fun '((space_type, region_type), handle) =>
                 space_draw_handler_remove space_type handle region_type)
              entries) s).
Proof.
  induction entries as [|[[st rt] h] entries IH]; intros s; [reflexivity|].
  cbn [for_each map]. rewrite bind_modify, IH. reflexivity.
Qed.

(** Toggling a running operator: it returns 'CANCELLED' and leaves
    [stopped_state]. *)
Lemma invoke_running (H : Host) (context : Context) (event : Event)
      (s : State) :
  running s = true ->
  invoke H context event s = (Ok CANCELLED, stopped_state context s).
Proof.
  intros Hr. unfold invoke. rewrite bind_get. cbv beta. rewrite Hr.
  unfold event_timer_remove.
  rewrite (bind_ok _ _ s
             (set_timers [] (log_calls (timer_removals context s) s)) tt).
  2:{ rewrite (bind_ok _ _ _ _ _ (event_timer_remove_loop _ s)).
      reflexivity. }
  unfold draw_handler_remove.
  rewrite (bind_ok _ _ _
             (set_handlers []
                (log_calls (handler_removals s)
                   (set_timers [] (log_calls (timer_removals context s) s))))
             tt).
  2:{ rewrite bind_get. cbv beta.
      rewrite (bind_ok _ _ _ _ _ (draw_handler_remove_loop _ _)).
      unfold modify, handler_removals.
      rewrite !log_calls_eq. reflexivity. }
  rewrite !bind_modify. unfold ret, stopped_state.
  rewrite !log_calls_eq. f_equal.
  apply state_ext; try reflexivity.
  simpl. now rewrite <- !app_assoc.
Qed.

Lemma assoc_ptr_app {B} (k : Z) (v : B) (l l' : list (Z * B)) :
  assoc_ptr k l = Some v -> assoc_ptr k (l ++ l') = Some v.
Proof.
  induction l as [|[k0 v0] l IH]; simpl; [discriminate|].
  destruct (Z.eqb k k0); auto.
Qed.

Lemma assoc_ptr_new {B} (k : Z) (v : B) (l : list (Z * B)) :
  key_in k l = false -> assoc_ptr k (l ++ [(k, v)]) = Some v.
Proof.
  unfold key_in. induction l as [|[k0 v0] l IH]; simpl.
  - now rewrite Z.eqb_refl.
  - destruct (Z.eqb k k0); [discriminate | exact IH].
Qed.

Lemma registered_host_call (base : list HostCall) (ptrs : list Z)
      (c : HostCall) (s : State) :
  (forall w tok, c <> wm_event_timer_add w tok) ->
  (forall st rt h, c <> space_draw_handler_add st rt h) ->
  registered base ptrs s -> registered base ptrs (host_call c s).
Proof.
  intros Ht Hh [extra [Hc [Htimers Hhandlers]]].
  exists (extra ++ [c]). simpl. split; [now rewrite Hc, <- app_assoc|]. split.
  - intros w tok Hin. apply in_app_or in Hin.
    destruct Hin as [Hin | [Heq | []]]; [now apply Htimers|].
    now elim (Ht w tok).
  - intros st rt h Hin. apply in_app_or in Hin.
    destruct Hin as [Hin | [Heq | []]]; [now apply Hhandlers|].
    now elim (Hh st rt h).
Qed.

Lemma registered_timer_add (base : list HostCall) (ptrs : list Z)
      (key : Z) (s : State) :
  In key ptrs ->
  key_in key (timers s) = false ->
  registered base ptrs s ->
  registered base ptrs
    (set_timers (timers s ++ [(key, host_next_token s)])
       (snd (host_call_token (wm_event_timer_add key) s))).
Proof.
  intros Hkey Hnew [extra [Hc [Htimers Hhandlers]]].
  exists (extra ++ [wm_event_timer_add key (host_next_token s)]). simpl.
  split; [now rewrite Hc, <- app_assoc|]. split.
  - intros w tok Hin. apply in_app_or in Hin.
    destruct Hin as [Hin | [Heq | []]].
    + destruct (Htimers w tok Hin) as [Ha Hw].
      split; [now apply assoc_ptr_app | exact Hw].
    + injection Heq as <- <-. split; [now apply assoc_ptr_new | exact Hkey].
  - intros st rt h Hin. apply in_app_or in Hin.
    destruct Hin as [Hin | [Heq | []]]; [now apply Hhandlers | discriminate].
Qed.

Lemma registered_handler_add (base : list HostCall) (ptrs : list Z)
      (st rt : string) (s : State) :
  registered base ptrs s ->
  registered base ptrs
    (set_handlers (handlers s ++ [((st, rt), host_next_token s)])
       (snd (host_call_token (space_draw_handler_add st rt) s))).
Proof.
  intros [extra [Hc [Htimers Hhandlers]]].
  exists (extra ++ [space_draw_handler_add st rt (host_next_token s)]). simpl.
  split; [now rewrite Hc, <- app_assoc|]. split.
  - intros w tok Hin. apply in_app_or in Hin.
    destruct Hin as [Hin | [Heq | []]]; [now apply Htimers | discriminate].
  - intros st' rt' h Hin. apply in_app_or in Hin. apply in_or_app.
    destruct Hin as [Hin | [Heq | []]].
    + left. now apply Hhandlers.
    + injection Heq as <- <- <-. right. now left.
Qed.

Lemma event_timer_add_registered (base : list HostCall) (context : Context) :
  preserves (registered base (map window_ptr (ctx_windows context)))
            (event_timer_add context).
Proof.
  unfold event_timer_add, preserves. apply hoare_for_each. intros win Hwin.
  eapply hoare_bind; [apply hoare_get|]. intros s0.
  destruct (negb (key_in (window_ptr win) (timers s0))) eqn:E.
  - intros s [-> Hs]. cbn. apply negb_true_iff in E.
    apply registered_timer_add; auto. now apply in_map.
  - intros s [_ Hs]. exact Hs.
Qed.

Lemma event_timer_add_total (context : Context) :
  total (event_timer_add context).
Proof.
  unfold event_timer_add. apply total_for_each. intros win.
  apply total_bind; [apply total_get|]. intros s0.
  destruct (negb _); [|apply total_ret].
  intros s. exists tt. reflexivity.
Qed.

(** Toggling a stopped operator with a recognised event: it returns
    'RUNNING_MODAL', runs, and everything it registered is on record. *)
Lemma invoke_stopped (H : Host) (context : Context) (event : Event)
      (s : State) :
  running s = false ->
  EventType_getitem H (event_type event) = Ok (event_type event) ->
  fst (invoke H context event s) = Ok RUNNING_MODAL
  /\ running_registered (host_calls s) (map window_ptr (ctx_windows context))
                        (exec (invoke H context event) s).
Proof.
  intros Hr Hg.
  set (held := set_hold_modifier_keys
                 (if String.eqb (event_type event) WINDOW_DEACTIVATE then []
                  else event_mod_keys event)
                 (set_hold_modifier_keys [] s)).
  assert (Hreg : registered (host_calls s)
                   (map window_ptr (ctx_windows context)) held).
  { exists []. simpl. rewrite app_nil_r. repeat split; intros; contradiction. }
  pose proof (preserves_exec _ _ _
                (event_timer_add_registered (host_calls s) context) Hreg)
    as Hreg'.
  destruct (event_timer_add_total context held) as [u Hu].
  unfold exec in *. unfold invoke. rewrite bind_get. cbv beta. rewrite Hr.
  rewrite (bind_ok _ _ _ _ _ (update_hold_modifier_keys_run H event s Hg)).
  fold held.
  destruct (event_timer_add context held) as [[[]|e] timed] eqn:Et;
    [|discriminate].
  rewrite (bind_ok _ _ _ _ _ Et). rewrite !bind_modify. unfold ret.
  cbn [fst snd]. split; [reflexivity|]. split; [reflexivity|].
  cbn [snd] in Hreg'.
  apply registered_host_call with (c := wm_modal_handler_add) in Hreg';
    [|discriminate|discriminate].
  apply registered_host_call
    with (c := area_tag_redraw (area_ptr (ctx_area context)))
    in Hreg'; [|discriminate|discriminate].
  exact Hreg'.
Qed.

Lemma modal_keeps_running_registered (base : list HostCall) (ptrs : list Z)
      (H : Host) (context : Context) (event : Event) (clock : Clock) :
  preserves (running_registered base ptrs) (modal H context event clock).
Proof.
  unfold modal.
  apply preserves_bind; [apply preserves_get|]. intros s0.
  destruct (negb (running s0)); [apply preserves_ret|].
  destruct (String.eqb (event_type event) ""); [apply preserves_ret|].
  apply preserves_bind; [apply preserves_lift|]. intros ty.
  apply preserves_bind.
  { apply preserves_modify. apply update_area_spaces_keeps.
    intros v s Hs. exact Hs. }
  intros _. apply preserves_bind.
  { apply update_hold_modifier_keys_keeps. intros v s Hs. exact Hs. }
  intros _. apply preserves_bind; [apply preserves_get|]. intros s1.
  apply preserves_bind; [apply preserves_lift|]. intros ignore.
  apply preserves_bind.
  { destruct (negb ignore); [apply preserves_lift | apply preserves_ret]. }
  intros is_mod.
  apply preserves_bind.
  { destruct (negb ignore && negb is_mod
              && String.eqb (event_value event) "PRESS");
      [|apply preserves_ret].
    apply preserves_modify. intros s Hs. exact Hs. }
  intros _.
  apply preserves_bind; [apply preserves_modify; intros s Hs; exact Hs|].
  intros _.
  apply preserves_bind.
  { apply update_operator_history_keeps. intros v s Hs. exact Hs. }
  intros _.
  apply preserves_bind; [|intros _; apply preserves_ret].
  apply redraw_keeps.
  - intros p s [Hr Hs]. split; [exact Hr|].
    apply registered_host_call; [discriminate | discriminate | exact Hs].
  - intros st rt s [Hr Hs] _. split; [exact Hr|].
    now apply registered_handler_add.
  - intros v s Hs. exact Hs.
  - intros v s Hs. exact Hs.
Qed.

Lemma run_modal_keeps (P : State -> Prop) (H : Host) (ds : list Dispatch) :
  (forall context event clock, preserves P (modal H context event clock)) ->
  forall s, P s -> P (run_modal H ds s).
Proof.
  intros Hm. induction ds as [|[[context event] clock] ds IH]; intros s Hs.
  - exact Hs.
  - cbn [run_modal fold_left]. apply IH.
    exact (preserves_exec _ _ _ (Hm context event clock) Hs).
Qed.

Lemma timer_removals_only_remove (context : Context) (s : State) (c : HostCall) :
  In c (timer_removals context s) -> exists tok, c = wm_event_timer_remove tok.
Proof.
  unfold timer_removals. rewrite in_flat_map. intros [win [_ Hc]].
  destruct (assoc_ptr _ _) as [tok|]; [|destruct Hc].
  destruct Hc as [<- | []]. now exists tok.
Qed.

Lemma handler_removals_only_remove (s : State) (c : HostCall) :
  In c (handler_removals s) ->
  exists st h rt, c = space_draw_handler_remove st h rt.
Proof.
  unfold handler_removals. rewrite in_map_iff.
  intros [[[st rt] h] [<- _]]. now exists st, h, rt.
Qed.

(** C8 (as the code has it).  Toggle a stopped operator on (with an event of a recognised
    type), let the modal loop process any dispatches, and toggle it off
    while the windows it was started with still exist.  The second toggle
    returns 'CANCELLED'; afterwards the operator is stopped, the event
    history, the operator history, the held-modifier list, the timer
    registry, the draw-handler registry and the tracked-region set are
    empty, and every timer and every draw handler added to the host
    since the first toggle has been removed from it. *)
Theorem toggle_on_off
        (H : Host) (context_on context_off : Context)
        (event_on event_off : Event) (ds : list Dispatch) (s : State) :
  running s = false ->
  EventType_getitem H (event_type event_on) = Ok (event_type event_on) ->
  incl (map window_ptr (ctx_windows context_on))
       (map window_ptr (ctx_windows context_off)) ->
  let s_on := exec (invoke H context_on event_on) s in
  let s_run := run_modal H ds s_on in
  let s_off := exec (invoke H context_off event_off) s_run in
  fst (invoke H context_on event_on s) = Ok RUNNING_MODAL
  /\ fst (invoke H context_off event_off s_run) = Ok CANCELLED
  /\ running s_off = false
  /\ event_history s_off = []
  /\ operator_history s_off = []
  /\ hold_modifier_keys s_off = []
  /\ timers s_off = []
  /\ handlers s_off = []
  /\ draw_regions_prev s_off = []
  /\ exists session,
       host_calls s_off = host_calls s ++ session
       /\ (forall w tok, In (wm_event_timer_add w tok) session ->
                         In (wm_event_timer_remove tok) session)
       /\ (forall st rt h, In (space_draw_handler_add st rt h) session ->
                           In (space_draw_handler_remove st h rt) session).
Proof.
  intros Hr Hg Hwin s_on s_run s_off.
  destruct (invoke_stopped H context_on event_on s Hr Hg) as [Hret Hon].
  fold s_on in Hon.
  assert (Hrun : running_registered (host_calls s)
                   (map window_ptr (ctx_windows context_on)) s_run).
  { apply run_modal_keeps; [|exact Hon].
    intros. apply modal_keeps_running_registered. }
  destruct Hrun as [Hrunning [extra [Hcalls [Htimers Hhandlers]]]].
  pose proof (invoke_running H context_off event_off s_run Hrunning) as Hoff.
  split; [exact Hret|]. split; [now rewrite Hoff|].
  subst s_off. unfold exec. rewrite Hoff. cbn [snd stopped_state
    running event_history operator_history hold_modifier_keys timers
    handlers draw_regions_prev host_calls].
  repeat (split; [reflexivity|]).
  exists (extra ++ timer_removals context_off s_run
          ++ handler_removals s_run
          ++ [area_tag_redraw (area_ptr (ctx_area context_off))]).
  split; [now rewrite Hcalls, <- app_assoc|]. split.
  - intros w tok Hin. apply in_app_or in Hin. destruct Hin as [Hin | Hin].
    + destruct (Htimers w tok Hin) as [Ha Hw].
      apply Hwin in Hw. apply in_map_iff in Hw.
      destruct Hw as [win [Hptr Hwin']].
      apply in_or_app. right. apply in_or_app. left.
      unfold timer_removals. apply in_flat_map. exists win.
      split; [exact Hwin'|]. rewrite Hptr, Ha. now left.
    + exfalso. apply in_app_or in Hin. destruct Hin as [Hin | Hin].
      * apply timer_removals_only_remove in Hin.
        destruct Hin as [tok' Hin]. discriminate.
      * apply in_app_or in Hin. destruct Hin as [Hin | [Hin | []]].
        -- apply handler_removals_only_remove in Hin.
           destruct Hin as [st [h [rt Hin]]]. discriminate.
        -- discriminate.
  - intros st rt h Hin. apply in_app_or in Hin. destruct Hin as [Hin | Hin].
    + specialize (Hhandlers st rt h Hin).
      apply in_or_app. right. apply in_or_app. right.
      apply in_or_app. left.
      unfold handler_removals. apply in_map_iff.
      exists ((st, rt), h). split; [reflexivity | exact Hhandlers].
    + exfalso. apply in_app_or in Hin. destruct Hin as [Hin | Hin].
      * apply timer_removals_only_remove in Hin.
        destruct Hin as [tok' Hin]. discriminate.
      * apply in_app_or in Hin. destruct Hin as [Hin | [Hin | []]].
        -- apply handler_removals_only_remove in Hin.
           destruct Hin as [st' [h' [rt' Hin]]]. discriminate.
        -- discriminate.
Qed.

Lemma toggle_on_off_witness :
  fst (invoke sample_host (sample_context "WINDOW" false)
              (press "LEFTMOUSE" false false) init_state)
  = Ok RUNNING_MODAL
  /\ fst (invoke sample_host (sample_context "WINDOW" false)
                 (press "LEFTMOUSE" false false) sample_session_run)
     = Ok CANCELLED
  /\ running sample_session_end = false
  /\ event_history sample_session_end = []
  /\ operator_history sample_session_end = []
  /\ hold_modifier_keys sample_session_end = []
  /\ timers sample_session_end = []
  /\ handlers sample_session_end = []
  /\ draw_regions_prev sample_session_end = []
  /\ exists session,
       host_calls sample_session_end = host_calls init_state ++ session
       /\ (forall w tok, In (wm_event_timer_add w tok) session ->
                         In (wm_event_timer_remove tok) session)
       /\ (forall st rt h, In (space_draw_handler_add st rt h) session ->
                           In (space_draw_handler_remove st h rt) session).
Proof.
  apply (toggle_on_off sample_host (sample_context "WINDOW" false)
           (sample_context "WINDOW" false) (press "LEFTMOUSE" false false)
           (press "LEFTMOUSE" false false)
           [(sample_context "WINDOW" false, release "A", at_time 1)]
           init_state).
  - reflexivity.
  - reflexivity.
  - apply incl_refl.
Defined.

(** C8, refuted as stated: the operator is switched on while two windows
    are open and switched off after the second one has been closed.
    [event_timer_remove] only visits the windows of the context, so the
    timer added for the closed window is dropped from the registry
    without ever being removed from the host. *)
Lemma toggle_leaves_timer_of_closed_window :
  let s_on := exec (invoke sample_host sample_context_two_windows
                           (press "LEFTMOUSE" false false)) init_state in
  let s_off := exec (invoke sample_host (sample_context "WINDOW" false)
                            (press "LEFTMOUSE" false false)) s_on in
  fst (invoke sample_host sample_context_two_windows
              (press "LEFTMOUSE" false false) init_state)
  = Ok RUNNING_MODAL
  /\ fst (invoke sample_host (sample_context "WINDOW" false)
                 (press "LEFTMOUSE" false false) s_on)
     = Ok CANCELLED
  /\ timers s_off = []
  /\ In (wm_event_timer_add 2 2) (host_calls s_off)
  /\ ~ In (wm_event_timer_remove 2) (host_calls s_off).
Proof.
  vm_compute. split; [reflexivity|]. split; [reflexivity|].
  split; [reflexivity|]. split; [auto 10|].
  intros Hin. repeat (destruct Hin as [Hin | Hin]; [discriminate Hin|]).
  exact Hin.
Qed.

(** The host log of that session: the timer and the draw handler added
    are both removed. *)
Example sample_session_log :
  host_calls sample_session_end
  = [ wm_event_timer_add 1 1; wm_modal_handler_add; area_tag_redraw 11;
      space_draw_handler_add "SpaceView3D" "WINDOW" 2; region_tag_redraw 31;
      wm_event_timer_remove 1;
      space_draw_handler_remove "SpaceView3D" 2 "WINDOW";
      area_tag_redraw 11 ].
Proof. vm_compute. reflexivity. Qed.

(** * Further properties of the module *)

(** ** Geometry helpers *)

Lemma get_window_region_rect_loop_bounds (regions : list Region) :
  forall r0 r1 r2 r3,
    let '(x0, y0, x1, y1) :=
      get_window_region_rect_loop regions (r0, r1, r2, r3) in
    (x0 <= r0 /\ y0 <= r1 /\ r2 <= x1 /\ r3 <= y1)
    /\ (forall region,
           In region regions -> region_type region = "WINDOW" ->
           x0 <= region_x region
           /\ y0 <= region_y region
           /\ region_x region + region_width region - 1 <= x1
           /\ region_y region + region_height region - 1 <= y1)
    /\ ((forall region, In region regions -> region_type region <> "WINDOW") ->
        (x0, y0, x1, y1) = (r0, r1, r2, r3)).
Proof.
  induction regions as [|region regions IH]; intros r0 r1 r2 r3.
  - simpl. split; [lia|]. split; [intros r []|reflexivity].
  - cbn [get_window_region_rect_loop].
    destruct (String.eqb (region_type region) "WINDOW") eqn:Et.
    + specialize (IH (Z.min r0 (region_x region)) (Z.min r1 (region_y region))
                     (Z.max (region_x region + region_width region - 1) r2)
                     (Z.max (region_y region + region_height region - 1) r3)).
      destruct (get_window_region_rect_loop regions _) as [[[x0 y0] x1] y1].
      destruct IH as [Hmono [Hin Hnone]]. split; [lia|]. split.
      * intros r [<- | Hr] Hw; [lia | now apply Hin].
      * intros Hno. apply String.eqb_eq in Et.
        now elim (Hno region (or_introl eq_refl)).
    + specialize (IH r0 r1 r2 r3).
      destruct (get_window_region_rect_loop regions _) as [[[x0 y0] x1] y1].
      destruct IH as [Hmono [Hin Hnone]]. split; [exact Hmono|]. split.
      * intros r [<- | Hr] Hw; [|now apply Hin].
        apply String.eqb_neq in Et. contradiction.
      * intros Hno. apply Hnone. intros r Hr. apply Hno. now right.
Qed.

(** X1.  [get_window_region_rect] returns a box that contains, with
    inclusive pixel bounds, every 'WINDOW' region of the area; for an
    area without a 'WINDOW' region it returns its starting value
    [99999, 99999, 0, 0], a box with its min corner beyond its max. *)
Theorem get_window_region_rect_encloses (area : Area) :
  let '(x0, y0, x1, y1) := get_window_region_rect area in
  (forall region,
      In region (area_regions area) -> region_type region = "WINDOW" ->
      x0 <= region_x region
      /\ y0 <= region_y region
      /\ region_x region + region_width region - 1 <= x1
      /\ region_y region + region_height region - 1 <= y1)
  /\ ((forall region, In region (area_regions area) ->
                      region_type region <> "WINDOW") ->
      (x0, y0, x1, y1) = (99999, 99999, 0, 0)).
Proof.
  unfold get_window_region_rect.
  pose proof (get_window_region_rect_loop_bounds (area_regions area)
                99999 99999 0 0) as Hb.
  destruct (get_window_region_rect_loop (area_regions area) _)
    as [[[x0 y0] x1] y1].
  destruct Hb as [_ [Hin Hnone]]. split; assumption.
Qed.

Lemma get_window_region_rect_encloses_witness :
  (0 <= region_x sample_window_region
   /\ 0 <= region_y sample_window_region
   /\ region_x sample_window_region + region_width sample_window_region - 1
      <= 99
   /\ region_y sample_window_region + region_height sample_window_region - 1
      <= 99)
  /\ get_window_region_rect (sample_area 13 23 [sample_region 33 "UI" 5 5 9 9])
     = (99999, 99999, 0, 0).
Proof.
  split.
  - exact (proj1 (get_window_region_rect_encloses sample_view)
                 sample_window_region (or_introl eq_refl) eq_refl).
  - apply (proj2 (get_window_region_rect_encloses
                    (sample_area 13 23 [sample_region 33 "UI" 5 5 9 9]))).
    intros region [<- | []]. discriminate.
Defined.

Lemma v3d_tools_ui_wide (regions : list Region) :
  forall tools ui,
    (forall t, tools = Some t -> 1 < region_width t) ->
    (forall u, ui = Some u -> 1 < region_width u) ->
    (forall t, fst (v3d_tools_ui regions tools ui) = Some t -> 1 < region_width t)
    /\ (forall u, snd (v3d_tools_ui regions tools ui) = Some u ->
                  1 < region_width u).
Proof.
  induction regions as [|ar regions IH]; intros tools ui Ht Hu.
  - simpl. split; assumption.
  - cbn [v3d_tools_ui]. destruct (region_width ar >? 1) eqn:Ew.
    + assert (Hw : 1 < region_width ar) by lia.
      destruct (String.eqb (region_type ar) "WINDOW"); [now apply IH|].
      destruct (String.eqb (region_type ar) "TOOLS").
      { apply IH; [|exact Hu]. intros t E. injection E as <-. exact Hw. }
      destruct (String.eqb (region_type ar) "UI").
      { apply IH; [exact Ht|]. intros u E. injection E as <-. exact Hw. }
      now apply IH.
    + now apply IH.
Qed.

(** X2.  For a 'WINDOW' region, [get_region_rect_on_v3d] keeps the
    region's own vertical extent, never reaches horizontally beyond the
    box of [get_window_region_rect], and, when region overlap is
    enabled, never beyond the area either: panels only ever shrink the
    rectangle.  With region overlap disabled the horizontal extent is
    that of the 'WINDOW' box. *)
Theorem get_region_rect_on_v3d_window
        (context : Context) (area : Area) (region : Region) :
  region_type region = "WINDOW" ->
  let '(xmin, ymin, xmax, ymax) := get_region_rect_on_v3d context area region in
  let '(wx0, _, wx1, _) := get_window_region_rect area in
  ymin = region_y region
  /\ ymax = region_y region + region_height region - 1
  /\ wx0 <= xmin /\ xmax <= wx1
  /\ (ctx_use_region_overlap context = true ->
      area_x area <= xmin /\ xmax <= area_x area + area_width area - 1)
  /\ (ctx_use_region_overlap context = false -> xmin = wx0 /\ xmax = wx1).
Proof.
  intros Ht. unfold get_region_rect_on_v3d. rewrite Ht.
  cbn [String.eqb Ascii.eqb Bool.eqb andb negb].
  pose proof (v3d_tools_ui_wide (area_regions area) None None) as Hwide.
  destruct (v3d_tools_ui (area_regions area) None None) as [tools ui].
  destruct Hwide as [Htools Hui]; try discriminate. cbn [fst snd] in *.
  destruct (get_window_region_rect area) as [[[wx0 wy0] wx1] wy1].
  destruct (ctx_use_region_overlap context).
  - assert (Hlr : forall p : Z * Z,
               p = match tools, ui with
                   | Some tools, Some ui =>
                       let '(r1, r2) :=
                         if region_x tools <=? region_x ui
                         then (tools, ui) else (ui, tools) in
                       if region_x r1 =? area_x area then
                         if region_x r2 =? region_x r1 + region_width r1
                         then (region_width r1 + region_width r2, 0)
                         else (region_width r1, region_width r2)
                       else (0, region_width r1 + region_width r2)
                   | Some tools, None =>
                       if region_x tools =? area_x area
                       then (region_width tools, 0)
                       else (0, region_width tools)
                   | None, Some ui =>
                       if region_x ui =? area_x area
                       then (region_width ui, 0)
                       else (0, region_width ui)
                   | None, None => (0, 0)
                   end ->
               0 <= fst p /\ 0 <= snd p).
    { intros p ->. destruct tools as [t|], ui as [u|].
      - specialize (Htools t eq_refl). specialize (Hui u eq_refl).
        destruct (region_x t <=? region_x u);
          [destruct (region_x t =? area_x area);
           [destruct (region_x u =? region_x t + region_width t)|]
          |destruct (region_x u =? area_x area);
           [destruct (region_x t =? region_x u + region_width u)|]];
          simpl; lia.
      - specialize (Htools t eq_refl).
        destruct (region_x t =? area_x area); simpl; lia.
      - specialize (Hui u eq_refl).
        destruct (region_x u =? area_x area); simpl; lia.
      - simpl. lia. }
    specialize (Hlr _ eq_refl).
    destruct (match tools, ui with
              | Some _, Some _ => _ | Some _, None => _
              | None, Some _ => _ | None, None => _ end) as [left_width right_width].
    cbn [fst snd] in Hlr. repeat split; try lia; intros; discriminate.
  - repeat split; try lia; intros; discriminate.
Qed.

Lemma get_region_rect_on_v3d_window_witness :
  let '(xmin, ymin, xmax, ymax) :=
    get_region_rect_on_v3d (sample_context "REGION" false) sample_view
                           sample_window_region in
  let '(wx0, _, wx1, _) := get_window_region_rect sample_view in
  ymin = region_y sample_window_region
  /\ ymax = region_y sample_window_region
            + region_height sample_window_region - 1
  /\ wx0 <= xmin /\ xmax <= wx1
  /\ (ctx_use_region_overlap (sample_context "REGION" false) = true ->
      area_x sample_view <= xmin
      /\ xmax <= area_x sample_view + area_width sample_view - 1)
  /\ (ctx_use_region_overlap (sample_context "REGION" false) = false ->
      xmin = wx0 /\ xmax = wx1).
Proof.
  apply (get_region_rect_on_v3d_window (sample_context "REGION" false)
           sample_view sample_window_region).
  reflexivity.
Defined.

Lemma getitem_nth (l : list Q) (i : nat) :
  (i < List.length l)%nat -> getitem l i = Ok (nth i l 0%Q).
Proof.
  intros Hi. unfold getitem. now rewrite (nth_error_nth' l 0%Q Hi).
Qed.

Lemma intersect_aabb_range_axes (idx : list nat) (min1 max1 min2 max2 : list Q) :
  (forall i, In i idx ->
             (i < List.length min1 /\ i < List.length max1
              /\ i < List.length min2 /\ i < List.length max2)%nat) ->
  intersect_aabb_range idx min1 max1 min2 max2
  = Ok (forallb (axis_overlap min1 max1 min2 max2) idx).
Proof.
  induction idx as [|i idx IH]; intros Hidx; [reflexivity|].
  destruct (Hidx i (or_introl eq_refl)) as [H1 [H2 [H3 H4]]].
  cbn [intersect_aabb_range forallb]. unfold axis_overlap at 1.
  rewrite (getitem_nth max1 i H2), (getitem_nth min2 i H3). cbn [rbind].
  destruct (Qltb (nth i max1 0%Q) (nth i min2 0%Q)); [reflexivity|].
  rewrite (getitem_nth max2 i H4), (getitem_nth min1 i H1). cbn [rbind].
  destruct (Qltb (nth i max2 0%Q) (nth i min1 0%Q)); [reflexivity|].
  cbn [negb andb]. apply IH. intros j Hj. apply Hidx. now right.
Qed.

Lemma forallb_pointwise {A} (f g : A -> bool) (l : list A) :
  (forall x, f x = g x) -> forallb f l = forallb g l.
Proof.
  intros Hfg. induction l as [|x l IH]; simpl; [reflexivity|].
  now rewrite Hfg, IH.
Qed.

Lemma axis_overlap_iff (min1 max1 min2 max2 : list Q) (i : nat) :
  axis_overlap min1 max1 min2 max2 i = true
  <-> (nth i min2 0 <= nth i max1 0 /\ nth i min1 0 <= nth i max2 0)%Q.
Proof.
  unfold axis_overlap, Qltb. rewrite andb_true_iff, !negb_involutive.
  now rewrite !Qle_bool_iff.
Qed.

(** X3.  For two boxes given by coordinate lists of one common length,
    [intersect_aabb] does not raise, gives the same answer when the two
    boxes are exchanged, and answers [True] exactly when on every axis
    each box starts no later than the other ends (touching boxes
    intersect). *)
Theorem intersect_aabb_same_dimension (min1 max1 min2 max2 : list Q) :
  List.length max1 = List.length min1 ->
  List.length min2 = List.length min1 ->
  List.length max2 = List.length min1 ->
  exists b,
    intersect_aabb min1 max1 min2 max2 = Ok b
    /\ intersect_aabb min2 max2 min1 max1 = Ok b
    /\ (b = true <->
        forall i, (i < List.length min1)%nat ->
                  (nth i min2 0 <= nth i max1 0
                   /\ nth i min1 0 <= nth i max2 0)%Q).
Proof.
  intros H1 H2 H3.
  exists (forallb (axis_overlap min1 max1 min2 max2)
                  (seq 0 (List.length min1))).
  split; [|split].
  - unfold intersect_aabb. apply intersect_aabb_range_axes.
    intros i Hi. apply in_seq in Hi. lia.
  - unfold intersect_aabb. rewrite H2.
    rewrite intersect_aabb_range_axes
      by (intros i Hi; apply in_seq in Hi; lia).
    f_equal. apply forallb_pointwise. intros i.
    unfold axis_overlap. apply andb_comm.
  - rewrite forallb_forall. split.
    + intros Hall i Hi. apply axis_overlap_iff. apply Hall.
      apply in_seq. lia.
    + intros Hall i Hi. apply axis_overlap_iff. apply Hall.
      apply in_seq in Hi. lia.
Qed.

Lemma intersect_aabb_same_dimension_witness :
  exists b,
    (intersect_aabb [0; 0] [4; 4] [4; 2] [9; 3])%Q = Ok b
    /\ (intersect_aabb [4; 2] [9; 3] [0; 0] [4; 4])%Q = Ok b
    /\ (b = true <->
        forall i, (i < List.length ([0; 0])%Q)%nat ->
                  (nth i [4; 2] 0 <= nth i [4; 4] 0
                   /\ nth i [0; 0] 0 <= nth i [9; 3] 0)%Q).
Proof.
  apply (intersect_aabb_same_dimension ([0; 0])%Q ([4; 4])%Q ([4; 2])%Q
           ([9; 3])%Q);
    reflexivity.
Defined.

(** ** The corner circles of [draw_rounded_box] *)

(** X4.  [circle_verts_num] returns within its eight rounds, and what it
    returns is the first of 32, 28, ..., 4 for which the test of the loop
    (in binary64: a segment of the circle is longer than the threshold of
    two pixels) succeeds, or 1 when it succeeds for none: never zero, so
    the division by it that follows is defined. *)
Theorem circle_verts_num_first_candidate (r : float) :
  exists n,
    circle_verts_num r = Some n
    /\ In n [32; 28; 24; 20; 16; 12; 8; 4; 1]
    /\ (n <> 1 -> segment_exceeds_threshold r n = true)
    /\ (forall m, In m [32; 28; 24; 20; 16; 12; 8; 4] -> n < m ->
                  segment_exceeds_threshold r m = false).
Proof.
  unfold circle_verts_num.
  cbn [circle_verts_num_loop].
  fold (segment_exceeds_threshold r 32).
  destruct (segment_exceeds_threshold r 32) eqn:E32.
  { exists 32. repeat split; [simpl; auto | intros _; exact E32|].
    intros m Hm Hlt. simpl in Hm. lia. }
  cbn [Z.sub Z.add Z.opp Z.pos_sub Z.ltb Z.compare Pos.compare
       Pos.compare_cont Pos.pred_double Z.succ_double Z.pred_double
       Z.double].
  fold (segment_exceeds_threshold r 28).
  destruct (segment_exceeds_threshold r 28) eqn:E28.
  { exists 28. repeat split; [simpl; auto | intros _; exact E28|].
    intros m Hm Hlt. simpl in Hm.
    destruct Hm as [<-|Hm]; [assumption|lia]. }
  cbn [Z.sub Z.add Z.opp Z.pos_sub Z.ltb Z.compare Pos.compare
       Pos.compare_cont Pos.pred_double Z.succ_double Z.pred_double
       Z.double].
  fold (segment_exceeds_threshold r 24).
  destruct (segment_exceeds_threshold r 24) eqn:E24.
  { exists 24. repeat split; [simpl; auto 10 | intros _; exact E24|].
    intros m Hm Hlt. simpl in Hm.
    destruct Hm as [<-|[<-|Hm]]; [assumption|assumption|lia]. }
  cbn [Z.sub Z.add Z.opp Z.pos_sub Z.ltb Z.compare Pos.compare
       Pos.compare_cont Pos.pred_double Z.succ_double Z.pred_double
       Z.double].
  fold (segment_exceeds_threshold r 20).
  destruct (segment_exceeds_threshold r 20) eqn:E20.
  { exists 20. repeat split; [simpl; auto 10 | intros _; exact E20|].
    intros m Hm Hlt. simpl in Hm.
    destruct Hm as [<-|[<-|[<-|Hm]]]; try assumption; lia. }
  cbn [Z.sub Z.add Z.opp Z.pos_sub Z.ltb Z.compare Pos.compare
       Pos.compare_cont Pos.pred_double Z.succ_double Z.pred_double
       Z.double].
  fold (segment_exceeds_threshold r 16).
  destruct (segment_exceeds_threshold r 16) eqn:E16.
  { exists 16. repeat split; [simpl; auto 10 | intros _; exact E16|].
    intros m Hm Hlt. simpl in Hm.
    destruct Hm as [<-|[<-|[<-|[<-|Hm]]]]; try assumption; lia. }
  cbn [Z.sub Z.add Z.opp Z.pos_sub Z.ltb Z.compare Pos.compare
       Pos.compare_cont Pos.pred_double Z.succ_double Z.pred_double
       Z.double].
  fold (segment_exceeds_threshold r 12).
  destruct (segment_exceeds_threshold r 12) eqn:E12.
  { exists 12. repeat split; [simpl; auto 10 | intros _; exact E12|].
    intros m Hm Hlt. simpl in Hm.
    destruct Hm as [<-|[<-|[<-|[<-|[<-|Hm]]]]]; try assumption; lia. }
  cbn [Z.sub Z.add Z.opp Z.pos_sub Z.ltb Z.compare Pos.compare
       Pos.compare_cont Pos.pred_double Z.succ_double Z.pred_double
       Z.double].
  fold (segment_exceeds_threshold r 8).
  destruct (segment_exceeds_threshold r 8) eqn:E8.
  { exists 8. repeat split; [simpl; auto 10 | intros _; exact E8|].
    intros m Hm Hlt. simpl in Hm.
    destruct Hm as [<-|[<-|[<-|[<-|[<-|[<-|Hm]]]]]];
      try assumption; lia. }
  cbn [Z.sub Z.add Z.opp Z.pos_sub Z.ltb Z.compare Pos.compare
       Pos.compare_cont Pos.pred_double Z.succ_double Z.pred_double
       Z.double].
  fold (segment_exceeds_threshold r 4).
  destruct (segment_exceeds_threshold r 4) eqn:E4.
  { exists 4. repeat split; [simpl; auto 10 | intros _; exact E4|].
    intros m Hm Hlt. simpl in Hm.
    destruct Hm as [<-|[<-|[<-|[<-|[<-|[<-|[<-|Hm]]]]]]];
      try assumption; lia. }
  cbn [Z.sub Z.add Z.opp Z.pos_sub Z.ltb Z.compare Pos.compare
       Pos.compare_cont Pos.pred_double Z.succ_double Z.pred_double
       Z.double].
  exists 1. repeat split; [simpl; auto 10 | intros Hn; now elim Hn|].
  intros m Hm _. simpl in Hm.
  destruct Hm as [<-|[<-|[<-|[<-|[<-|[<-|[<-|[<-|[]]]]]]]]]; assumption.
Qed.

(** Two radii at which the binary64 product rounds to exactly the
    threshold, so that the strict test fails where the real product
    would exceed it. *)
Example circle_verts_num_rounding :
  circle_verts_num 0x1.45f306dc9c883p+3%float = Some 28
  /\ circle_verts_num 0x1.45f306dc9c883p+0%float = Some 1.
Proof. split; vm_compute; reflexivity. Qed.

(** ** The region under the mouse *)

Lemma current_region_in_area_spec (x y : Z) (area : Area) (regions : list Region) :
  match current_region_in_area x y area regions with
  | Some (a, region) =>
      a = area /\ In region regions /\ region_contains region x y
  | None => forall region, In region regions -> ~ region_contains region x y
  end.
Proof.
  induction regions as [|region regions IH]; [intros r []|].
  cbn [current_region_in_area].
  destruct ((region_x region <=? x)
            && (x <? region_x region + region_width region)) eqn:Ex;
    [destruct ((region_y region <=? y)
               && (y <? region_y region + region_height region)) eqn:Ey|].
  - split; [reflexivity|]. split; [now left|].
    apply andb_true_iff in Ex. apply andb_true_iff in Ey.
    unfold region_contains. lia.
  - destruct (current_region_in_area x y area regions) as [[a r]|].
    + destruct IH as [-> [Hin Hc]].
      split; [reflexivity|]. split; [now right | exact Hc].
    + intros r [<- | Hr]; [|now apply IH].
      apply andb_false_iff in Ey. unfold region_contains. lia.
  - destruct (current_region_in_area x y area regions) as [[a r]|].
    + destruct IH as [-> [Hin Hc]].
      split; [reflexivity|]. split; [now right | exact Hc].
    + intros r [<- | Hr]; [|now apply IH].
      apply andb_false_iff in Ex. unfold region_contains. lia.
Qed.

(** X5.  [current_region] returns a region of the screen, with the area
    it belongs to, whose half-open pixel box contains the mouse position;
    it returns the pair of nones exactly when no region of the screen
    contains the position. *)
Theorem current_region_under_mouse (context : Context) (event : MouseEvent) :
  match current_region context event with
  | Some (area, region) =>
      In area (ctx_screen_areas context)
      /\ In region (area_regions area)
      /\ region_contains region (mouse_x event) (mouse_y event)
  | None =>
      forall area region,
        In area (ctx_screen_areas context) -> In region (area_regions area) ->
        ~ region_contains region (mouse_x event) (mouse_y event)
  end.
Proof.
  unfold current_region.
  induction (ctx_screen_areas context) as [|area areas IH];
    [intros a r []|].
  cbn [current_region_in].
  pose proof (current_region_in_area_spec (mouse_x event) (mouse_y event)
                area (area_regions area)) as Harea.
  destruct (current_region_in_area _ _ area (area_regions area)) as [[a r]|].
  - destruct Harea as [-> [Hin Hc]].
    split; [now left|]. split; assumption.
  - destruct (current_region_in _ _ areas) as [[a r]|].
    + destruct IH as [Ha [Hr Hc]].
      split; [now right|]. split; assumption.
    + intros a r [<- | Ha] Hr; [now apply Harea | now apply (IH a r)].
Qed.

(** ** The anchor picker *)

Lemma handler_key_eqb_refl (k : string * string) : handler_key_eqb k k = true.
Proof.
  unfold handler_key_eqb. now rewrite !String.eqb_refl.
Qed.

Lemma handlers_get_app (k : string * string) (h : Z)
      (l l' : list ((string * string) * Z)) :
  handlers_get k l = Some h -> handlers_get k (l ++ l') = Some h.
Proof.
  induction l as [|[k0 h0] l IH]; simpl; [discriminate|].
  destruct (handler_key_eqb k k0); auto.
Qed.

Lemma handlers_get_new (k : string * string) (h : Z)
      (l : list ((string * string) * Z)) :
  handlers_get k l = None -> handlers_get k (l ++ [(k, h)]) = Some h.
Proof.
  induction l as [|[k0 h0] l IH]; simpl.
  - now rewrite handler_key_eqb_refl.
  - destruct (handler_key_eqb k k0); [discriminate | exact IH].
Qed.

Lemma picker_add_regions_registers (space_type : string)
      (regions : list Region) :
  forall ps,
    let ps' := picker_add_regions space_type regions ps in
    (forall k h, handlers_get k (picker_handles (ps_picker ps)) = Some h ->
                 handlers_get k (picker_handles (ps_picker ps')) = Some h)
    /\ (forall region,
           In region regions -> region_type region <> "" ->
           exists h,
             handlers_get (space_type, region_type region)
                          (picker_handles (ps_picker ps')) = Some h).
Proof.
  induction regions as [|region regions IH]; intros ps ps'; subst ps'.
  - split; [auto | intros r []].
  - cbn [picker_add_regions].
    destruct (String.eqb (region_type region) "") eqn:Et; cbn [negb].
    + destruct (IH ps) as [Hkeep Hreg]. split; [exact Hkeep|].
      intros r [<- | Hr] Hne; [|now apply Hreg].
      apply String.eqb_eq in Et. contradiction.
    + destruct (handlers_get (space_type, region_type region)
                             (picker_handles (ps_picker ps))) as [h|] eqn:Eh.
      * destruct (IH ps) as [Hkeep Hreg]. split; [exact Hkeep|].
        intros r [<- | Hr] Hne; [|now apply Hreg].
        exists h. now apply Hkeep.
      * cbn [host_call_token].
        destruct (IH (mkPickerState
                        (snd (host_call_token
                                (space_draw_handler_add space_type
                                   (region_type region)) (ps_state ps)))
                        (mkPicker
                           (picker_handles (ps_picker ps)
                            ++ [((space_type, region_type region),
                                 host_next_token (ps_state ps))])
                           (picker_area_prev (ps_picker ps))
                           (picker_region (ps_picker ps)))))
          as [Hkeep Hreg].
        cbn [ps_picker picker_handles] in Hkeep. split.
        -- intros k h Hk. apply Hkeep. now apply handlers_get_app.
        -- intros r [<- | Hr] Hne; [|now apply Hreg].
           exists (host_next_token (ps_state ps)). apply Hkeep.
           now apply handlers_get_new.
Qed.

Lemma picker_add_areas_registers (H : Host) (areas : list Area) :
  forall ps,
    (forall k h, handlers_get k (picker_handles (ps_picker ps)) = Some h ->
                 handlers_get k (picker_handles
                                   (ps_picker (snd (picker_add_areas H areas ps))))
                 = Some h)
    /\ (fst (picker_add_areas H areas ps) = Ok tt ->
        forall area region,
          In area areas -> In region (area_regions area) ->
          region_type region <> "" ->
          exists space_type h,
            assoc_string (area_type area) (SPACE_TYPES H) = Some space_type
            /\ handlers_get (space_type, region_type region)
                 (picker_handles
                    (ps_picker (snd (picker_add_areas H areas ps))))
               = Some h)
    /\ (fst (picker_add_areas H areas ps) = Ok tt
        \/ fst (picker_add_areas H areas ps) = Raise KeyError)
    /\ (fst (picker_add_areas H areas ps) = Ok tt <->
        forall area, In area areas ->
                     assoc_string (area_type area) (SPACE_TYPES H) <> None).
Proof.
  induction areas as [|area areas IH]; intros ps.
  - simpl. split; [auto|]. split; [intros _ a r []|]. split; [now left|].
    split; [intros _ a [] | reflexivity].
  - cbn [picker_add_areas].
    destruct (assoc_string (area_type area) (SPACE_TYPES H))
      as [space_type|] eqn:Es.
    + destruct (picker_add_regions_registers space_type (area_regions area) ps)
        as [Hkeep0 Hreg0].
      destruct (IH (picker_add_regions space_type (area_regions area) ps))
        as [Hkeep [Hreg [Hexn Hiff]]].
      split; [intros k h Hk; now apply Hkeep, Hkeep0|].
      split; [|split; [exact Hexn|]].
      * intros Hok a r [<- | Ha] Hr Hne; [|now apply (Hreg Hok a r)].
        destruct (Hreg0 r Hr Hne) as [h Hh].
        exists space_type, h. split; [exact Es | now apply Hkeep].
      * rewrite Hiff. split.
        -- intros Hall a [<- | Ha]; [congruence | now apply Hall].
        -- intros Hall a Ha. apply Hall. now right.
    + cbn [fst snd]. split; [auto|]. split; [discriminate|].
      split; [now right|]. split; [discriminate|].
      intros Hall. now elim (Hall area (or_introl eq_refl)).
Qed.

(** X6.  The picker's [draw_handler_add] either returns or raises
    [KeyError], and returns exactly when every area type of the screen
    is in [SPACE_TYPES].  When it returns, every region of the screen
    with a non-empty type has a handler registered under (its area's
    space type, its region type); in both cases the handlers registered
    before keep their handles. *)
Theorem picker_draw_handler_add_covers
        (H : Host) (context : Context) (ps : PickerState) :
  let r := fst (picker_draw_handler_add H context ps) in
  let ps' := snd (picker_draw_handler_add H context ps) in
  (r = Ok tt \/ r = Raise KeyError)
  /\ (r = Ok tt <->
      forall area, In area (ctx_screen_areas context) ->
                   assoc_string (area_type area) (SPACE_TYPES H) <> None)
  /\ (forall k h,
         handlers_get k (picker_handles (ps_picker ps)) = Some h ->
         handlers_get k (picker_handles (ps_picker ps')) = Some h)
  /\ (r = Ok tt ->
      forall area region,
        In area (ctx_screen_areas context) -> In region (area_regions area) ->
        region_type region <> "" ->
        exists space_type h,
          assoc_string (area_type area) (SPACE_TYPES H) = Some space_type
          /\ handlers_get (space_type, region_type region)
                          (picker_handles (ps_picker ps')) = Some h).
Proof.
  intros r ps'. subst r ps'. unfold picker_draw_handler_add.
  destruct (picker_add_areas_registers H (ctx_screen_areas context) ps)
    as [Hkeep [Hreg [Hexn Hiff]]].
  repeat split; try assumption; apply Hiff.
Qed.

Lemma picker_draw_handler_add_covers_witness :
  let r := fst (picker_draw_handler_add sample_host
                  (sample_context "WINDOW" false) sample_picker_state) in
  let ps' := snd (picker_draw_handler_add sample_host
                    (sample_context "WINDOW" false) sample_picker_state) in
  r = Ok tt
  /\ exists space_type h,
       assoc_string (area_type sample_view) (SPACE_TYPES sample_host)
       = Some space_type
       /\ handlers_get (space_type, region_type sample_window_region)
                       (picker_handles (ps_picker ps')) = Some h.
Proof.
  intros r ps'.
  assert (Hr : r = Ok tt) by reflexivity.
  split; [exact Hr|].
  destruct (picker_draw_handler_add_covers sample_host
              (sample_context "WINDOW" false) sample_picker_state)
    as [_ [_ [_ Hreg]]].
  apply (Hreg Hr sample_view sample_window_region).
  - simpl. auto.
  - simpl. auto.
  - discriminate.
Defined.

Lemma picker_remove_fold (entries : list ((string * string) * Z)) (s : State) :
  fold_left
    (fun s '((space_type, region_type), handle) =>
       host_call (space_draw_handler_remove space_type handle region_type) s)
    entries s
  = log_calls
      (map (fun '((space_type, region_type), handle) =>
              space_draw_handler_remove space_type handle region_type)
           entries) s.
Proof.
  revert s. induction entries as [|[[st rt] h] entries IH]; intros s;
    [reflexivity|].
  cbn [fold_left map]. rewrite IH. reflexivity.
Qed.

Lemma picker_draw_handler_remove_state (ps : PickerState) :
  ps_state (picker_draw_handler_remove ps)
  = log_calls
      (map (fun '((space_type, region_type), handle) =>
              space_draw_handler_remove space_type handle region_type)
           (picker_handles (ps_picker ps))) (ps_state ps).
Proof.
  unfold picker_draw_handler_remove. cbn [ps_state].
  apply picker_remove_fold.
Qed.

Lemma picker_draw_handler_remove_calls (ps : PickerState) (st rt : string)
      (h : Z) :
  In ((st, rt), h) (picker_handles (ps_picker ps)) ->
  In (space_draw_handler_remove st h rt)
     (host_calls (ps_state (picker_draw_handler_remove ps))).
Proof.
  intros Hin. rewrite picker_draw_handler_remove_state, log_calls_eq.
  cbn [host_calls]. apply in_or_app. right. apply in_map_iff.
  exists ((st, rt), h). split; [reflexivity | exact Hin].
Qed.

(** X7.  A confirming press ('LEFTMOUSE', 'SPACE', 'RET' or
    'NUMPAD_ENTER' with value 'PRESS') over a region ends the picker with
    'FINISHED': the anchor becomes the context's window with the area,
    the active space of that area and the type of the region under the
    mouse; every draw handler of the picker is removed from the host and
    its registry is emptied.  The running flag, the histories and the
    registries of the display operator are left alone. *)
Theorem picker_modal_confirms
        (context : Context) (event : MouseEvent) (ps : PickerState)
        (area : Area) (region : Region) :
  current_region context event = Some (area, region) ->
  In (event_type (mouse_event event))
     ["LEFTMOUSE"; "SPACE"; "RET"; "NUMPAD_ENTER"] ->
  event_value (mouse_event event) = "PRESS" ->
  let ps' := snd (picker_modal context event ps) in
  fst (picker_modal context event ps) = Ok FINISHED
  /\ origin (ps_state ps')
     = mkOrigin (Some (window_ptr (ctx_window context)))
                (Some (area_ptr area))
                (Some (space_ptr (area_spaces_active area)))
                (region_type region)
  /\ picker_handles (ps_picker ps') = []
  /\ (forall st rt h,
         In ((st, rt), h) (picker_handles (ps_picker ps)) ->
         In (space_draw_handler_remove st h rt) (host_calls (ps_state ps')))
  /\ running (ps_state ps') = running (ps_state ps)
  /\ event_history (ps_state ps') = event_history (ps_state ps)
  /\ timers (ps_state ps') = timers (ps_state ps)
  /\ handlers (ps_state ps') = handlers (ps_state ps).
Proof.
  intros Hfound Htype Hvalue ps'. subst ps'. unfold picker_modal.
  rewrite Hfound. apply str_in_In in Htype. rewrite Htype, Hvalue.
  cbn [String.eqb Ascii.eqb Bool.eqb andb fst snd].
  split; [reflexivity|].
  split; [rewrite picker_draw_handler_remove_state, log_calls_eq; reflexivity|].
  split; [reflexivity|].
  split; [intros st rt h Hin; now apply picker_draw_handler_remove_calls|].
  rewrite picker_draw_handler_remove_state, log_calls_eq.
  destruct (picker_area_prev (ps_picker ps)); repeat split.
Qed.

Lemma picker_modal_confirms_witness :
  let ps' := snd (picker_modal (sample_context "WINDOW" false)
                               (click "LEFTMOUSE" 5 5) sample_picker_state) in
  fst (picker_modal (sample_context "WINDOW" false) (click "LEFTMOUSE" 5 5)
                    sample_picker_state) = Ok FINISHED
  /\ origin (ps_state ps')
     = mkOrigin (Some (window_ptr (ctx_window (sample_context "WINDOW" false))))
                (Some (area_ptr sample_view))
                (Some (space_ptr (area_spaces_active sample_view)))
                (region_type sample_window_region)
  /\ picker_handles (ps_picker ps') = []
  /\ (forall st rt h,
         In ((st, rt), h) (picker_handles (ps_picker sample_picker_state)) ->
         In (space_draw_handler_remove st h rt) (host_calls (ps_state ps')))
  /\ running (ps_state ps') = running (ps_state sample_picker_state)
  /\ event_history (ps_state ps') = event_history (ps_state sample_picker_state)
  /\ timers (ps_state ps') = timers (ps_state sample_picker_state)
  /\ handlers (ps_state ps') = handlers (ps_state sample_picker_state).
Proof.
  apply (picker_modal_confirms (sample_context "WINDOW" false)
           (click "LEFTMOUSE" 5 5) sample_picker_state sample_view
           sample_window_region).
  - reflexivity.
  - simpl. auto.
  - reflexivity.
Defined.

(** X8.  A confirming press while the mouse is over no region raises
    [AttributeError] (the area is none).  By then the window field of the
    anchor has already been overwritten with the context's window; the
    other three anchor fields keep their values, and the picker's draw
    handlers are neither removed from the host nor from its registry. *)
Theorem picker_modal_confirm_outside
        (context : Context) (event : MouseEvent) (ps : PickerState) :
  current_region context event = None ->
  In (event_type (mouse_event event))
     ["LEFTMOUSE"; "SPACE"; "RET"; "NUMPAD_ENTER"] ->
  event_value (mouse_event event) = "PRESS" ->
  let ps' := snd (picker_modal context event ps) in
  fst (picker_modal context event ps) = Raise AttributeError
  /\ origin_window (origin (ps_state ps'))
     = Some (window_ptr (ctx_window context))
  /\ origin_area (origin (ps_state ps')) = origin_area (origin (ps_state ps))
  /\ origin_space (origin (ps_state ps')) = origin_space (origin (ps_state ps))
  /\ origin_region_type (origin (ps_state ps'))
     = origin_region_type (origin (ps_state ps))
  /\ picker_handles (ps_picker ps') = picker_handles (ps_picker ps)
  /\ (forall st h rt,
         In (space_draw_handler_remove st h rt) (host_calls (ps_state ps')) ->
         In (space_draw_handler_remove st h rt) (host_calls (ps_state ps))).
Proof.
  intros Hfound Htype Hvalue ps'. subst ps'. unfold picker_modal.
  rewrite Hfound. apply str_in_In in Htype. rewrite Htype, Hvalue.
  cbn [String.eqb Ascii.eqb Bool.eqb andb fst snd ps_state ps_picker
       picker_handles].
  destruct (picker_area_prev (ps_picker ps)) as [area_prev|];
    repeat (split; [reflexivity|]).
  - intros st h rt Hin. cbn in Hin. apply in_app_or in Hin.
    destruct Hin as [Hin | [Heq | []]]; [exact Hin | discriminate].
  - intros st h rt Hin. exact Hin.
Qed.

Lemma picker_modal_confirm_outside_witness :
  let ps' := snd (picker_modal (sample_context "WINDOW" false)
                               (click "LEFTMOUSE" 500 500)
                               sample_picker_state) in
  fst (picker_modal (sample_context "WINDOW" false) (click "LEFTMOUSE" 500 500)
                    sample_picker_state) = Raise AttributeError
  /\ origin_window (origin (ps_state ps'))
     = Some (window_ptr (ctx_window (sample_context "WINDOW" false)))
  /\ origin_area (origin (ps_state ps'))
     = origin_area (origin (ps_state sample_picker_state))
  /\ origin_space (origin (ps_state ps'))
     = origin_space (origin (ps_state sample_picker_state))
  /\ origin_region_type (origin (ps_state ps'))
     = origin_region_type (origin (ps_state sample_picker_state))
  /\ picker_handles (ps_picker ps')
     = picker_handles (ps_picker sample_picker_state)
  /\ (forall st h rt,
         In (space_draw_handler_remove st h rt) (host_calls (ps_state ps')) ->
         In (space_draw_handler_remove st h rt)
            (host_calls (ps_state sample_picker_state))).
Proof.
  apply (picker_modal_confirm_outside (sample_context "WINDOW" false)
           (click "LEFTMOUSE" 500 500) sample_picker_state).
  - reflexivity.
  - simpl. auto.
  - reflexivity.
Defined.

(** X9.  Any event other than a confirming press leaves the anchor as it
    was.  'RIGHTMOUSE' and 'ESC' end the picker with 'CANCELLED' and an
    empty handler registry; every other such event keeps it running with
    its registry unchanged and remembers the area under the mouse as
    [area_prev]. *)
Theorem picker_modal_keeps_origin
        (context : Context) (event : MouseEvent) (ps : PickerState) :
  ~ (In (event_type (mouse_event event))
        ["LEFTMOUSE"; "SPACE"; "RET"; "NUMPAD_ENTER"]
     /\ event_value (mouse_event event) = "PRESS") ->
  let ps' := snd (picker_modal context event ps) in
  origin (ps_state ps') = origin (ps_state ps)
  /\ (In (event_type (mouse_event event)) ["RIGHTMOUSE"; "ESC"] ->
      fst (picker_modal context event ps) = Ok CANCELLED
      /\ picker_handles (ps_picker ps') = [])
  /\ (~ In (event_type (mouse_event event)) ["RIGHTMOUSE"; "ESC"] ->
      fst (picker_modal context event ps) = Ok RUNNING_MODAL
      /\ picker_handles (ps_picker ps') = picker_handles (ps_picker ps)
      /\ picker_area_prev (ps_picker ps')
         = option_map fst (current_region context event)).
Proof.
  intros Hnot ps'. subst ps'. unfold picker_modal.
  assert (Horigin :
            forall found : option (Area * Region),
              origin
                match found with
                | Some (area, _) =>
                    host_call (area_tag_redraw (area_ptr area))
                      match picker_area_prev (ps_picker ps) with
                      | Some area_prev =>
                          host_call (area_tag_redraw (area_ptr area_prev))
                                    (ps_state ps)
                      | None => ps_state ps
                      end
                | None =>
                    match picker_area_prev (ps_picker ps) with
                    | Some area_prev =>
                        host_call (area_tag_redraw (area_ptr area_prev))
                                  (ps_state ps)
                    | None => ps_state ps
                    end
                end = origin (ps_state ps)).
  { intros [[a r]|]; destruct (picker_area_prev (ps_picker ps)); reflexivity. }
  destruct (str_in (event_type (mouse_event event))
                   ["LEFTMOUSE"; "SPACE"; "RET"; "NUMPAD_ENTER"]) eqn:Ec.
  - destruct (String.eqb (event_value (mouse_event event)) "PRESS") eqn:Ev.
    + exfalso. apply Hnot. split; [now apply str_in_In | now apply String.eqb_eq].
    + cbn [fst snd ps_state ps_picker picker_handles picker_area_prev].
      split; [apply Horigin|]. split.
      * intros Hcancel. exfalso. apply str_in_In in Ec.
        simpl in Ec, Hcancel.
        destruct Hcancel as [Hc | [Hc | []]]; rewrite <- Hc in Ec;
          intuition discriminate.
      * intros _. repeat split.
  - destruct (str_in (event_type (mouse_event event)) ["RIGHTMOUSE"; "ESC"])
      eqn:Ex.
    + cbn [fst snd]. rewrite picker_draw_handler_remove_state, log_calls_eq.
      cbn [origin ps_state]. split; [apply Horigin|]. split.
      * intros _. split; reflexivity.
      * intros Hn. exfalso. apply Hn. now apply str_in_In.
    + cbn [fst snd ps_state ps_picker picker_handles picker_area_prev].
      split; [apply Horigin|]. split.
      * intros Hcancel. apply str_in_In in Hcancel. congruence.
      * intros _. repeat split.
Qed.

Lemma picker_modal_keeps_origin_witness :
  let ps' := snd (picker_modal (sample_context "WINDOW" false)
                               (click "ESC" 5 5) sample_picker_state) in
  origin (ps_state ps') = origin (ps_state sample_picker_state)
  /\ fst (picker_modal (sample_context "WINDOW" false) (click "ESC" 5 5)
                       sample_picker_state) = Ok CANCELLED
  /\ picker_handles (ps_picker ps') = [].
Proof.
  intros ps'.
  destruct (picker_modal_keeps_origin (sample_context "WINDOW" false)
              (click "ESC" 5 5) sample_picker_state) as [Ho [Hc _]].
  - intros [Hin _]. simpl in Hin. intuition discriminate.
  - split; [exact Ho|]. apply Hc. simpl. auto.
Defined.

(** ** The modal loop: what a call touches and what it returns *)

Lemma defaultdict_add_records (k v : Z) (d : list (Z * list Z)) :
  (exists vs, assoc_ptr k (defaultdict_add k v d) = Some vs /\ In v vs)
  /\ (forall k0 vs0,
         assoc_ptr k0 d = Some vs0 ->
         exists vs1, assoc_ptr k0 (defaultdict_add k v d) = Some vs1
                     /\ incl vs0 vs1).
Proof.
  induction d as [|[k' vs] d IH]; simpl.
  - rewrite Z.eqb_refl. split; [exists [v]; simpl; auto|]. discriminate.
  - destruct (Z.eqb k k') eqn:E.
    + apply Z.eqb_eq in E. subst k'. simpl. rewrite Z.eqb_refl. split.
      * exists (set_add v vs). split; [reflexivity|].
        apply set_add_In. now left.
      * intros k0 vs0. destruct (Z.eqb k0 k).
        -- intros E. injection E as <-. exists (set_add v vs).
           split; [reflexivity|]. intros x Hx. apply set_add_In. now right.
        -- intros E. exists vs0. split; [exact E | apply incl_refl].
    + simpl. rewrite E. destruct IH as [Hnew Hold]. split; [exact Hnew|].
      intros k0 vs0. destruct (Z.eqb k0 k').
      * intros E0. exists vs0. split; [exact E0 | apply incl_refl].
      * apply Hold.
Qed.

Lemma recorded_spaces_add (k v : Z) (s : State) :
  In v (recorded_spaces k
          (set_area_spaces (defaultdict_add k v (area_spaces s)) s))
  /\ (forall k0 p,
         In p (recorded_spaces k0 s) ->
         In p (recorded_spaces k0
                 (set_area_spaces (defaultdict_add k v (area_spaces s)) s))).
Proof.
  unfold recorded_spaces. cbn [area_spaces set_area_spaces].
  destruct (defaultdict_add_records k v (area_spaces s)) as [[vs [E Hin]] Hold].
  split; [now rewrite E|].
  intros k0 p. destruct (assoc_ptr k0 (area_spaces s)) as [vs0|] eqn:E0;
    [|intros []].
  destruct (Hold k0 vs0 E0) as [vs1 [E1 Hincl]]. rewrite E1. apply Hincl.
Qed.

Lemma update_area_spaces_area (area : Area) (spaces : list Space) :
  forall s,
    let s' :=
      fold_left
        (fun s space =>
           set_area_spaces
             (defaultdict_add (area_ptr area) (space_ptr space)
                              (area_spaces s)) s) spaces s in
    (forall space, In space spaces ->
                   In (space_ptr space) (recorded_spaces (area_ptr area) s'))
    /\ (forall k0 p, In p (recorded_spaces k0 s) ->
                     In p (recorded_spaces k0 s')).
Proof.
  induction spaces as [|space spaces IH]; intros s s'; subst s'.
  - split; [intros sp [] | auto].
  - cbn [fold_left].
    destruct (recorded_spaces_add (area_ptr area) (space_ptr space) s)
      as [Hnew Hold].
    destruct (IH (set_area_spaces
                    (defaultdict_add (area_ptr area) (space_ptr space)
                                     (area_spaces s)) s)) as [Hall Hmono].
    split.
    + intros sp [<- | Hsp]; [now apply Hmono | now apply Hall].
    + intros k0 p Hp. now apply Hmono, Hold.
Qed.

(** X10.  After [modal]'s update of [area_spaces], every space of every
    area on the screen is recorded under its area, and nothing recorded
    before is lost: the map only grows. *)
Theorem update_area_spaces_records (context : Context) (s : State) :
  let s' := update_area_spaces context s in
  (forall area space,
      In area (ctx_screen_areas context) ->
      In space (area_spaces_list area) ->
      In (space_ptr space) (recorded_spaces (area_ptr area) s'))
  /\ (forall area_p space_p,
         In space_p (recorded_spaces area_p s) ->
         In space_p (recorded_spaces area_p s')).
Proof.
  unfold update_area_spaces. revert s.
  induction (ctx_screen_areas context) as [|area areas IH]; intros s.
  - split; [intros a sp [] | auto].
  - cbn [fold_left].
    destruct (update_area_spaces_area area (area_spaces_list area) s)
      as [Hall Hmono].
    destruct (IH (fold_left
                    (fun s space =>
                       set_area_spaces
                         (defaultdict_add (area_ptr area) (space_ptr space)
                                          (area_spaces s)) s)
                    (area_spaces_list area) s)) as [Hrest Hmono'].
    split.
    + intros a sp [<- | Ha] Hsp; [now apply Hmono', Hall | now apply Hrest].
    + intros k0 p Hp. now apply Hmono', Hmono.
Qed.

Lemma update_area_spaces_records_witness :
  In (space_ptr (mkSpace 22))
     (recorded_spaces (area_ptr sample_replaced_view)
        (update_area_spaces (sample_context_replaced "AREA" false)
                            sample_tick1)).
Proof.
  apply (proj1 (update_area_spaces_records
                  (sample_context_replaced "AREA" false) sample_tick1)
               sample_replaced_view (mkSpace 22)).
  - simpl. auto.
  - simpl. auto.
Defined.




(** X12.  A call of [modal], returned or raised, leaves the running
    flag, the timer registry and the anchor as they were. *)
Theorem modal_keeps_registration
        (H : Host) (context : Context) (event : Event) (clock : Clock)
        (s : State) :
  let s' := exec (modal H context event clock) s in
  running s' = running s /\ timers s' = timers s /\ origin s' = origin s.
Proof.
  set (P := fun s' : State =>
              running s' = running s /\ timers s' = timers s
              /\ origin s' = origin s).
  assert (Hm : preserves P (modal H context event clock)).
  { unfold modal.
    apply preserves_bind; [apply preserves_get|]. intros s0.
    destruct (negb (running s0)); [apply preserves_ret|].
    destruct (String.eqb (event_type event) ""); [apply preserves_ret|].
    apply preserves_bind; [apply preserves_lift|]. intros ty.
    apply preserves_bind.
    { apply preserves_modify. apply update_area_spaces_keeps.
      intros v s1 Hs. exact Hs. }
    intros _. apply preserves_bind.
    { apply update_hold_modifier_keys_keeps. intros v s1 Hs. exact Hs. }
    intros _. apply preserves_bind; [apply preserves_get|]. intros s1.
    apply preserves_bind; [apply preserves_lift|]. intros ignore.
    apply preserves_bind.
    { destruct (negb ignore); [apply preserves_lift | apply preserves_ret]. }
    intros is_mod.
    apply preserves_bind.
    { destruct (negb ignore && negb is_mod
                && String.eqb (event_value event) "PRESS");
        [|apply preserves_ret].
      apply preserves_modify. intros s2 Hs. exact Hs. }
    intros _.
    apply preserves_bind; [apply preserves_modify; intros s2 Hs; exact Hs|].
    intros _.
    apply preserves_bind.
    { apply update_operator_history_keeps. intros v s2 Hs. exact Hs. }
    intros _.
    apply preserves_bind; [|intros _; apply preserves_ret].
    apply redraw_keeps_others; intros v s2 Hs; exact Hs. }
  apply (preserves_exec P _ s Hm). unfold P. auto.
Qed.

(** ** Events that leave no entry *)

Lemma bind_ret {A B} (a : A) (k : A -> M B) (s : State) :
  bind (ret a) k s = k a s.
Proof. reflexivity. Qed.

Lemma modal_tail_keeps_event_history (H : Host) (context : Context)
      (event : Event) (clock : Clock) (s : State) :
  event_history
    (exec (update_operator_history context (now_modal clock) ;;;
           redraw H context event clock ;;;
           ret PASS_THROUGH) s)
  = event_history s.
Proof.
  apply (preserves_exec (fun s' => event_history s' = event_history s));
    [|reflexivity].
  apply preserves_bind.
  - apply update_operator_history_keeps. intros v s' Hs'. exact Hs'.
  - intros _. apply preserves_bind; [|intros _; apply preserves_ret].
    apply redraw_keeps_others; intros v s' Hs'; exact Hs'.
Qed.

(** X13.  While the operator runs, an event that is ignorable (mouse
    moves, timer ticks, mouse buttons when mouse events are hidden), a
    modifier key, or not a press adds no entry: the event history after
    [modal] is the old one with the entries older than the display time
    removed. *)
Theorem modal_unrecorded_event
        (H : Host) (context : Context) (event : Event) (clock : Clock)
        (s : State) (ignore : bool) :
  running s = true ->
  event_type event <> "" ->
  is_ignore_event H event (Some (ctx_prefs context)) = Ok ignore ->
  ignore = true
  \/ is_modifier_event H event = Ok true
  \/ event_value event <> "PRESS" ->
  event_history (exec (modal H context event clock) s)
  = filter (within_display_time (now_prune clock)
                                (display_time (ctx_prefs context)))
           (event_history s).
Proof.
  intros Hr Hne Hi Hcase.
  pose proof (is_ignore_event_recognised _ _ _ _ Hi) as Hg.
  assert (Hempty : String.eqb (event_type event) "" = false)
    by now apply String.eqb_neq.
  set (s1 := set_hold_modifier_keys
               (if String.eqb (event_type event) WINDOW_DEACTIVATE then []
                else event_mod_keys event)
               (set_hold_modifier_keys [] (update_area_spaces context s))).
  set (mid := set_event_history
                (removed_old_event_history (ctx_prefs context)
                                           (now_prune clock) s1) s1).
  assert (Hrun : modal H context event clock s
                 = (update_operator_history context (now_modal clock) ;;;
                    redraw H context event clock ;;;
                    ret PASS_THROUGH) mid).
  { unfold modal. rewrite bind_get. cbv beta zeta. rewrite Hr. cbn [negb].
    rewrite Hempty, Hg, bind_lift_ok, bind_modify.
    rewrite (bind_ok _ _ _ _ _ (update_hold_modifier_keys_run H event _ Hg)).
    fold s1. rewrite bind_get. cbv beta. rewrite Hi, bind_lift_ok.
    assert (Hskip : forall is_mod : bool,
               (ignore = true \/ is_mod = true
                \/ event_value event <> "PRESS") ->
               negb ignore && negb is_mod
               && String.eqb (event_value event) "PRESS" = false).
    { intros is_mod [-> | [-> | Hv]].
      - reflexivity.
      - now rewrite andb_false_r.
      - apply String.eqb_neq in Hv. rewrite Hv. now rewrite andb_false_r. }
    destruct ignore; cbn [negb].
    - rewrite bind_ret. cbn [andb]. rewrite bind_ret, bind_modify.
      reflexivity.
    - unfold is_modifier_event in *. rewrite Hg in *. cbn [rbind] in *.
      rewrite bind_lift_ok.
      rewrite Hskip.
      + rewrite bind_ret, bind_modify. reflexivity.
      + destruct Hcase as [Hc | [Hc | Hc]]; [discriminate | |auto].
        right. left. now injection Hc.
  }
  unfold exec in *. rewrite Hrun.
  fold (exec (update_operator_history context (now_modal clock) ;;;
              redraw H context event clock ;;; ret PASS_THROUGH) mid).
  rewrite modal_tail_keeps_event_history.
  unfold mid. cbn [event_history set_event_history].
  rewrite removed_old_event_history_filter. f_equal.
  unfold s1. cbn [event_history set_hold_modifier_keys].
  apply (update_area_spaces_keeps
           (fun s' => event_history s' = event_history s));
    [intros v s' Hs'; exact Hs' | reflexivity].
Qed.

Lemma modal_unrecorded_event_witness :
  event_history
    (exec (modal sample_host (sample_context "WINDOW" false)
                 (release "A") (at_time 1))
          (sample_running "WINDOW" false))
  = filter (within_display_time
              (now_prune (at_time 1))
              (display_time (ctx_prefs (sample_context "WINDOW" false))))
           (event_history (sample_running "WINDOW" false)).
Proof.
  apply (modal_unrecorded_event sample_host (sample_context "WINDOW" false)
           (release "A") (at_time 1) (sample_running "WINDOW" false) false).
  - reflexivity.
  - discriminate.
  - reflexivity.
  - right. right. discriminate.
Defined.

(** X14.  With "show mouse events" off, every mouse button, wheel and
    trackpad event is ignorable; with it on, none of them is. *)
Theorem is_ignore_event_mouse
        (H : Host) (event : Event) (prefs : Prefs) :
  EventType_getitem H (event_type event) = Ok (event_type event) ->
  In (event_type event) MOUSE_EVENT_TYPES ->
  is_ignore_event H event (Some prefs)
  = Ok (negb (show_mouse_events prefs)).
Proof.
  intros Hg Hin. unfold is_ignore_event. rewrite Hg. cbn [rbind].
  destruct (show_mouse_events prefs); cbn [negb andb];
    unfold MOUSE_EVENT_TYPES in Hin; simpl in Hin;
    repeat (destruct Hin as [<- | Hin]; [reflexivity|]); destruct Hin.
Qed.

Lemma is_ignore_event_mouse_witness :
  is_ignore_event sample_host (press "LEFTMOUSE" false false)
                  (Some (ctx_prefs (sample_context "WINDOW" false)))
  = Ok (negb (show_mouse_events (ctx_prefs (sample_context "WINDOW" false)))).
Proof.
  apply (is_ignore_event_mouse sample_host (press "LEFTMOUSE" false false)
           (ctx_prefs (sample_context "WINDOW" false))).
  - reflexivity.
  - simpl. auto.
Defined.

(** X15.  The redraw of [modal] is throttled: on an ignorable event it
    does nothing at all when no redraw has happened yet ([prev_time] is
    0) or when less than [TIMER_STEP] (0.1 s) has passed since the last
    one. *)
Theorem redraw_throttled
        (H : Host) (context : Context) (event : Event) (clock : Clock)
        (s : State) :
  is_ignore_event H event (Some (ctx_prefs context)) = Ok true ->
  (prev_time s == 0)%Q \/ (now_modal clock - prev_time s < 1 # 10)%Q ->
  redraw H context event clock s = (Ok tt, s).
Proof.
  intros Hi Hcase. unfold redraw. rewrite bind_get. cbv beta zeta.
  rewrite Hi, bind_lift_ok. cbn [negb].
  destruct (Qeq_bool (prev_time s) 0) eqn:E; cbn [negb].
  - reflexivity.
  - destruct Hcase as [Hz | Hlt].
    + apply Qeq_bool_iff in Hz. congruence.
    + change (cls_getattr "TIMER_STEP") with (@Ok Q (1 # 10)).
      unfold bind, lift, ret. cbv beta iota.
      destruct (Qle_bool (1 # 10) (now_modal clock - prev_time s)) eqn:E';
        [|reflexivity].
      apply Qle_bool_iff in E'. exfalso. revert E'. now apply Qlt_not_le.
Qed.

Lemma redraw_throttled_witness :
  redraw sample_host (sample_context "WINDOW" false)
         (mkEvent "TIMER" "NOTHING" false false false false)
         (at_time 1) (sample_running "WINDOW" false)
  = (Ok tt, sample_running "WINDOW" false).
Proof.
  apply (redraw_throttled sample_host (sample_context "WINDOW" false)
           (mkEvent "TIMER" "NOTHING" false false false false)
           (at_time 1) (sample_running "WINDOW" false)).
  - reflexivity.
  - left. reflexivity.
Defined.

(** ** The operator history *)

Lemma append_operator_run (t : Q) (op : HostOperator) (s : State) :
  append_operator t op s
  = match operator_idname_py op with
    | Some _ =>
        (Ok tt,
         set_operator_history (operator_history s ++ [operator_entry t op]) s)
    | None => (Raise ValueError, s)
    end.
Proof.
  unfold append_operator, operator_entry, operator_idname_py.
  destruct (str_split "_OT_" (op_bl_idname op)) as [|m [|f [|g l]]];
    reflexivity.
Qed.

Lemma set_operator_history_app (l1 l2 : list OperatorEntry) (s : State) :
  set_operator_history
    (operator_history (set_operator_history (operator_history s ++ l1) s)
     ++ l2)
    (set_operator_history (operator_history s ++ l1) s)
  = set_operator_history (operator_history s ++ l1 ++ l2) s.
Proof. destruct s. simpl. now rewrite app_assoc. Qed.

Lemma set_operator_history_same (s : State) :
  set_operator_history (operator_history s) s = s.
Proof. now destruct s. Qed.

(** The appending loop either appends the entry of every operator, or
    stops with [ValueError] at the first malformed identifier. *)
Lemma append_operators_run (t : Q) (ops : list HostOperator) :
  forall s,
    (forallb (fun op => match operator_idname_py op with
                        | Some _ => true
                        | None => false
                        end) ops = true
     /\ for_each ops (append_operator t) s
        = (Ok tt,
           set_operator_history
             (operator_history s ++ map (operator_entry t) ops) s))
    \/ (forallb (fun op => match operator_idname_py op with
                           | Some _ => true
                           | None => false
                           end) ops = false
        /\ fst (for_each ops (append_operator t) s) = Raise ValueError).
Proof.
  induction ops as [|op ops IH]; intros s.
  - left. split; [reflexivity|]. simpl.
    now rewrite app_nil_r, set_operator_history_same.
  - cbn [for_each forallb map]. unfold bind.
    rewrite append_operator_run.
    destruct (operator_idname_py op) as [idname|]; cbn [andb].
    + destruct (IH (set_operator_history
                      (operator_history s ++ [operator_entry t op]) s))
        as [[Hall Hrun] | [Hall Hrun]].
      * left. split; [exact Hall|]. rewrite Hrun.
        now rewrite set_operator_history_app.
      * right. split; [exact Hall | exact Hrun].
    + right. split; reflexivity.
Qed.

Lemma resume_index_none (len : nat) (addr : option Z)
      (reversed : list HostOperator) :
  forall i,
    (forall op, In op reversed -> ptr_eq_opt (op_ptr op) addr = false) ->
    resume_index len i reversed addr = 0%nat.
Proof.
  induction reversed as [|op l IH]; intros i Hno; simpl; [reflexivity|].
  rewrite (Hno op) by now left.
  apply IH. intros o Ho. apply Hno. now right.
Qed.

Lemma resume_index_found (len : nat) (addr : option Z) (op : HostOperator)
      (l1 l2 : list HostOperator) :
  forall i,
    (forall o, In o l1 -> ptr_eq_opt (op_ptr o) addr = false) ->
    ptr_eq_opt (op_ptr op) addr = true ->
    resume_index len i (l1 ++ op :: l2) addr
    = (len - (i + List.length l1))%nat.
Proof.
  induction l1 as [|o l1 IH]; intros i Hno Hop; simpl.
  - rewrite Hop. f_equal. lia.
  - rewrite (Hno o) by now left.
    rewrite IH; [f_equal; lia | | exact Hop].
    intros o' Ho'. apply Hno. now right.
Qed.

Lemma resume_index_le (len : nat) (addr : option Z)
      (reversed : list HostOperator) :
  forall i, (resume_index len i reversed addr <= len - i)%nat.
Proof.
  induction reversed as [|op l IH]; intros i; simpl; [lia|].
  destruct (ptr_eq_opt (op_ptr op) addr); [lia|].
  specialize (IH (S i)). lia.
Qed.

Lemma skipn_past (A : Type) (before : list A) (x : A) (after : list A) :
  skipn (List.length before + 1) (before ++ x :: after) = after.
Proof.
  induction before as [|y before IH]; simpl; [reflexivity | exact IH].
Qed.

Lemma last_n_length (A : Type) (n : nat) (l : list A) :
  (List.length (last_n n l) <= n)%nat.
Proof. unfold last_n. rewrite length_skipn. lia. Qed.

Lemma last_n_short (A : Type) (n : nat) (l : list A) :
  (List.length l <= n)%nat -> last_n n l = l.
Proof.
  intros Hl. unfold last_n.
  replace (List.length l - n)%nat with 0%nat by lia. reflexivity.
Qed.

Lemma last_n_snoc (A : Type) (n : nat) (l : list A) (x : A) :
  (0 < n)%nat -> exists l', last_n n (l ++ [x]) = l' ++ [x].
Proof.
  intros Hn. unfold last_n. rewrite skipn_app, length_app. simpl.
  replace (List.length l + 1 - n - List.length l)%nat with 0%nat by lia.
  simpl. eauto.
Qed.

(** What [update_operator_history] does when it returns. *)
Lemma update_operator_history_returns (context : Context) (t : Q)
      (s : State) (u : unit) :
  fst (update_operator_history context t s) = Ok u ->
  exec (update_operator_history context t) s
  = set_operator_history
      (last_n 32
         (operator_history s
          ++ map (operator_entry t)
               (skipn (resume_index (List.length (ctx_operators context)) 0
                                    (rev (ctx_operators context))
                                    (last_operator_addr s))
                      (ctx_operators context)))) s.
Proof.
  unfold update_operator_history, exec. cbv zeta.
  destruct (ctx_operators context) as [|op ops] eqn:Eops.
  - intros _. rewrite bind_ret. unfold modify. cbn [snd].
    unfold removed_old_operator_history. rewrite skipn_nil. simpl map.
    now rewrite app_nil_r.
  - rewrite <- Eops. unfold bind at 1 3. rewrite bind_get. cbv beta.
    fold (last_operator_addr s).
    destruct (append_operators_run t
                (skipn (resume_index (List.length (ctx_operators context)) 0
                                     (rev (ctx_operators context))
                                     (last_operator_addr s))
                       (ctx_operators context)) s)
      as [[_ Hrun] | [_ Hrun]].
    + rewrite Hrun. intros _. unfold modify. cbn [snd].
      unfold removed_old_operator_history.
      destruct s; reflexivity.
    + destruct (for_each _ _ s) as [[v|e] s0]; simpl in Hrun;
        [discriminate|]. simpl. discriminate.
Qed.

(** X16.  When the operator-history update returns, the history holds at
    most 32 entries: the old ones followed by one entry per operator of
    the host's list that comes after the last recorded one (all of them
    if the last recorded one is not in the list), cut to the last 32. *)
Theorem update_operator_history_appends
        (context : Context) (t : Q) (s : State) (u : unit) :
  fst (update_operator_history context t s) = Ok u ->
  let s' := exec (update_operator_history context t) s in
  (List.length (operator_history s') <= 32)%nat
  /\ ((forall op, In op (ctx_operators context) ->
                  ptr_eq_opt (op_ptr op) (last_operator_addr s) = false) ->
      operator_history s'
      = last_n 32 (operator_history s
                   ++ map (operator_entry t) (ctx_operators context)))
  /\ (forall before op after,
         ctx_operators context = before ++ op :: after ->
         ptr_eq_opt (op_ptr op) (last_operator_addr s) = true ->
         (forall o, In o after ->
                    ptr_eq_opt (op_ptr o) (last_operator_addr s) = false) ->
         operator_history s'
         = last_n 32 (operator_history s ++ map (operator_entry t) after)).
Proof.
  intros Hret s'. subst s'.
  rewrite (update_operator_history_returns _ _ _ _ Hret).
  assert (Hfield : forall l, operator_history (set_operator_history l s) = l)
    by (intros l; now destruct s).
  rewrite Hfield. split; [apply last_n_length|]. split.
  - intros Hno. rewrite resume_index_none; [reflexivity|].
    intros op Hop. apply Hno. now apply in_rev.
  - intros before op after Eops Hop Hafter. rewrite Eops.
    rewrite rev_app_distr. cbn [rev]. rewrite <- app_assoc. cbn [app].
    rewrite resume_index_found; [| |exact Hop].
    + rewrite length_app, length_rev. cbn [List.length].
      replace (List.length before + S (List.length after)
               - (0 + List.length after))%nat
        with (List.length before + 1)%nat by lia.
      now rewrite skipn_past.
    + intros o Ho. apply Hafter. now apply in_rev.
Qed.

Lemma update_operator_history_appends_witness :
  (List.length
     (operator_history
        (exec (update_operator_history
                 (sample_context_operators sample_operators) 1)
              (sample_running "WINDOW" true))) <= 32)%nat.
Proof.
  apply (update_operator_history_appends
           (sample_context_operators sample_operators) 1
           (sample_running "WINDOW" true) tt).
  reflexivity.
Defined.

(** X17.  Rescanning the same non-empty operator list appends nothing:
    once [update_operator_history] has returned, a second call with the
    same list returns and leaves the state as it is. *)
Theorem update_operator_history_idempotent
        (context : Context) (t t' : Q) (s : State) (u : unit) :
  fst (update_operator_history context t s) = Ok u ->
  ctx_operators context <> [] ->
  update_operator_history context t'
    (exec (update_operator_history context t) s)
  = (Ok tt, exec (update_operator_history context t) s).
Proof.
  intros Hret Hne.
  pose proof (update_operator_history_returns _ _ _ _ Hret) as Hs'.
  set (s' := exec (update_operator_history context t) s) in *.
  destruct (exists_last Hne) as [ops0 [lastop Eops]].
  assert (Hfield : forall l, operator_history (set_operator_history l s) = l)
    by (intros l; now destruct s).
  assert (Hlen : (List.length (operator_history s') <= 32)%nat).
  { rewrite Hs', Hfield. apply last_n_length. }
  assert (Hlast : last_operator_addr s' = Some (op_ptr lastop)).
  { unfold last_operator_addr at 1. rewrite Hs', Hfield.
    rewrite Eops, rev_app_distr. cbn [rev app resume_index].
    destruct (ptr_eq_opt (op_ptr lastop) (last_operator_addr s)) eqn:E.
    - rewrite Nat.sub_0_r, skipn_all. simpl map. rewrite app_nil_r.
      unfold last_operator_addr in E.
      destruct (rev (operator_history s)) as [|e l] eqn:Er;
        [discriminate|].
      assert (Eh : operator_history s = rev l ++ [e]).
      { rewrite <- (rev_involutive (operator_history s)), Er. reflexivity. }
      rewrite Eh.
      destruct (last_n_snoc _ 32 (rev l) e) as [l' El']; [lia|].
      rewrite El', rev_app_distr. simpl.
      simpl in E. apply Z.eqb_eq in E. now rewrite E.
    - pose proof (resume_index_le (List.length (ops0 ++ [lastop]))
                    (last_operator_addr s) (rev ops0) 1) as Hj.
      pose proof (length_app ops0 [lastop]) as Hl.
      cbn [List.length] in Hl.
      rewrite skipn_app.
      match goal with
      | |- context [skipn (?j - List.length ops0) [lastop]] =>
          replace (j - List.length ops0)%nat with 0%nat by lia
      end.
      cbn [skipn]. rewrite map_app. cbn [map]. rewrite app_assoc.
      match goal with
      | |- context [last_n 32 (?l ++ [?x])] =>
          destruct (last_n_snoc _ 32 l x) as [l' El']; [lia|]
      end.
      rewrite El', rev_app_distr. reflexivity. }
  unfold update_operator_history. cbv zeta.
  destruct (ctx_operators context) as [|op ops] eqn:Eops'; [congruence|].
  rewrite <- Eops'. unfold bind at 1. rewrite bind_get. cbv beta.
  fold (last_operator_addr s'). rewrite Hlast.
  rewrite Eops', Eops, rev_app_distr. cbn [rev app resume_index ptr_eq_opt].
  rewrite Z.eqb_refl, Nat.sub_0_r, skipn_all. cbn [for_each].
  unfold ret, modify. unfold removed_old_operator_history.
  now rewrite last_n_short, set_operator_history_same.
Qed.

Lemma update_operator_history_idempotent_witness :
  update_operator_history (sample_context_operators sample_operators) 2
    (exec (update_operator_history
             (sample_context_operators sample_operators) 1)
          (sample_running "WINDOW" true))
  = (Ok tt,
     exec (update_operator_history
             (sample_context_operators sample_operators) 1)
          (sample_running "WINDOW" true)).
Proof.
  apply (update_operator_history_idempotent
           (sample_context_operators sample_operators) 1 2
           (sample_running "WINDOW" true) tt).
  - reflexivity.
  - discriminate.
Defined.

(** X18.  An operator to be appended whose [bl_idname] does not split on
    '_OT_' into exactly two parts makes the operator-history update raise
    [ValueError]; with an empty history every operator of the list is to
    be appended. *)
Theorem update_operator_history_malformed
        (context : Context) (t : Q) (s : State) (op : HostOperator) :
  operator_history s = [] ->
  In op (ctx_operators context) ->
  operator_idname_py op = None ->
  fst (update_operator_history context t s) = Raise ValueError.
Proof.
  intros Hh Hin Hop. unfold update_operator_history. cbv zeta.
  destruct (ctx_operators context) as [|op0 ops] eqn:Eops; [destruct Hin|].
  rewrite <- Eops in *. unfold bind at 1. rewrite bind_get. cbv beta.
  rewrite Hh. cbn [rev].
  rewrite resume_index_none by reflexivity. rewrite skipn_0.
  destruct (append_operators_run t (ctx_operators context) s)
    as [[Hall _] | [_ Hrun]].
  - rewrite forallb_forall in Hall. specialize (Hall op Hin).
    rewrite Hop in Hall. discriminate.
  - destruct (for_each _ _ s) as [[v|e] s0]; simpl in *;
      [discriminate | exact Hrun].
Qed.

Lemma update_operator_history_malformed_witness :
  fst (update_operator_history
         (sample_context_operators
            [mkHostOperator 43 "view3d.select" "Select"]) 1
         (sample_running "WINDOW" true))
  = Raise ValueError.
Proof.
  apply (update_operator_history_malformed
           (sample_context_operators
              [mkHostOperator 43 "view3d.select" "Select"]) 1
           (sample_running "WINDOW" true)
           (mkHostOperator 43 "view3d.select" "Select")).
  - reflexivity.
  - simpl. auto.
  - reflexivity.
Defined.

(** ** Timers *)

Lemma key_in_assoc {B} (k : Z) (v : B) (l : list (Z * B)) :
  assoc_ptr k l = Some v -> key_in k l = true.
Proof. unfold key_in. now intros ->. Qed.

Lemma key_in_kept {B} (k : Z) (l l' : list (Z * B)) :
  (forall k v, assoc_ptr k l = Some v -> assoc_ptr k l' = Some v) ->
  key_in k l = true -> key_in k l' = true.
Proof.
  intros Hkept. unfold key_in at 1.
  destruct (assoc_ptr k l) as [v|] eqn:E; [|discriminate].
  intros _. exact (key_in_assoc _ _ _ (Hkept _ _ E)).
Qed.

Lemma event_timer_add_loop (windows : list Window) :
  forall s,
  exists s',
    for_each windows (fun win =>
      let key := window_ptr win in
      s <- get ;;
      if negb (key_in key (timers s)) then
        fun s =>
          let '(timer, s) := host_call_token (wm_event_timer_add key) s in
          (Ok tt, set_timers (timers s ++ [(key, timer)]) s)
      else ret tt) s = (Ok tt, s')
    /\ (forall win, In win windows ->
                    key_in (window_ptr win) (timers s') = true)
    /\ (forall k v, assoc_ptr k (timers s) = Some v ->
                    assoc_ptr k (timers s') = Some v).
Proof.
  induction windows as [|win windows IH]; intros s.
  - exists s. split; [reflexivity|]. split; [intros w []|auto].
  - cbn [for_each]. unfold bind at 1. rewrite bind_get. cbv beta zeta.
    destruct (key_in (window_ptr win) (timers s)) eqn:E; cbn [negb].
    + destruct (IH s) as [s' [Hrun [Hall Hkept]]].
      exists s'. unfold ret at 1. split; [exact Hrun|]. split; [|exact Hkept].
      intros w [<- | Hw]; [|now apply Hall].
      now apply (key_in_kept _ (timers s)).
    + cbn [host_call_token].
      match goal with
      | |- context [for_each windows ?body ?s1] =>
          destruct (IH s1) as [s' [Hrun [Hall Hkept]]]
      end.
      exists s'. split; [exact Hrun|]. split.
      * intros w [<- | Hw]; [|now apply Hall].
        eapply key_in_assoc. apply Hkept. cbn [timers set_timers].
        now apply assoc_ptr_new.
      * intros k v Hk. apply Hkept. cbn [timers set_timers].
        now apply assoc_ptr_app.
Qed.

Lemma event_timer_add_noop (windows : list Window) (s : State) :
  (forall win, In win windows -> key_in (window_ptr win) (timers s) = true) ->
  for_each windows (fun win =>
    let key := window_ptr win in
    s <- get ;;
    if negb (key_in key (timers s)) then
      fun s =>
        let '(timer, s) := host_call_token (wm_event_timer_add key) s in
        (Ok tt, set_timers (timers s ++ [(key, timer)]) s)
    else ret tt) s = (Ok tt, s).
Proof.
  induction windows as [|win windows IH]; intros Hall; [reflexivity|].
  cbn [for_each]. unfold bind at 1. rewrite bind_get. cbv beta zeta.
  rewrite (Hall win) by now left. cbn [negb]. unfold ret at 1.
  apply IH. intros w Hw. apply Hall. now right.
Qed.

(** X19.  [event_timer_add] never raises; afterwards every window of the
    context has a timer, the timers registered before are the same, and
    calling it again changes nothing. *)
Theorem event_timer_add_covers (context : Context) (s : State) :
  let s' := exec (event_timer_add context) s in
  fst (event_timer_add context s) = Ok tt
  /\ (forall win, In win (ctx_windows context) ->
                  key_in (window_ptr win) (timers s') = true)
  /\ (forall key timer, assoc_ptr key (timers s) = Some timer ->
                        assoc_ptr key (timers s') = Some timer)
  /\ event_timer_add context s' = (Ok tt, s').
Proof.
  unfold exec, event_timer_add.
  destruct (event_timer_add_loop (ctx_windows context) s)
    as [s' [Hrun [Hall Hkept]]].
  cbv zeta in Hrun. rewrite Hrun. cbn [fst snd]. split; [reflexivity|].
  split; [exact Hall|]. split; [exact Hkept|].
  now apply event_timer_add_noop.
Qed.

Lemma event_timer_add_covers_witness :
  key_in (window_ptr sample_window)
         (timers (exec (event_timer_add (sample_context "WINDOW" false))
                       init_state)) = true.
Proof.
  apply (proj1 (proj2 (event_timer_add_covers
                         (sample_context "WINDOW" false) init_state))).
  simpl. auto.
Defined.

(** X20.  [event_timer_remove] never raises and empties the timer
    registry; the host is asked to remove exactly the timers of the
    context's windows.  A timer registered for a window that is not among
    the context's windows is forgotten without being removed from the
    host. *)
Theorem event_timer_remove_forgets (context : Context) (s : State) :
  let s' := exec (event_timer_remove context) s in
  fst (event_timer_remove context s) = Ok tt
  /\ timers s' = []
  /\ host_calls s' = host_calls s ++ timer_removals context s
  /\ (forall w timer,
         assoc_ptr w (timers s) = Some timer ->
         (forall win, In win (ctx_windows context) -> window_ptr win <> w) ->
         (forall w', assoc_ptr w' (timers s) = Some timer -> w' = w) ->
         ~ In (wm_event_timer_remove timer) (timer_removals context s)).
Proof.
  unfold exec, event_timer_remove.
  rewrite (bind_ok _ _ _ _ _ (event_timer_remove_loop _ s)).
  unfold modify. cbn [fst snd].
  fold (timer_removals context s). rewrite log_calls_eq. cbn.
  split; [reflexivity|]. split; [reflexivity|]. split; [reflexivity|].
  intros w timer Hw Hgone Hinj Hin.
  unfold timer_removals in Hin. apply in_flat_map in Hin.
  destruct Hin as [win [Hwin Hcall]].
  destruct (assoc_ptr (window_ptr win) (timers s)) as [timer'|] eqn:E;
    [|destruct Hcall].
  destruct Hcall as [Heq | []]. injection Heq as ->.
  exact (Hgone win Hwin (Hinj _ E)).
Qed.

Lemma event_timer_remove_forgets_witness :
  ~ In (wm_event_timer_remove 1)
       (timer_removals (sample_context_other_window "WINDOW" false)
                       (sample_running "WINDOW" false)).
Proof.
  apply (proj2 (proj2 (proj2 (event_timer_remove_forgets
                                (sample_context_other_window "WINDOW" false)
                                (sample_running "WINDOW" false))))
           1 1).
  - reflexivity.
  - intros win [<- | []]. discriminate.
  - intros w'. simpl. destruct (Z.eqb w' 1) eqn:E; [|discriminate].
    intros _. now apply Z.eqb_eq.
Defined.

(** ** Switching on *)

(** X21.  Toggling a stopped operator on with an event whose type the
    enumeration does not know (the empty string, for one) raises
    [KeyError]: the operator stays stopped, no timer is added, no modal
    handler is installed and the anchor is not recorded; only the
    held-modifier list has been cleared. *)
Theorem invoke_unknown_type
        (H : Host) (context : Context) (event : Event) (s : State) :
  running s = false ->
  EventType_getitem H (event_type event) = Raise KeyError ->
  invoke H context event s = (Raise KeyError, set_hold_modifier_keys [] s).
Proof.
  intros Hr Hg. unfold invoke. rewrite bind_get. cbv beta. rewrite Hr.
  unfold update_hold_modifier_keys. unfold bind, modify, lift.
  rewrite Hg. reflexivity.
Qed.

Lemma invoke_unknown_type_witness :
  invoke sample_host (sample_context "WINDOW" false) (press "" false false)
         init_state
  = (Raise KeyError, set_hold_modifier_keys [] init_state).
Proof.
  apply (invoke_unknown_type sample_host (sample_context "WINDOW" false)
           (press "" false false) init_state); reflexivity.
Defined.

Lemma invoke_origin (H : Host) (context : Context) (event : Event)
      (s : State) :
  running s = false ->
  EventType_getitem H (event_type event) = Ok (event_type event) ->
  origin (exec (invoke H context event) s)
  = mkOrigin (Some (window_ptr (ctx_window context)))
             (Some (area_ptr (ctx_area context)))
             (Some (space_ptr (ctx_space_data context)))
             (region_type (ctx_region context)).
Proof.
  intros Hr Hg.
  set (held := set_hold_modifier_keys
                 (if String.eqb (event_type event) WINDOW_DEACTIVATE then []
                  else event_mod_keys event)
                 (set_hold_modifier_keys [] s)).
  destruct (event_timer_add_loop (ctx_windows context) held)
    as [timed [Hrun _]].
  change (event_timer_add context held = (Ok tt, timed)) in Hrun.
  unfold exec, invoke. rewrite bind_get. cbv beta. rewrite Hr.
  rewrite (bind_ok _ _ _ _ _ (update_hold_modifier_keys_run H event s Hg)).
  fold held. rewrite (bind_ok _ _ _ _ _ Hrun). rewrite !bind_modify.
  reflexivity.
Qed.

Lemma find_window_first (s : State) (windows : list Window) (p : Z) :
  origin_window (origin s) = Some p ->
  In p (map window_ptr windows) ->
  exists window,
    find_window s windows = Some window
    /\ In window windows /\ window_ptr window = p.
Proof.
  intros Ho. induction windows as [|w windows IH]; intros Hin; [destruct Hin|].
  cbn [find_window]. unfold is_window_match. rewrite Ho. cbn [ptr_eq_opt].
  destruct (Z.eqb (window_ptr w) p) eqn:E.
  - exists w. apply Z.eqb_eq in E. split; [reflexivity|].
    split; [now left | exact E].
  - destruct Hin as [Hp | Hin]; [rewrite Hp, Z.eqb_refl in E; discriminate|].
    destruct (IH Hin) as [w' [Hf [Hw' Hp']]].
    exists w'. split; [exact Hf|]. split; [now right | exact Hp'].
Qed.

(** X22.  After the operator has been switched on, the anchor in 'WINDOW'
    mode resolves to the window it was switched on in, at the offset of
    the preferences, as long as that window is among the context's
    windows. *)
Theorem invoke_then_get_origin_window
        (H : Host) (context later : Context) (event : Event) (s : State) :
  running s = false ->
  EventType_getitem H (event_type event) = Ok (event_type event) ->
  prefs_origin (ctx_prefs later) = "WINDOW" ->
  In (window_ptr (ctx_window context)) (map window_ptr (ctx_windows later)) ->
  exists window,
    In window (ctx_windows later)
    /\ window_ptr window = window_ptr (ctx_window context)
    /\ get_origin (exec (invoke H context event) s) later
       = Ok (Some window, None, None,
             fst (prefs_offset (ctx_prefs later)),
             snd (prefs_offset (ctx_prefs later))).
Proof.
  intros Hr Hg Hmode Hin.
  pose proof (invoke_origin H context event s Hr Hg) as Ho.
  destruct (find_window_first (exec (invoke H context event) s)
              (ctx_windows later) (window_ptr (ctx_window context)))
    as [window [Hf [Hw Hp]]]; [now rewrite Ho | exact Hin |].
  exists window. split; [exact Hw|]. split; [exact Hp|].
  unfold get_origin. destruct (prefs_offset (ctx_prefs later)) as [x y].
  rewrite Hf, Hmode. reflexivity.
Qed.

Lemma invoke_then_get_origin_window_witness :
  exists window,
    In window (ctx_windows (sample_context "WINDOW" false))
    /\ window_ptr window
       = window_ptr (ctx_window (sample_context "WINDOW" false))
    /\ get_origin (exec (invoke sample_host (sample_context "WINDOW" false)
                                (press "LEFTMOUSE" false false)) init_state)
                  (sample_context "WINDOW" false)
       = Ok (Some window, None, None,
             fst (prefs_offset (ctx_prefs (sample_context "WINDOW" false))),
             snd (prefs_offset (ctx_prefs (sample_context "WINDOW" false)))).
Proof.
  apply (invoke_then_get_origin_window sample_host
           (sample_context "WINDOW" false) (sample_context "WINDOW" false)
           (press "LEFTMOUSE" false false) init_state).
  - reflexivity.
  - reflexivity.
  - reflexivity.
  - simpl. auto.
Defined.

(** ** A vanished anchor window *)

Lemma find_window_none (s : State) (windows : list Window) :
  (forall window, In window windows -> is_window_match s window = false) ->
  find_window s windows = None.
Proof.
  induction windows as [|w windows IH]; intros Hno; [reflexivity|].
  cbn [find_window]. rewrite (Hno w) by now left.
  apply IH. intros w' Hw'. apply Hno. now right.
Qed.

(** X23.  When no window of the context is the anchor window (none was
    ever recorded, or it has been closed), nothing raises and nothing is
    to be drawn, in every origin mode: [get_origin] returns no target,
    [calc_draw_area_rect] returns [None] and [find_redraw_regions] the
    empty list. *)
Theorem vanished_window_draws_nothing
        (H : Host) (s : State) (context : Context) (t : Q) :
  (forall window, In window (ctx_windows context) ->
                  is_window_match s window = false) ->
  get_origin s context = Ok no_origin
  /\ calc_draw_area_rect H s context t = Ok None
  /\ find_redraw_regions H s context t = Ok [].
Proof.
  intros Hno.
  assert (Ho : get_origin s context = Ok no_origin).
  { unfold get_origin. destruct (prefs_offset (ctx_prefs context)) as [x y].
    now rewrite find_window_none. }
  assert (Hc : calc_draw_area_rect H s context t = Ok None).
  { unfold calc_draw_area_rect. rewrite Ho. reflexivity. }
  split; [exact Ho|]. split; [exact Hc|].
  unfold find_redraw_regions. rewrite Hc. reflexivity.
Qed.

Lemma vanished_window_draws_nothing_witness :
  get_origin (sample_running "AREA" true)
             (sample_context_other_window "AREA" true) = Ok no_origin
  /\ calc_draw_area_rect sample_host (sample_running "AREA" true)
                         (sample_context_other_window "AREA" true) 1 = Ok None
  /\ find_redraw_regions sample_host (sample_running "AREA" true)
                         (sample_context_other_window "AREA" true) 1 = Ok [].
Proof.
  apply (vanished_window_draws_nothing sample_host
           (sample_running "AREA" true)
           (sample_context_other_window "AREA" true) 1).
  intros window [<- | []]. reflexivity.
Defined.

(** ** The regions of the current redraw set *)

(** One round of the second redraw loop, for a region whose area type
    [SPACE_TYPES] knows: what holds afterwards. *)
Lemma redraw_current_round (st : string) (region : Region) (s : State) :
  let s1 :=
    match handlers_get (st, region_type region) (handlers s) with
    | Some _ => s
    | None =>
        set_handlers
          (handlers s ++ [((st, region_type region), host_next_token s)])
          (snd (host_call_token
                  (space_draw_handler_add st (region_type region)) s))
    end in
  let s2 :=
    set_draw_regions_prev
      (set_add (region_ptr region) (draw_regions_prev s1))
      (host_call (region_tag_redraw (region_ptr region)) s1) in
  In (region_ptr region) (draw_regions_prev s2)
  /\ (exists h, handlers_get (st, region_type region) (handlers s2) = Some h)
  /\ (forall p, In p (draw_regions_prev s) -> In p (draw_regions_prev s2))
  /\ (forall k h, handlers_get k (handlers s) = Some h ->
                  handlers_get k (handlers s2) = Some h)
  /\ exists extra,
       host_calls s2 = host_calls s ++ extra
       /\ In (region_tag_redraw (region_ptr region)) extra.
Proof.
  destruct (handlers_get (st, region_type region) (handlers s)) as [h|] eqn:E;
    cbn.
  - split; [apply set_add_In; now left|].
    split; [now exists h|].
    split; [intros p Hp; apply set_add_In; now right|].
    split; [auto|].
    exists [region_tag_redraw (region_ptr region)]. simpl. auto.
  - split; [apply set_add_In; now left|].
    split; [exists (host_next_token s); now apply handlers_get_new|].
    split; [intros p Hp; apply set_add_In; now right|].
    split; [intros k h Hk; now apply handlers_get_app|].
    exists [space_draw_handler_add st (region_type region) (host_next_token s);
            region_tag_redraw (region_ptr region)].
    rewrite <- app_assoc. simpl. auto.
Qed.

Lemma redraw_current_cons (H : Host) (area : Area) (region : Region)
      (regions : list (Area * Region)) (s : State) :
  redraw_current H ((area, region) :: regions) s
  = match assoc_string (area_type area) (SPACE_TYPES H) with
    | None => (Raise KeyError, s)
    | Some st =>
        let s1 :=
          match handlers_get (st, region_type region) (handlers s) with
          | Some _ => s
          | None =>
              set_handlers
                (handlers s ++ [((st, region_type region), host_next_token s)])
                (snd (host_call_token
                        (space_draw_handler_add st (region_type region)) s))
          end in
        redraw_current H regions
          (set_draw_regions_prev
             (set_add (region_ptr region) (draw_regions_prev s1))
             (host_call (region_tag_redraw (region_ptr region)) s1))
    end.
Proof.
  unfold redraw_current. cbn [for_each].
  destruct (assoc_string (area_type area) (SPACE_TYPES H)) as [st|];
    [|reflexivity].
  unfold bind at 1. rewrite bind_lift_ok, bind_get. cbv beta zeta.
  destruct (handlers_get (st, region_type region) (handlers s)); reflexivity.
Qed.

Lemma redraw_current_tracks (H : Host) (regions : list (Area * Region)) :
  forall s,
    match redraw_current H regions s with
    | (Ok _, s') =>
        exists extra,
          host_calls s' = host_calls s ++ extra
          /\ (forall area region,
                 In (area, region) regions ->
                 In (region_ptr region) (draw_regions_prev s')
                 /\ In (region_tag_redraw (region_ptr region)) extra
                 /\ exists st h,
                      assoc_string (area_type area) (SPACE_TYPES H) = Some st
                      /\ handlers_get (st, region_type region) (handlers s')
                         = Some h)
          /\ (forall p, In p (draw_regions_prev s) ->
                        In p (draw_regions_prev s'))
          /\ (forall k h, handlers_get k (handlers s) = Some h ->
                          handlers_get k (handlers s') = Some h)
    | (Raise _, _) => True
    end.
Proof.
  induction regions as [|[area region] regions IH]; intros s.
  - simpl. exists []. rewrite app_nil_r. split; [reflexivity|].
    split; [intros a r []|]. auto.
  - rewrite redraw_current_cons.
    destruct (assoc_string (area_type area) (SPACE_TYPES H)) as [st|] eqn:Est;
      [|exact I].
    cbv zeta.
    pose proof (redraw_current_round st region s) as Hround.
    cbv zeta in Hround.
    match goal with
    | |- match redraw_current H regions ?s2 with _ => _ end =>
        set (tracked := s2) in *; specialize (IH tracked)
    end.
    destruct Hround as [Hin [[h Hh] [Hprev [Hold [e1 [Hc1 Htag]]]]]].
    destruct (redraw_current H regions tracked) as [[u|e] s']; [|exact I].
    destruct IH as [e2 [Hc2 [Hall [Hprev' Hold']]]].
    exists (e1 ++ e2). split; [now rewrite Hc2, Hc1, app_assoc|].
    split; [|split].
    + intros a r [Heq | Har].
      * injection Heq as <- <-. split; [now apply Hprev'|].
        split; [apply in_or_app; now left|].
        exists st, h. split; [exact Est | now apply Hold'].
      * destruct (Hall a r Har) as [Hp [Ht Hst]].
        split; [exact Hp|]. split; [apply in_or_app; now right | exact Hst].
    + intros p Hp. now apply Hprev', Hprev.
    + intros k h0 Hk. now apply Hold', Hold.
Qed.

(** X24.  When the redraw step returns, every region of the current
    redraw set is tracked, a [tag_redraw] has been issued for it during
    the step, a draw handler is registered under (the space type of its
    area, its region type), and [prev_time] is the time of the step. *)
Theorem redraw_step_tracks_current
        (H : Host) (context : Context) (regions : list (Area * Region))
        (t : Q) (s : State) (u : unit) :
  fst (redraw_step H context regions t s) = Ok u ->
  let s' := exec (redraw_step H context regions t) s in
  prev_time s' = t
  /\ exists issued_now,
       host_calls s' = host_calls s ++ issued_now
       /\ forall area region,
            In (area, region) regions ->
            In (region_ptr region) (draw_regions_prev s')
            /\ In (region_tag_redraw (region_ptr region)) issued_now
            /\ exists st h,
                 assoc_string (area_type area) (SPACE_TYPES H) = Some st
                 /\ handlers_get (st, region_type region) (handlers s')
                    = Some h.
Proof.
  unfold exec, redraw_step.
  assert (Hprev : exists e0,
             host_calls (snd (redraw_previous context s))
             = host_calls s ++ e0).
  { apply (preserves_exec
             (fun s0 => exists e0, host_calls s0 = host_calls s ++ e0)).
    - apply redraw_previous_keeps.
      + intros p s0 [e0 He0]. exists (e0 ++ [region_tag_redraw p]).
        simpl. now rewrite He0, app_assoc.
      + intros v s0 Hs0. exact Hs0.
    - exists []. now rewrite app_nil_r. }
  destruct (redraw_previous context s) as [[u0|e] s0] eqn:E0;
    [|unfold bind; rewrite E0; discriminate].
  rewrite (bind_ok _ _ _ _ _ E0).
  pose proof (redraw_current_tracks H regions s0) as Hcur.
  destruct (redraw_current H regions s0) as [[u1|e] s1] eqn:E1;
    [|unfold bind; rewrite E1; discriminate].
  rewrite (bind_ok _ _ _ _ _ E1). unfold modify. cbn [fst snd].
  intros _. split; [reflexivity|].
  destruct Hprev as [e0 He0]. cbn [snd] in He0.
  destruct Hcur as [e1 [He1 [Hall _]]].
  exists (e0 ++ e1). split; [simpl; now rewrite He1, He0, app_assoc|].
  intros area region Hin. destruct (Hall area region Hin) as [Hp [Ht Hst]].
  split; [exact Hp|]. split; [apply in_or_app; now right | exact Hst].
Qed.

Lemma redraw_step_tracks_current_witness :
  prev_time
    (exec (redraw_step sample_host (sample_context "WINDOW" false)
                       [(sample_view, sample_window_region)] 1)
          (sample_running "WINDOW" false))
  = 1%Q.
Proof.
  apply (redraw_step_tracks_current sample_host
           (sample_context "WINDOW" false)
           [(sample_view, sample_window_region)] 1
           (sample_running "WINDOW" false) tt).
  reflexivity.
Defined.

(** ** The draw rectangle stays inside its anchor *)

Lemma py_min_le_r (a b : Q) : (py_min a b <= b)%Q.
Proof.
  unfold py_min, Qltb. destruct (Qle_bool a b) eqn:E; cbn [negb].
  - now apply Qle_bool_iff.
  - apply Qle_refl.
Qed.

Lemma inject_Z_max_r (a b : Z) : (inject_Z b <= inject_Z (Z.max a b))%Q.
Proof. rewrite <- Zle_Qle. lia. Qed.

(** X25.  Whenever [calc_draw_area_rect] returns a rectangle: in 'WINDOW'
    mode its min corner is the resolved anchor position; in 'AREA' and
    'REGION' modes an area, respectively a region, was resolved and the
    rectangle is clipped to it, its min corner not before the min corner
    of that area or region and its max corner not beyond the last pixel
    of it. *)
Theorem calc_draw_area_rect_clipped
        (H : Host) (s : State) (context : Context) (t : Q)
        (window : Window) (area : option Area) (region : option Region)
        (x y : Z) (rect : DrawRect) :
  get_origin s context = Ok (Some window, area, region, x, y) ->
  calc_draw_area_rect H s context t = Ok (Some rect) ->
  let '(min_x, min_y, max_x, max_y) := rect in
  (prefs_origin (ctx_prefs context) = "WINDOW" ->
   min_x = inject_Z x /\ min_y = inject_Z y)
  /\ (prefs_origin (ctx_prefs context) = "AREA" ->
      exists a,
        area = Some a
        /\ (inject_Z (area_x a) <= min_x)%Q
        /\ (inject_Z (area_y a) <= min_y)%Q
        /\ (max_x <= inject_Z (area_x a + area_width a - 1))%Q
        /\ (max_y <= inject_Z (area_y a + area_height a - 1))%Q)
  /\ (prefs_origin (ctx_prefs context) = "REGION" ->
      exists r,
        region = Some r
        /\ (inject_Z (region_x r) <= min_x)%Q
        /\ (inject_Z (region_y r) <= min_y)%Q
        /\ (max_x <= inject_Z (region_x r + region_width r - 1))%Q
        /\ (max_y <= inject_Z (region_y r + region_height r - 1))%Q).
Proof.
  intros Ho Hc. unfold calc_draw_area_rect in Hc. rewrite Ho in Hc.
  cbn [rbind] in Hc. cbv zeta in Hc.
  repeat match type of Hc with
         | rbind ?X _ = _ =>
             destruct X as [[? ?]|?]; cbn [rbind] in Hc; [|discriminate]
         end.
  destruct rect as [[[min_x min_y] max_x] max_y].
  split; [|split]; intros Hmode; rewrite Hmode in Hc;
    cbn [String.eqb Ascii.eqb Bool.eqb] in Hc.
  - injection Hc as <- <- _ _. split; reflexivity.
  - destruct area as [a|]; [|discriminate].
    injection Hc as <- <- <- <-. exists a. split; [reflexivity|].
    split; [apply inject_Z_max_r|]. split; [apply inject_Z_max_r|].
    split; apply py_min_le_r.
  - destruct region as [r|]; [|discriminate].
    injection Hc as <- <- <- <-. exists r. split; [reflexivity|].
    split; [apply inject_Z_max_r|]. split; [apply inject_Z_max_r|].
    split; apply py_min_le_r.
Qed.

Lemma calc_draw_area_rect_clipped_witness :
  exists rect,
    calc_draw_area_rect sample_host (sample_running "AREA" false)
                        (sample_context "AREA" false) 1 = Ok (Some rect)
    /\ let '(min_x, min_y, max_x, max_y) := rect in
       (inject_Z (area_x sample_view) <= min_x)%Q
       /\ (max_x <= inject_Z (area_x sample_view + area_width sample_view - 1))%Q.
Proof.
  exists (10, 10, 10 + 0, 10 + (0 + 16))%Q.
  split; [reflexivity|].
  destruct (proj1 (proj2 (calc_draw_area_rect_clipped
                            sample_host (sample_running "AREA" false)
                            (sample_context "AREA" false) 1
                            sample_window (Some sample_view) None 10 10
                            (10, 10, 10 + 0, 10 + (0 + 16))%Q
                            eq_refl eq_refl)) eq_refl)
    as [a [Ha [Hx [_ [Hmx _]]]]].
  injection Ha as <-. split; [exact Hx | exact Hmx].
Defined.
